(** * UCL (Universal Configuration Language): the TypeScript parse-and-evaluate engine

    A shallow embedding of [src/libs/typescript/src/parser.ts] (the single-file
    engine) and of [src/libs/typescript/src/ucl-parser.ts] with its [utils/]
    modules (the engine that [index.ts] exports), followed by the properties
    of the natural-language specification.

    Conventions of the embedding.
    - A JavaScript string is a [string] of ASCII code units; whitespace is the
      ASCII part of the ECMAScript [WhiteSpace] and [LineTerminator] sets.
    - A stored JavaScript number is the rational [Q] that the double
      denotes, kept in lowest terms.  Reading a number from a text ([Number],
      [parseFloat], a literal) rounds to the nearest double, ties to even,
      with the subnormal range and the overflow to [Infinity], as the source
      does ([JS.to_double]).  The operations [+], [-], [*], [/], [%] are the
      exact ones: the source rounds each result to the nearest double, so
      the two agree where the exact result is a double, and the theorems on
      values are stated there ([double], [safe_integer], [binary_fraction]).
      [String] of a number is the decimal text of the source for an integer
      of at most [2^53 - 1] in absolute value and for a short binary
      fraction, and the theorems on texts are stated there ([decimal_text],
      [exact_text]).  [Infinity], [NaN] and the
      sign of zero are not represented in stored values.
    - A JavaScript plain object is the list of its own properties in
      enumeration order (array-index keys in ascending order, then the other
      keys in insertion order).  The source tests a property by calling
      [hasOwnProperty] through the object: an object with a property of that
      name of its own makes the call raise the [TypeError] of the runtime,
      and so does the embedding ([shadowed], [NativeTypeError]).  Two other
      members of [Object.prototype] are left out, and the theorems are stated
      away from them: an assignment to [__proto__] ([own_names]), and the
      text of an object with a property [toString] of its own ([printable]).
      The table of the environment inherits [Object.prototype] as well
      ([prototype_members]).
    - In the engine a stored value is a tree; a reference in the source returns
      the object it finds, so two paths may share one object.  Module [Shared]
      models the Document as a store of objects, for the defaults pass and
      for the writes, where that matters; the theorems on whole parses are
      stated for lines that store no object ([plain_writes]).
    - A function that throws returns [Throw e]; a loop of the source that
      need not terminate takes fuel and returns [OutOfFuel] when it is spent. *)

From Stdlib Require Import String Ascii List ZArith QArith Qround Lia Bool Arith.
From Stdlib Require Import Numbers.DecimalString DecimalPos.
Import ListNotations.
Local Close Scope Q_scope.
Local Open Scope list_scope.
Local Open Scope string_scope.

Set Warnings "-register-all".

(* ================================================================== *)
(** * The JavaScript runtime: strings *)
(* ================================================================== *)

Module JS.

(** ** Characters *)

Definition LF : ascii := ascii_of_nat 10.
Definition TAB : ascii := ascii_of_nat 9.
Definition CR : ascii := ascii_of_nat 13.
Definition BACKSLASH : ascii := ascii_of_nat 92.
Definition DQUOTE : ascii := ascii_of_nat 34.
Definition SQUOTE : ascii := ascii_of_nat 39.

Definition ch (c : ascii) : string := String c EmptyString.

(** [c.trim() === ""] for a one-character string, and the class [\s]. *)
Definition is_space (c : ascii) : bool :=
  let n := nat_of_ascii c in
  ((9 <=? n)%nat && (n <=? 13)%nat) || (n =? 32)%nat.

(** The class [\d]. *)
Definition is_digit (c : ascii) : bool :=
  let n := nat_of_ascii c in (48 <=? n)%nat && (n <=? 57)%nat.

Definition is_upper (c : ascii) : bool :=
  let n := nat_of_ascii c in (65 <=? n)%nat && (n <=? 90)%nat.

Definition is_lower (c : ascii) : bool :=
  let n := nat_of_ascii c in (97 <=? n)%nat && (n <=? 122)%nat.

Definition lower_char (c : ascii) : ascii :=
  if is_upper c then ascii_of_nat (nat_of_ascii c + 32) else c.

(** ** String methods *)

Fixpoint toLowerCase (s : string) : string :=
  match s with
  | EmptyString => EmptyString
  | String c s' => String (lower_char c) (toLowerCase s')
  end.

Fixpoint trimStart (s : string) : string :=
  match s with
  | EmptyString => EmptyString
  | String c s' => if is_space c then trimStart s' else s
  end.

Fixpoint rev_string (acc s : string) : string :=
  match s with
  | EmptyString => acc
  | String c s' => rev_string (String c acc) s'
  end.

Definition reverse (s : string) : string := rev_string EmptyString s.

Definition trimEnd (s : string) : string := reverse (trimStart (reverse s)).

Definition trim (s : string) : string := trimEnd (trimStart s).

Definition is_empty (s : string) : bool :=
  match s with EmptyString => true | _ => false end.

Fixpoint startsWith (s p : string) : bool :=
  match p, s with
  | EmptyString, _ => true
  | String a p', String b s' => Ascii.eqb a b && startsWith s' p'
  | String _ _, EmptyString => false
  end.

Definition endsWith (s p : string) : bool := startsWith (reverse s) (reverse p).

(** [s.indexOf(p)]: index of the first occurrence. *)
Fixpoint indexOf_from (i : nat) (s p : string) : option nat :=
  if startsWith s p then Some i
  else match s with
       | EmptyString => None
       | String _ s' => indexOf_from (S i) s' p
       end.

Definition indexOf (s p : string) : option nat := indexOf_from 0 s p.

Definition includes (s p : string) : bool :=
  match indexOf s p with Some _ => true | None => false end.

(** [s.lastIndexOf(p)] for a one-character [p]. *)
Fixpoint lastIndexOf_from (i : nat) (last : option nat) (s : string) (c : ascii)
  : option nat :=
  match s with
  | EmptyString => last
  | String a s' =>
      lastIndexOf_from (S i) (if Ascii.eqb a c then Some i else last) s' c
  end.

Definition lastIndexOf (s : string) (c : ascii) : option nat :=
  lastIndexOf_from 0 None s c.

Fixpoint drop (n : nat) (s : string) : string :=
  match n, s with
  | O, _ => s
  | S n', String _ s' => drop n' s'
  | S _, EmptyString => EmptyString
  end.

Fixpoint take (n : nat) (s : string) : string :=
  match n, s with
  | O, _ => EmptyString
  | S n', String c s' => String c (take n' s')
  | S _, EmptyString => EmptyString
  end.

(** [s.substring(a, b)] for [0 <= a]; the source never passes [a > b] except
    through [substring(1, length - 1)] on a one-character string, where
    JavaScript swaps the arguments and returns [substring(0, 1)]. *)
Definition substring (a b : nat) (s : string) : string :=
  if (b <? a)%nat then take (a - b) (drop b s) else take (b - a) (drop a s).

(** [s.substring(1, s.length - 1)]. *)
Definition strip_ends (s : string) : string :=
  substring 1 (String.length s - 1) s.

(** [s.split(c)] for a one-character separator: never the empty list. *)
Fixpoint split (c : ascii) (s : string) : list string :=
  match s with
  | EmptyString => [EmptyString]
  | String a s' =>
      if Ascii.eqb a c then EmptyString :: split c s'
      else match split c s' with
           | x :: rest => String a x :: rest
           | [] => [String a EmptyString]
           end
  end.

(** [l.join(sep)] on strings. *)
Fixpoint join (sep : string) (l : list string) : string :=
  match l with
  | [] => EmptyString
  | [x] => x
  | x :: rest => x ++ sep ++ join sep rest
  end.

(** Number of occurrences of a character: [(s.match(/c/g)?.length || 0)]. *)
Fixpoint count_char (c : ascii) (s : string) : nat :=
  match s with
  | EmptyString => 0
  | String a s' => (if Ascii.eqb a c then 1 else 0) + count_char c s'
  end.

(** [l.includes(s)] on an array of strings. *)
Definition mem (s : string) (l : list string) : bool :=
  existsb (String.eqb s) l.

(* ================================================================== *)
(** * The JavaScript runtime: numbers *)
(* ================================================================== *)

(** The result of [Number(s)] and [parseFloat(s)]. *)
Inductive JSNumber : Type :=
| NaN
| Infinity (negative : bool)
| Finite (q : Q).

(** [!isNaN(n) && isFinite(n)]. *)
Definition finite (n : JSNumber) : option Q :=
  match n with Finite q => Some q | _ => None end.

Definition num (z : Z) : Q := inject_Z z.

Definition num_is_zero (q : Q) : bool := (Qnum q =? 0)%Z.

Definition num_eqb (a b : Q) : bool := Qeq_bool a b.

(** [a + b], [a - b], [a * b] and [a / b] as exact numbers.  The source
    rounds each result to the nearest double, so the two are the same number
    where the exact result is one that a double holds. *)
Definition num_add (a b : Q) : Q := Qred (Qplus a b).
Definition num_sub (a b : Q) : Q := Qred (Qminus a b).
Definition num_mul (a b : Q) : Q := Qred (Qmult a b).
Definition num_div (a b : Q) : Q := Qred (Qdiv a b).

(** Rounding toward zero. *)
Definition num_trunc (q : Q) : Z := Z.quot (Qnum q) (Zpos (Qden q)).

(** [a % b] for [b <> 0]: the remainder has the sign of the dividend. *)
Definition num_rem (a b : Q) : Q :=
  Qred (Qminus a (Qmult b (inject_Z (num_trunc (Qdiv a b))))).

(** [Math.floor]. *)
Definition Math_floor (q : Q) : Q := inject_Z (Qfloor q).

(** *** Number to string *)

Definition Z_to_string (z : Z) : string := NilEmpty.string_of_int (Z.to_int z).

Definition digit_char (z : Z) : ascii := ascii_of_nat (48 + Z.to_nat z).

Fixpoint frac_digits (fuel : nat) (r d : Z) : string :=
  match fuel with
  | O => EmptyString
  | S f =>
      if (r =? 0)%Z then EmptyString
      else String (digit_char ((r * 10) / d)) (frac_digits f ((r * 10) mod d) d)
  end.

(** [String(n)] for a number: an integral value prints without a fraction;
    a fraction prints its decimal expansion, cut after 17 digits when it does
    not terminate.  The source prints the shortest digits that read back as
    the same double, with an exponent from [1e21] on and below [1e-6]: the
    two texts are the same for an integer of at most [2^53 - 1] in absolute
    value, and the theorems on texts are stated for such numbers. *)
Definition number_toString (q : Q) : string :=
  let q := Qred q in
  let n := Qnum q in
  let d := Zpos (Qden q) in
  if (d =? 1)%Z then Z_to_string n
  else
    let a := Z.abs n in
    (if (n <? 0)%Z then "-" else "")
      ++ Z_to_string (a / d) ++ "." ++ frac_digits 17 (a mod d) d.

(** *** String to number *)

Definition digit_val (c : ascii) : Z := Z.of_nat (nat_of_ascii c - 48).

Fixpoint digits_val (acc : Z) (s : string) : Z :=
  match s with
  | EmptyString => acc
  | String c s' => digits_val (acc * 10 + digit_val c)%Z s'
  end.

(** The longest prefix of decimal digits, and the rest. *)
Fixpoint span_digits (s : string) : string * string :=
  match s with
  | EmptyString => (EmptyString, EmptyString)
  | String c s' =>
      if is_digit c then let (d, r) := span_digits s' in (String c d, r)
      else (EmptyString, s)
  end.

(** *** Rounding to a double *)

Definition apply_sign (neg : bool) (q : Q) : Q := if neg then Qred (Qopp q) else q.

(** The integer nearest to [n / d] for [0 <= n] and [0 < d], the even one of
    the two when [n / d] lies halfway between them. *)
Definition round_half_even (n d : Z) : Z :=
  let m := (n / d)%Z in
  let r := (n mod d)%Z in
  if (2 * r <? d)%Z then m
  else if (d <? 2 * r)%Z then (m + 1)%Z
  else if Z.even m then m else (m + 1)%Z.

Definition pow2 (p : Z) : Q :=
  if (0 <=? p)%Z then inject_Z (2 ^ p) else Qinv (inject_Z (2 ^ (- p))).

(** The double that stands for the number of magnitude [q] with the sign
    [neg]: the nearest value [m * 2^p] with [m <= 2^53] and [-1074 <= p],
    where [p] is 52 below the binary exponent [e] of [q] when that is not
    less than -1074; ties go to the even [m]; from [2^1024] on the value is
    an infinity. *)
Definition to_double (neg : bool) (q : Q) : JSNumber :=
  let a := Qnum q in
  let d := Zpos (Qden q) in
  if (a <=? 0)%Z then Finite (apply_sign neg (num 0))
  else
    let e0 := (Z.log2 a - Z.log2 d)%Z in
    let reached := if (0 <=? e0)%Z then (d * 2 ^ e0 <=? a)%Z
                   else (d <=? a * 2 ^ (- e0))%Z in
    let e := if reached then e0 else (e0 - 1)%Z in
    let p := Z.max (e - 52) (-1074) in
    let m := if (0 <=? p)%Z then round_half_even a (d * 2 ^ p)
             else round_half_even (a * 2 ^ (- p)) d in
    if (0 <=? p)%Z && (2 ^ 1024 <=? m * 2 ^ p)%Z then Infinity neg
    else Finite (apply_sign neg (Qred (Qmult (inject_Z m) (pow2 p)))).

Definition radix_digit (base : Z) (c : ascii) : option Z :=
  let n := nat_of_ascii (lower_char c) in
  let v := if is_digit c then Some (Z.of_nat (n - 48))
           else if ((97 <=? n) && (n <=? 102))%nat then Some (Z.of_nat (n - 87))
           else None in
  match v with
  | Some d => if (d <? base)%Z then Some d else None
  | None => None
  end.

(** A non-empty string of digits in the given base. *)
Fixpoint radix_val (base acc : Z) (s : string) : option Z :=
  match s with
  | EmptyString => Some acc
  | String c s' =>
      match radix_digit base c with
      | Some d => radix_val base (acc * base + d)%Z s'
      | None => None
      end
  end.

Definition radix_literal (base : Z) (s : string) : JSNumber :=
  if is_empty s then NaN
  else match radix_val base 0 s with
       | Some z => to_double false (num z)
       | None => NaN
       end.

Definition pow10 (e : Z) : Q :=
  if (0 <=? e)%Z then inject_Z (10 ^ e) else Qinv (inject_Z (10 ^ (- e))).

(** [ExponentPart] after its [e]: an optional sign and at least one digit,
    up to the end of the string. *)
Definition parse_exponent (s : string) : option Z :=
  let '(sg, r) := match s with
                  | String "+" r => (1%Z, r)
                  | String "-" r => ((-1)%Z, r)
                  | _ => (1%Z, s)
                  end in
  let (d, rest) := span_digits r in
  if is_empty d || negb (is_empty rest) then None
  else Some (sg * digits_val 0 d)%Z.

(** [StrUnsignedDecimalLiteral] without [Infinity], up to the end of the
    string: digits, an optional fraction, an optional exponent. *)
Definition parse_unsigned_decimal (s : string) : option Q :=
  let (ip, r1) := span_digits s in
  let (fp, r2) := match r1 with
                  | String "." r => span_digits r
                  | _ => (EmptyString, r1)
                  end in
  if is_empty ip && is_empty fp then None
  else
    let mant := Qred (Qdiv (inject_Z (digits_val 0 (ip ++ fp)))
                           (inject_Z (10 ^ Z.of_nat (String.length fp)))) in
    match r2 with
    | EmptyString => Some mant
    | String c r3 =>
        if Ascii.eqb (lower_char c) "e"
        then match parse_exponent r3 with
             | Some e => Some (Qred (Qmult mant (pow10 e)))
             | None => None
             end
        else None
    end.

Definition split_sign (s : string) : bool * string :=
  match s with
  | String "+" r => (false, r)
  | String "-" r => (true, r)
  | _ => (false, s)
  end.

(** [Number(s)] on a string (the abstract operation StringToNumber). *)
Definition Number (s : string) : JSNumber :=
  let t := trim s in
  if is_empty t then Finite (num 0)
  else if startsWith (toLowerCase (take 2 t)) "0x" then radix_literal 16 (drop 2 t)
  else if startsWith (toLowerCase (take 2 t)) "0o" then radix_literal 8 (drop 2 t)
  else if startsWith (toLowerCase (take 2 t)) "0b" then radix_literal 2 (drop 2 t)
  else
    let (neg, r) := split_sign t in
    if String.eqb r "Infinity" then Infinity neg
    else match parse_unsigned_decimal r with
         | Some q => to_double neg q
         | None => NaN
         end.

(** The longest prefix that is a [StrUnsignedDecimalLiteral]: used by
    [parseFloat], which ignores what follows the literal. *)
Definition decimal_prefix (s : string) : option Q :=
  let (ip, r1) := span_digits s in
  let (fp, r2) := match r1 with
                  | String "." r => span_digits r
                  | _ => (EmptyString, r1)
                  end in
  if is_empty ip && is_empty fp then None
  else
    let mant := Qred (Qdiv (inject_Z (digits_val 0 (ip ++ fp)))
                           (inject_Z (10 ^ Z.of_nat (String.length fp)))) in
    match r2 with
    | String c r3 =>
        if Ascii.eqb (lower_char c) "e"
        then
          let (neg, r4) := split_sign r3 in
          let (d, _) := span_digits r4 in
          if is_empty d then Some mant
          else Some (Qred (Qmult mant
                      (pow10 (if neg then (- digits_val 0 d)%Z else digits_val 0 d))))
        else Some mant
    | EmptyString => Some mant
    end.

(** [parseFloat(s)]. *)
Definition parseFloat (s : string) : JSNumber :=
  let t := trimStart s in
  let (neg, r) := split_sign t in
  if startsWith r "Infinity" then Infinity neg
  else match decimal_prefix r with
       | Some q => to_double neg q
       | None => NaN
       end.

End JS.

(* ================================================================== *)
(** * Values, errors and results *)
(* ================================================================== *)

(** [type UCLValue = string | number | boolean | null | UCLArray | UCLObject]. *)
Inductive UCLValue : Type :=
| VNull
| VBool (b : bool)
| VNum (q : Q)
| VStr (s : string)
| VArr (l : list UCLValue)
| VObj (o : list (string * UCLValue)).

(** [interface UCLObject { [key: string]: UCLValue }]: own properties in
    enumeration order. *)
Definition UCLObject : Type := list (string * UCLValue).

(** The error classes of [errors.ts], each with its message, and the
    [TypeError] that the runtime itself raises when a value that is not a
    function is called: it is no [UCLError]. *)
Inductive Err : Type :=
| UCLError (msg : string)
| UCLSyntaxError (msg : string)
| UCLReferenceError (msg : string)
| UCLTypeError (msg : string)
| NativeTypeError (msg : string).

Inductive ErrKind : Type := Base | Syntax | Reference | TypeErr | Native.

Definition kind (e : Err) : ErrKind :=
  match e with
  | UCLError _ => Base
  | UCLSyntaxError _ => Syntax
  | UCLReferenceError _ => Reference
  | UCLTypeError _ => TypeErr
  | NativeTypeError _ => Native
  end.

Inductive Result (A : Type) : Type :=
| Ok (a : A)
| Throw (e : Err)
| OutOfFuel.

Arguments Ok {A} a.
Arguments Throw {A} e.
Arguments OutOfFuel {A}.

Definition bind {A B : Type} (r : Result A) (k : A -> Result B) : Result B :=
  match r with
  | Ok a => k a
  | Throw e => Throw e
  | OutOfFuel => OutOfFuel
  end.

Notation "x <- r ;; k" := (bind r (fun x => k))
  (at level 61, r at next level, right associativity).

Definition is_error {A : Type} (r : Result A) : Prop :=
  exists e, r = Throw e.

Definition throws {A : Type} (k : ErrKind) (r : Result A) : Prop :=
  exists e, r = Throw e /\ kind e = k.

(** ** Objects as property lists *)

Module Obj.

(** A canonical array index: the decimal text of an integer below [2^32 - 1].
    Such keys are enumerated first, in ascending order. *)
Definition array_index (k : string) : option Z :=
  match k with
  | EmptyString => None
  | String c rest =>
      if forallb JS.is_digit (list_ascii_of_string k)
           && (negb (Ascii.eqb c "0") || JS.is_empty rest)
      then let z := JS.digits_val 0 k in
           if (z <? 4294967295)%Z then Some z else None
      else None
  end.

Section Properties.

(** The type of the values that the properties hold. *)
Variable V : Type.

(** [o.hasOwnProperty(k)] together with [o[k]]. *)
Fixpoint get (k : string) (o : list (string * V)) : option V :=
  match o with
  | [] => None
  | (k', v) :: rest => if String.eqb k k' then Some v else get k rest
  end.

(** Appending a property that is not an array index. *)
Fixpoint set_name (k : string) (v : V) (o : list (string * V)) : list (string * V) :=
  match o with
  | [] => [(k, v)]
  | (k', v') :: rest =>
      if String.eqb k k' then (k, v) :: rest else (k', v') :: set_name k v rest
  end.

(** Inserting an array-index property at its place among the index keys. *)
Fixpoint set_index (i : Z) (k : string) (v : V) (o : list (string * V))
  : list (string * V) :=
  match o with
  | [] => [(k, v)]
  | (k', v') :: rest =>
      if String.eqb k k' then (k, v) :: rest
      else match array_index k' with
           | Some j => if (i <? j)%Z then (k, v) :: o
                       else (k', v') :: set_index i k v rest
           | None => (k, v) :: o
           end
  end.

(** [o[k] = v]. *)
Definition set (k : string) (v : V) (o : list (string * V)) : list (string * V) :=
  match array_index k with
  | Some i => set_index i k v o
  | None => set_name k v o
  end.

End Properties.

Arguments get {V} k o.
Arguments set_name {V} k v o.
Arguments set_index {V} i k v o.
Arguments set {V} k v o.

End Obj.

(** ** Conversions to text *)

(** [String(v)] and [`${v}`]. *)
Fixpoint toString (v : UCLValue) : string :=
  match v with
  | VNull => "null"
  | VBool true => "true"
  | VBool false => "false"
  | VNum q => JS.number_toString q
  | VStr s => s
  | VArr l =>
      JS.join "," (map (fun e => match e with
                                 | VNull => EmptyString
                                 | _ => toString e
                                 end) l)
  | VObj _ => "[object Object]"
  end.

(** [String(x)] where [x] may be [undefined]. *)
Definition toString_opt (x : option UCLValue) : string :=
  match x with
  | Some v => toString v
  | None => "undefined"
  end.

Module JSON.

Definition hex_digit (n : nat) : ascii :=
  if (n <? 10)%nat then ascii_of_nat (48 + n) else ascii_of_nat (87 + n).

(** [QuoteJSONString]. *)
Fixpoint quote_chars (s : string) : string :=
  match s with
  | EmptyString => EmptyString
  | String c s' =>
      let n := nat_of_ascii c in
      (if (n =? 34)%nat then String JS.BACKSLASH (JS.ch JS.DQUOTE)
       else if (n =? 92)%nat then "\\"
       else if (n =? 8)%nat then "\b"
       else if (n =? 12)%nat then "\f"
       else if (n =? 10)%nat then "\n"
       else if (n =? 13)%nat then "\r"
       else if (n =? 9)%nat then "\t"
       else if (n <? 32)%nat
            then "\u00" ++ String (hex_digit (n / 16)) (String (hex_digit (n mod 16)) "")
       else JS.ch c) ++ quote_chars s'
  end.

Definition quote (s : string) : string :=
  JS.ch JS.DQUOTE ++ quote_chars s ++ JS.ch JS.DQUOTE.

(** [JSON.stringify(v)]. *)
Fixpoint stringify (v : UCLValue) : string :=
  match v with
  | VNull => "null"
  | VBool true => "true"
  | VBool false => "false"
  | VNum q => JS.number_toString q
  | VStr s => quote s
  | VArr l => "[" ++ JS.join "," (map stringify l) ++ "]"
  | VObj o =>
      "{" ++ JS.join "," (map (fun p => (quote (fst p) ++ ":" ++ stringify (snd p))%string) o)
          ++ "}"
  end.

(** *** [JSON.parse] *)

Definition is_ws (c : ascii) : bool :=
  let n := nat_of_ascii c in
  (n =? 32)%nat || (n =? 9)%nat || (n =? 10)%nat || (n =? 13)%nat.

Fixpoint skip_ws (s : string) : string :=
  match s with
  | String c s' => if is_ws c then skip_ws s' else s
  | EmptyString => EmptyString
  end.

(** Four hexadecimal digits. *)
Definition hex4 (s : string) : option (nat * string) :=
  match JS.radix_val 16 0 (JS.take 4 s) with
  | Some z => if (String.length (JS.take 4 s) =? 4)%nat
              then Some (Z.to_nat z, JS.drop 4 s) else None
  | None => None
  end.

(** The text of a code unit: ASCII as it is, the others in UTF-8. *)
Definition code_unit (n : nat) : string :=
  if (n <? 128)%nat then JS.ch (ascii_of_nat n)
  else if (n <? 2048)%nat
  then String (ascii_of_nat (192 + n / 64)) (JS.ch (ascii_of_nat (128 + n mod 64)))
  else String (ascii_of_nat (224 + n / 4096))
         (String (ascii_of_nat (128 + (n / 64) mod 64))
            (JS.ch (ascii_of_nat (128 + n mod 64)))).

(** The characters of a JSON string after its opening quote. *)
Fixpoint parse_chars (fuel : nat) (s : string) : option (string * string) :=
  match fuel with
  | O => None
  | S f =>
      match s with
      | EmptyString => None
      | String c s' =>
          let n := nat_of_ascii c in
          if (n =? 34)%nat then Some (EmptyString, s')
          else if (n <? 32)%nat then None
          else if (n =? 92)%nat then
            match s' with
            | String e s'' =>
                let unit (x : string) (rest : string) :=
                  match parse_chars f rest with
                  | Some (t, r) => Some ((x ++ t)%string, r)
                  | None => None
                  end in
                let m := nat_of_ascii e in
                if (m =? 34)%nat then unit (JS.ch JS.DQUOTE) s''
                else if (m =? 92)%nat then unit (JS.ch JS.BACKSLASH) s''
                else if (m =? 47)%nat then unit "/" s''
                else if (m =? 98)%nat then unit (JS.ch (ascii_of_nat 8)) s''
                else if (m =? 102)%nat then unit (JS.ch (ascii_of_nat 12)) s''
                else if (m =? 110)%nat then unit (JS.ch JS.LF) s''
                else if (m =? 114)%nat then unit (JS.ch JS.CR) s''
                else if (m =? 116)%nat then unit (JS.ch JS.TAB) s''
                else if (m =? 117)%nat then
                  match hex4 s'' with
                  | Some (u, r) => unit (code_unit u) r
                  | None => None
                  end
                else None
            | EmptyString => None
            end
          else match parse_chars f s' with
               | Some (t, r) => Some (String c t, r)
               | None => None
               end
      end
  end.

(** A JSON number: [-? (0 | [1-9] digits) (. digits+)? ([eE] [+-]? digits+)?],
    rounded to the nearest double.  A number beyond the doubles is
    [Infinity] in the source; a stored number has no such value, and the
    number is kept as it is written. *)
Definition parse_number (s : string) : option (Q * string) :=
  let (neg, r0) := match s with
                   | String "-" r => (true, r)
                   | _ => (false, s)
                   end in
  let (ip, r1) := JS.span_digits r0 in
  if JS.is_empty ip then None
  else if JS.startsWith ip "0" && negb (String.length ip =? 1)%nat
  then (* a leading zero ends the integer part *)
    Some (JS.num 0, JS.drop 1 r0)
  else
    let '(fp, r2, ok) :=
      match r1 with
      | String "." r =>
          let (f, r') := JS.span_digits r in (f, r', negb (JS.is_empty f))
      | _ => (EmptyString, r1, true)
      end in
    if negb ok then None
    else
      let mant := Qred (Qdiv (inject_Z (JS.digits_val 0 (ip ++ fp)))
                             (inject_Z (10 ^ Z.of_nat (String.length fp)))) in
      let '(q, r3, ok') :=
        match r2 with
        | String c r =>
            if Ascii.eqb (JS.lower_char c) "e"
            then
              let (eneg, r') := JS.split_sign r in
              let (d, r'') := JS.span_digits r' in
              if JS.is_empty d then (mant, r2, false)
              else (Qred (Qmult mant (JS.pow10 (if eneg then (- JS.digits_val 0 d)%Z
                                                else JS.digits_val 0 d))), r'', true)
            else (mant, r2, true)
        | EmptyString => (mant, r2, true)
        end in
      if ok' then
        match JS.to_double neg q with
        | JS.Finite x => Some (x, r3)
        | _ => Some (JS.apply_sign neg q, r3)
        end
      else None.

(** One JSON value and the text after it.  Fuel bounds the nesting and the
    number of elements: the length of the text is enough. *)
Fixpoint parse_value (fuel : nat) (s : string) : option (UCLValue * string) :=
  match fuel with
  | O => None
  | S f =>
      let s := skip_ws s in
      match s with
      | String "{" r =>
          match skip_ws r with
          | String "}" r' => Some (VObj [], r')
          | _ => match parse_members f r [] with
                 | Some (o, r') => Some (VObj o, r')
                 | None => None
                 end
          end
      | String "[" r =>
          match skip_ws r with
          | String "]" r' => Some (VArr [], r')
          | _ => match parse_elements f r with
                 | Some (l, r') => Some (VArr l, r')
                 | None => None
                 end
          end
      | String c r =>
          if (nat_of_ascii c =? 34)%nat then
            match parse_chars (S (String.length r)) r with
            | Some (t, r') => Some (VStr t, r')
            | None => None
            end
          else if JS.startsWith s "true" then Some (VBool true, JS.drop 4 s)
          else if JS.startsWith s "false" then Some (VBool false, JS.drop 5 s)
          else if JS.startsWith s "null" then Some (VNull, JS.drop 4 s)
          else match parse_number s with
               | Some (q, r') => Some (VNum q, r')
               | None => None
               end
      | EmptyString => None
      end
  end

with parse_elements (fuel : nat) (s : string) : option (list UCLValue * string) :=
  match fuel with
  | O => None
  | S f =>
      match parse_value f s with
      | Some (v, r) =>
          match skip_ws r with
          | String "," r' =>
              match parse_elements f r' with
              | Some (l, r'') => Some (v :: l, r'')
              | None => None
              end
          | String "]" r' => Some ([v], r')
          | _ => None
          end
      | None => None
      end
  end

with parse_members (fuel : nat) (s : string) (acc : UCLObject)
  : option (UCLObject * string) :=
  match fuel with
  | O => None
  | S f =>
      match skip_ws s with
      | String c r =>
          if (nat_of_ascii c =? 34)%nat then
            match parse_chars (S (String.length r)) r with
            | Some (k, r1) =>
                match skip_ws r1 with
                | String ":" r2 =>
                    match parse_value f r2 with
                    | Some (v, r3) =>
                        let acc' := Obj.set k v acc in
                        match skip_ws r3 with
                        | String "," r4 => parse_members f r4 acc'
                        | String "}" r4 => Some (acc', r4)
                        | _ => None
                        end
                    | None => None
                    end
                | _ => None
                end
            | None => None
            end
          else None
      | EmptyString => None
      end
  end.

(** [JSON.parse(s)]: [None] when it throws its [SyntaxError]. *)
Definition parse (s : string) : option UCLValue :=
  match parse_value (S (String.length s)) s with
  | Some (v, r) => if JS.is_empty (skip_ws r) then Some v else None
  | None => None
  end.

End JSON.

(* ================================================================== *)
(** * The engine *)
(* ================================================================== *)

(** The repository holds the engine twice: [parser.ts] is one file,
    [ucl-parser.ts] delegates to the modules under [utils/].  The two differ
    in three places ([isSimpleLiteral], [isVariableReference],
    [_resolveOperand]); everything else is shared text. *)
Inductive Engine : Type :=
| Monolith   (* src/libs/typescript/src/parser.ts *)
| Modular.   (* src/libs/typescript/src/ucl-parser.ts and utils/ *)

(** What the engine reads from its process: [process.env], and the files
    that [include] may name (keyed by the path written in the directive,
    which the source resolves against [basePath]). *)
Record Host : Type := {
  envVars : string -> option string;
  readFile : string -> option string
}.

Definition no_host : Host :=
  {| envVars := fun _ => None; readFile := fun _ => None |}.

(** The fields of [UCLParser] that a parse session mutates. *)
Record State : Type := {
  config : UCLObject;
  currentSection : list string;
  defaults : UCLObject
}.

Definition initial_state : State :=
  {| config := []; currentSection := []; defaults := [] |}.

Definition is_quote (c : ascii) : bool :=
  Ascii.eqb c JS.DQUOTE || Ascii.eqb c JS.SQUOTE.

Definition dq : string := JS.ch JS.DQUOTE.
Definition sq : string := JS.ch JS.SQUOTE.

(** A line or a value is quoted when it starts and ends with the same kind
    of quote. *)
Definition quoted (s : string) : bool :=
  (JS.startsWith s dq && JS.endsWith s dq) || (JS.startsWith s sq && JS.endsWith s sq).

(** ** utils/string-parser.ts *)

Definition escapeSequences (c : ascii) : option ascii :=
  if Ascii.eqb c "n" then Some JS.LF
  else if Ascii.eqb c "t" then Some JS.TAB
  else if Ascii.eqb c "r" then Some JS.CR
  else if Ascii.eqb c JS.BACKSLASH then Some JS.BACKSLASH
  else if Ascii.eqb c JS.DQUOTE then Some JS.DQUOTE
  else if Ascii.eqb c JS.SQUOTE then Some JS.SQUOTE
  else None.

(** [parseString(s)]: the escape sequences of a string literal. *)
Fixpoint parseString (s : string) : string :=
  match s with
  | EmptyString => EmptyString
  | String c s' =>
      if Ascii.eqb c JS.BACKSLASH then
        match s' with
        | String e s'' =>
            match escapeSequences e with
            | Some x => String x (parseString s'')
            | None => String c (parseString s')
            end
        | EmptyString => String c EmptyString
        end
      else String c (parseString s')
  end.

(** [content.replace(/\/\*.*?\*\//gs, "")]: every [/*] that has a [*/] after
    it is removed up to the first such [*/]. *)
Fixpoint strip_block (inside : bool) (s : string) : string :=
  match s with
  | EmptyString => EmptyString
  | String c s' =>
      if inside then
        match s' with
        | String d s'' =>
            if Ascii.eqb c "*" && Ascii.eqb d "/" then strip_block false s''
            else strip_block true s'
        | EmptyString => EmptyString
        end
      else
        match s' with
        | String d s'' =>
            if Ascii.eqb c "/" && Ascii.eqb d "*" && JS.includes s'' "*/"
            then strip_block true s''
            else String c (strip_block false s')
        | EmptyString => String c EmptyString
        end
  end.

(** The scan of one line for [//] outside quotes. *)
Fixpoint strip_line (inString : bool) (quoteChar prev : ascii) (line : string)
  : string :=
  match line with
  | EmptyString => EmptyString
  | String c rest =>
      if negb inString && is_quote c
      then String c (strip_line true c c rest)
      else if inString && Ascii.eqb c quoteChar && negb (Ascii.eqb prev JS.BACKSLASH)
      then String c (strip_line false quoteChar c rest)
      else if negb inString && Ascii.eqb c "/" && JS.startsWith rest "/"
      then EmptyString
      else String c (strip_line inString quoteChar c rest)
  end.

(** [removeComments(content)]. *)
Definition removeComments (content : string) : string :=
  let content := strip_block false content in
  let lines := JS.split JS.LF content in
  JS.join (JS.ch JS.LF) (map (strip_line false "000" "000") lines).

(** ** utils/expression-evaluator.ts *)

Definition operators : list string := ["+"; "-"; "*"; "/"; "%"].

Definition is_operator_char (c : ascii) : bool := JS.mem (JS.ch c) operators.

(** [if (currentToken.trim() !== "") { tokens.push(currentToken.trim());
    currentToken = ""; }]: the token in progress and the tokens after it. *)
Definition flush (currentToken : string) (tokens : list string) : string * list string :=
  if JS.is_empty (JS.trim currentToken) then (currentToken, tokens)
  else (EmptyString, tokens ++ [JS.trim currentToken])%list.

(** The loop of [tokenizeExpression]. *)
Fixpoint tokenize_loop (expr : string) (prev : ascii) (currentToken : string)
  (inString : bool) (quoteChar : ascii) (tokens : list string) : list string :=
  match expr with
  | EmptyString => snd (flush currentToken tokens)
  | String c rest =>
      if negb inString && is_quote c
      then tokenize_loop rest c (JS.ch c) true c (snd (flush currentToken tokens))
      else if inString && Ascii.eqb c quoteChar
      then if Ascii.eqb prev JS.BACKSLASH
           then tokenize_loop rest c (currentToken ++ JS.ch c) true quoteChar tokens
           else tokenize_loop rest c EmptyString false quoteChar
                  (tokens ++ [(currentToken ++ JS.ch c)%string])
      else if inString
      then tokenize_loop rest c (currentToken ++ JS.ch c) true quoteChar tokens
      else if is_operator_char c || Ascii.eqb c "(" || Ascii.eqb c ")"
      then tokenize_loop rest c (fst (flush currentToken tokens)) false quoteChar
             (snd (flush currentToken tokens) ++ [JS.ch c])
      else if JS.is_space c
      then tokenize_loop rest c (fst (flush currentToken tokens)) false quoteChar
             (snd (flush currentToken tokens))
      else tokenize_loop rest c (currentToken ++ JS.ch c) false quoteChar tokens
  end.

Definition tokenizeExpression (expr : string) : list string :=
  tokenize_loop expr "000" EmptyString false "000" [].

Definition isOperator (token : string) : bool := JS.mem token operators.

Definition toNumber (value : UCLValue) : Result Q :=
  let fail := Throw (UCLTypeError ("Cannot convert '" ++ toString value ++ "' to number")) in
  match value with
  | VNum q => Ok q
  | VStr s => match JS.finite (JS.Number s) with
              | Some q => Ok q
              | None => fail
              end
  | VNull => Ok (JS.num 0)
  | _ => fail
  end.

(** [containsOperators(valueStr)]: an operator outside quotes. *)
Fixpoint containsOperators_loop (s : string) (prev : ascii) (inString : bool)
  (quoteChar : ascii) : bool :=
  match s with
  | EmptyString => false
  | String c rest =>
      if negb inString && is_quote c
      then containsOperators_loop rest c true c
      else if inString && Ascii.eqb c quoteChar && negb (Ascii.eqb prev JS.BACKSLASH)
      then containsOperators_loop rest c false quoteChar
      else if negb inString && is_operator_char c
      then true
      else containsOperators_loop rest c inString quoteChar
  end.

Definition containsOperators (valueStr : string) : bool :=
  containsOperators_loop valueStr "000" false "000".

(** ** utils/type-converter.ts *)

Definition convertType (value : UCLValue) (targetType : string) : Result UCLValue :=
  if String.eqb targetType "int" then
    let fail := Throw (UCLTypeError ("Cannot convert '" ++ toString value ++ "' to int")) in
    match value with
    | VNum q => Ok (VNum (JS.Math_floor q))
    | VStr s => match JS.finite (JS.Number s) with
                | Some q => Ok (VNum (JS.Math_floor q))
                | None => fail
                end
    | VNull => Ok (VNum (JS.num 0))
    | _ => fail
    end
  else if String.eqb targetType "float" then
    let fail := Throw (UCLTypeError ("Cannot convert '" ++ toString value ++ "' to float")) in
    match value with
    | VNum q => Ok (VNum q)
    | VStr s => match JS.finite (JS.Number s) with
                | Some q => Ok (VNum q)
                | None => fail
                end
    | VNull => Ok (VNum (JS.num 0))
    | _ => fail
    end
  else if String.eqb targetType "string" then
    match value with
    | VBool b => Ok (VStr (JS.toLowerCase (toString value)))
    | VNull => Ok (VStr "null")
    | _ => Ok (VStr (toString value))
    end
  else if String.eqb targetType "bool" then
    match value with
    | VBool b => Ok (VBool b)
    | VNum q => Ok (VBool (negb (JS.num_is_zero q)))
    | VStr s =>
        let lowerVal := JS.toLowerCase s in
        if JS.mem lowerVal ["true"; "yes"; "1"] then Ok (VBool true)
        else if JS.mem lowerVal ["false"; "no"; "0"] then Ok (VBool false)
        else Throw (UCLTypeError ("Cannot convert string '" ++ s ++ "' to bool"))
    | VNull => Ok (VBool false)
    | _ => Throw (UCLTypeError ("Cannot convert '" ++ toString value ++ "' to bool"))
    end
  else Throw (UCLTypeError ("Unknown target type: " ++ targetType)).

(** ** utils/value-parser.ts *)

(** [_containsOperators] of value-parser.ts: an operator-like character
    anywhere between the first and the last character. *)
Definition literal_operators : list string :=
  ["+"; "-"; "*"; "/"; "%"; "="; ">"; "<"; "&"; "|"; "^"; "~"; "!"; "?"; ":"].

Definition literal_containsOperators (valueStr : string) : bool :=
  let inner := JS.strip_ends valueStr in
  existsb (fun op => JS.includes inner op) literal_operators.

(** [/^-?\d+(\.\d+)?$/.test(s)]. *)
Definition numeric_literal (s : string) : bool :=
  let r0 := match s with String "-" r => r | _ => s end in
  let (ip, r1) := JS.span_digits r0 in
  negb (JS.is_empty ip) &&
  match r1 with
  | EmptyString => true
  | String "." r2 =>
      let (fp, r3) := JS.span_digits r2 in
      negb (JS.is_empty fp) && JS.is_empty r3
  | _ => false
  end.

Definition bracketed (s : string) : bool :=
  JS.startsWith s "[" && JS.endsWith s "]".

Definition braced (s : string) : bool :=
  JS.startsWith s "{" && JS.endsWith s "}".

Definition isSimpleLiteral (E : Engine) (valueStr : string) : bool :=
  let valueStr := JS.trim valueStr in
  if quoted valueStr then
    match E with
    | Monolith => negb (containsOperators valueStr)
    | Modular => negb (literal_containsOperators valueStr)
    end
  else if bracketed valueStr || braced valueStr then
    match JSON.parse valueStr with Some _ => true | None => false end
  else if JS.mem (JS.toLowerCase valueStr) ["true"; "false"; "null"] then true
  else if numeric_literal valueStr then
    match JS.parseFloat valueStr, JS.finite (JS.Number valueStr) with
    | JS.NaN, _ => false
    | _, Some _ => true
    | _, None => false
    end
  else false.

(** ** utils/reference-resolver.ts *)

Definition is_id_start (c : ascii) : bool :=
  JS.is_upper c || JS.is_lower c || Ascii.eqb c "_" || Ascii.eqb c "$".

Definition is_id_char (c : ascii) : bool := is_id_start c || JS.is_digit c.

(** The states of the automaton of the pattern of [isVariableReference]:
    an identifier, then any number of [.identifier], then any number of
    bracketed accessors, each a quoted text (single or double quotes) or a
    run of digits, with optional whitespace inside the brackets. *)
Inductive RefState : Type :=
| RStart | RIdent | RDot | ROpen | RSingle | RDouble | RDigits | RClose | RDone.

Fixpoint ref_match (st : RefState) (s : string) : bool :=
  match s with
  | EmptyString => match st with RIdent | RDone => true | _ => false end
  | String c r =>
      match st with
      | RStart | RDot => is_id_start c && ref_match RIdent r
      | RIdent =>
          if is_id_char c then ref_match RIdent r
          else if Ascii.eqb c "." then ref_match RDot r
          else if Ascii.eqb c "[" then ref_match ROpen r
          else false
      | ROpen =>
          if JS.is_space c then ref_match ROpen r
          else if Ascii.eqb c JS.SQUOTE then ref_match RSingle r
          else if Ascii.eqb c JS.DQUOTE then ref_match RDouble r
          else if JS.is_digit c then ref_match RDigits r
          else false
      | RSingle => if Ascii.eqb c JS.SQUOTE then ref_match RClose r else ref_match RSingle r
      | RDouble => if Ascii.eqb c JS.DQUOTE then ref_match RClose r else ref_match RDouble r
      | RDigits =>
          if JS.is_digit c then ref_match RDigits r
          else if JS.is_space c then ref_match RClose r
          else if Ascii.eqb c "]" then ref_match RDone r
          else false
      | RClose =>
          if JS.is_space c then ref_match RClose r
          else if Ascii.eqb c "]" then ref_match RDone r
          else false
      | RDone => if Ascii.eqb c "[" then ref_match ROpen r else false
      end
  end.

(** [isVariableReference]: parser.ts first excludes the simple literals,
    reference-resolver.ts tests the pattern alone. *)
Definition isVariableReference (E : Engine) (valueStr : string) : bool :=
  match E with
  | Monolith => if isSimpleLiteral Monolith valueStr then false
                else ref_match RStart valueStr
  | Modular => ref_match RStart valueStr
  end.

(** [o.hasOwnProperty] is read on the object [o] itself: a property of [o]
    named [hasOwnProperty] stands before the method of [Object.prototype].
    No value of a Document is a function, so the call then raises the
    runtime's TypeError. *)
Definition shadowed (o : UCLObject) : bool :=
  match Obj.get "hasOwnProperty" o with
  | Some _ => true
  | None => false
  end.

(** The TypeError of such a call.  Its message is the runtime's own and
    differs between runtimes: this is the wording of V8, and the theorems
    state the kind of the error, not its message. *)
Definition not_a_function (callee : string) : Err :=
  NativeTypeError (callee ++ ".hasOwnProperty is not a function").

(** The test [typeof current === "object" && current !== null &&
    !Array.isArray(current) && current.hasOwnProperty(part)] followed by
    [current[part]]: the property when the test holds, [None] when it does
    not, the TypeError when [hasOwnProperty] is not the method. *)
Definition own_property (callee : string) (current : UCLValue) (part : string)
  : Result (option UCLValue) :=
  match current with
  | VObj o => if shadowed o then Throw (not_a_function callee) else Ok (Obj.get part o)
  | _ => Ok None
  end.

(** A loop of the [try] block of the relative attempt: whatever is thrown
    inside, by the source or by the runtime, ends in the empty [catch]. *)
Fixpoint try_walk (tempCurrent : UCLValue) (parts : list string) : option UCLValue :=
  match parts with
  | [] => Some tempCurrent
  | part :: rest =>
      match own_property "tempCurrent" tempCurrent part with
      | Ok (Some nextValue) => try_walk nextValue rest
      | _ => None
      end
  end.

(** The [try] block of the relative attempt: the section path first, then
    the parts of the reference. *)
Definition relative_lookup (config : UCLObject) (currentSection parts : list string)
  : option UCLValue :=
  match try_walk (VObj config) currentSection with
  | Some tempCurrent => try_walk tempCurrent parts
  | None => None
  end.

(** The loop of [resolveSimpleReference] over the parts still to follow. *)
Fixpoint resolveSimple_loop (ref : string) (config : UCLObject)
  (currentSection parts : list string) (current : UCLValue) (todo : list string)
  : Result UCLValue :=
  match todo with
  | [] => Ok current
  | part :: rest =>
      found <- own_property "current" current part ;;
      match found with
      | Some resolvedValue =>
          resolveSimple_loop ref config currentSection parts resolvedValue rest
      | None =>
          let fail := Throw (UCLReferenceError ("Cannot resolve reference: " ++ ref)) in
          if (0 <? List.length currentSection)%nat then
            match relative_lookup config currentSection parts with
            | Some tempCurrent => Ok tempCurrent
            | None => fail
            end
          else fail
      end
  end.

Definition resolveSimpleReference (ref : string) (config : UCLObject)
  (currentSection : list string) : Result UCLValue :=
  let parts := JS.split "." ref in
  resolveSimple_loop ref config currentSection parts (VObj config) parts.

Fixpoint span (p : ascii -> bool) (s : string) : string * string :=
  match s with
  | EmptyString => (EmptyString, EmptyString)
  | String c r => if p c then let (a, b) := span p r in (String c a, b)
                  else (EmptyString, s)
  end.

Definition name_char (c : ascii) : bool :=
  negb (Ascii.eqb c "[" || Ascii.eqb c ".").

(** [ref.match(/([^[.]+)|(\.[^[.]+)|(\[[^\]]+\])/g)]: the successive matches;
    a character at which no alternative matches is skipped. *)
Fixpoint ref_parts (fuel : nat) (s : string) : list string :=
  match fuel with
  | O => []
  | S f =>
      match s with
      | EmptyString => []
      | String c r =>
          if Ascii.eqb c "[" then
            let (run, r') := span (fun x => negb (Ascii.eqb x "]")) r in
            match r' with
            | String _ r'' =>
                if JS.is_empty run then ref_parts f r
                else ("[" ++ run ++ "]")%string :: ref_parts f r''
            | EmptyString => ref_parts f r
            end
          else if Ascii.eqb c "." then
            let (run, r') := span name_char r in
            if JS.is_empty run then ref_parts f r
            else ("." ++ run)%string :: ref_parts f r'
          else
            let (run, r') := span name_char s in
            run :: ref_parts f r'
      end
  end.

(** [part.replace(/^\./, "")]. *)
Definition drop_dot (part : string) : string :=
  match part with String "." r => r | _ => part end.

(** The [replace] of the accessor: a quote character at its start and one at
    its end are removed. *)
Definition drop_quotes (accessor : string) : string :=
  let a := match accessor with
           | String c r => if is_quote c then r else accessor
           | EmptyString => accessor
           end in
  match JS.reverse a with
  | String c r => if is_quote c then JS.reverse r else a
  | EmptyString => a
  end.

Definition JSNumber_toString (n : JS.JSNumber) : string :=
  match n with
  | JS.NaN => "NaN"
  | JS.Infinity true => "-Infinity"
  | JS.Infinity false => "Infinity"
  | JS.Finite q => JS.number_toString q
  end.

(** The body of the loop of [resolveComplexReference] for a bracketed part. *)
Definition accessor_step (ref part : string) (current : UCLValue) : Result UCLValue :=
  let accessor := JS.trim (JS.strip_ends part) in
  let shown := " in '" ++ ref ++ "' (current value: " ++ JSON.stringify current ++ ")" in
  let by_key :=
    let key := drop_quotes accessor in
    match current with
    | VObj o =>
        if shadowed o then Throw (not_a_function "current")
        else match Obj.get key o with
             | Some v => Ok v
             | None => Throw (UCLReferenceError
                         ("Object key not found: '" ++ key ++ "'" ++ shown))
             end
    | _ => Throw (UCLReferenceError
             ("Attempted to access key on a non-object value with key '" ++ key ++ "'" ++ shown))
    end in
  match current with
  | VArr _ | VObj _ =>
      let numIndex := JS.Number accessor in
      match numIndex with
      | JS.NaN => by_key
      | _ =>
          if String.eqb (JSNumber_toString numIndex) accessor then
            match current with
            | VArr l =>
                match numIndex with
                | JS.Finite q =>
                    if (0 <=? Qnum q)%Z && Qle_bool q (JS.num (Z.of_nat (List.length l)))
                         && negb (JS.num_eqb q (JS.num (Z.of_nat (List.length l))))
                    then
                      match (if (Zpos (Qden (Qred q)) =? 1)%Z
                             then nth_error l (Z.to_nat (Qnum (Qred q))) else None) with
                      | Some v => Ok v
                      | None => Throw (UCLReferenceError
                                  ("Array index " ++ JSNumber_toString numIndex
                                     ++ " resolved to undefined in '" ++ ref ++ "'"))
                      end
                    else Throw (UCLReferenceError
                           ("Array index out of bounds: " ++ JSNumber_toString numIndex
                              ++ " in '" ++ ref ++ "'"))
                | _ => Throw (UCLReferenceError
                         ("Array index out of bounds: " ++ JSNumber_toString numIndex
                            ++ " in '" ++ ref ++ "'"))
                end
            | _ => Throw (UCLReferenceError
                     ("Attempted to index a non-array value with index "
                        ++ JSNumber_toString numIndex ++ shown))
            end
          else by_key
      end
  | _ => Throw (UCLReferenceError
           ("Attempted to access property on non-object/non-array value: '" ++ part ++ "'" ++ shown))
  end.

(** The body of the loop for a name part after the base. *)
Definition name_step (ref part : string) (current : UCLValue) : Result UCLValue :=
  match current with
  | VObj o =>
      let key := drop_dot part in
      if shadowed o then Throw (not_a_function "current")
      else match Obj.get key o with
           | Some v => Ok v
           | None => Throw (UCLReferenceError
                       ("Object key not found: '" ++ key ++ "' in reference part '" ++ part
                          ++ "' of '" ++ ref ++ "'"))
           end
  | _ => Throw (UCLReferenceError
           ("Attempted to access key on a non-object value: '" ++ part ++ "' in '" ++ ref
              ++ "' (current value: " ++ JSON.stringify current ++ ")"))
  end.

Fixpoint resolveComplex_loop (resolveReference : string -> Result UCLValue)
  (ref : string) (refParts : list string) (current : UCLValue) (baseRefHandled : bool)
  : Result UCLValue :=
  match refParts with
  | [] => Ok current
  | part :: rest =>
      if negb (JS.startsWith part "[") then
        if negb baseRefHandled then
          v <- resolveReference (drop_dot part) ;;
          resolveComplex_loop resolveReference ref rest v true
        else
          v <- name_step ref part current ;;
          resolveComplex_loop resolveReference ref rest v baseRefHandled
      else
        v <- accessor_step ref part current ;;
        resolveComplex_loop resolveReference ref rest v baseRefHandled
  end.

Definition resolveComplexReference (resolveReference : string -> Result UCLValue)
  (ref : string) : Result UCLValue :=
  match ref_parts (S (String.length ref)) ref with
  | [] => Throw (UCLSyntaxError ("Invalid complex reference format: " ++ ref))
  | refParts => resolveComplex_loop resolveReference ref refParts VNull false
  end.

(** [_resolveReference]: the recursion through the base of a complex
    reference is bounded by fuel. *)
Fixpoint resolveReference (fuel : nat) (st : State) (ref : string) : Result UCLValue :=
  match fuel with
  | O => OutOfFuel
  | S f =>
      if JS.includes ref "[" || JS.includes ref "]"
      then resolveComplexReference (resolveReference f st) ref
      else resolveSimpleReference ref (config st) (currentSection st)
  end.

(** ** Arrays and simple values *)

(** [content.replace(/\s*\n\s*/g, " ")]: a run of whitespace that holds a
    line feed becomes one space. *)
Fixpoint join_lines (s pending : string) (hasLF : bool) : string :=
  match s with
  | EmptyString => if hasLF then " " else pending
  | String c r =>
      if JS.is_space c
      then join_lines r (pending ++ JS.ch c) (hasLF || Ascii.eqb c JS.LF)
      else (if hasLF then " " else pending) ++ String c (join_lines r EmptyString false)
  end.

Section Values.

(** [parseValue]: the callback of [parseArray] and [parseSimpleValue]. *)
Variable parseValue : string -> Result UCLValue.

Definition push_element (currentElement : string) (elements : list UCLValue)
  : Result (list UCLValue) :=
  if JS.is_empty (JS.trim currentElement) then Ok elements
  else v <- parseValue (JS.trim currentElement) ;; Ok (elements ++ [v])%list.

(** The loop of [parseArray] over the characters of the content. *)
Fixpoint parseArray_loop (s : string) (prev : ascii) (currentElement : string)
  (bracketCount braceCount : Z) (inString : bool) (quoteChar : ascii)
  (elements : list UCLValue) : Result (list UCLValue) :=
  match s with
  | EmptyString => push_element currentElement elements
  | String c r =>
      let keep := (currentElement ++ JS.ch c)%string in
      if negb inString && is_quote c
      then parseArray_loop r c keep bracketCount braceCount true c elements
      else if inString && Ascii.eqb c quoteChar
      then if Ascii.eqb prev JS.BACKSLASH
           then parseArray_loop r c keep bracketCount braceCount true quoteChar elements
           else parseArray_loop r c keep bracketCount braceCount false quoteChar elements
      else if negb inString
      then
        if Ascii.eqb c "["
        then parseArray_loop r c keep (bracketCount + 1) braceCount inString quoteChar elements
        else if Ascii.eqb c "]"
        then parseArray_loop r c keep (bracketCount - 1) braceCount inString quoteChar elements
        else if Ascii.eqb c "{"
        then parseArray_loop r c keep bracketCount (braceCount + 1) inString quoteChar elements
        else if Ascii.eqb c "}"
        then parseArray_loop r c keep bracketCount (braceCount - 1) inString quoteChar elements
        else if Ascii.eqb c "," && (bracketCount =? 0)%Z && (braceCount =? 0)%Z
        then
          elements' <- push_element currentElement elements ;;
          parseArray_loop r c EmptyString bracketCount braceCount inString quoteChar elements'
        else parseArray_loop r c keep bracketCount braceCount inString quoteChar elements
      else parseArray_loop r c keep bracketCount braceCount inString quoteChar elements
  end.

Definition parseArray (arrayStr : string) : Result UCLValue :=
  let content := JS.trim (JS.strip_ends arrayStr) in
  if JS.is_empty content then Ok (VArr [])
  else
    let cleanedContent := join_lines content EmptyString false in
    elements <- parseArray_loop cleanedContent "000" EmptyString 0 0 false "000" [] ;;
    Ok (VArr elements).

(** [parseSimpleValue].  The text of the runtime's [SyntaxError] is not
    modelled: the message keeps its place. *)
Definition parseSimpleValue (valueStr : string) : Result UCLValue :=
  let valueStr := JS.trim valueStr in
  if String.eqb (JS.toLowerCase valueStr) "null" then Ok VNull
  else if JS.mem (JS.toLowerCase valueStr) ["true"; "false"]
  then Ok (VBool (String.eqb (JS.toLowerCase valueStr) "true"))
  else if quoted valueStr then Ok (VStr (parseString (JS.strip_ends valueStr)))
  else if bracketed valueStr then parseArray valueStr
  else if braced valueStr then
    match JSON.parse valueStr with
    | Some v => Ok v
    | None => Throw (UCLSyntaxError
                ("Invalid JSON object: " ++ "SyntaxError" ++ " in '" ++ valueStr ++ "'"))
    end
  else match JS.finite (JS.Number valueStr) with
       | Some q => Ok (VNum q)
       | None => Ok (VStr valueStr)
       end.

End Values.

(** ** Expressions *)

(** [/^\$ENV\{([^}]+)\}$/]: the name between the braces. *)
Definition env_match (s : string) : option string :=
  if JS.startsWith s "$ENV{" && JS.endsWith s "}" then
    let name := JS.substring 5 (String.length s - 1) s in
    if (6 <? String.length s)%nat && negb (JS.includes name "}") then Some name else None
  else None.

(** [this.envVars[name] ?? null] for the names that the environment holds,
    as texts, and for those that neither it nor [Object.prototype] holds:
    [envVars] is a plain object, so a member of [Object.prototype] that the
    environment does not hold is read from the prototype, and is no
    [UCLValue]. *)
Definition env_value (h : Host) (name : string) : UCLValue :=
  match envVars h name with
  | Some v => VStr v
  | None => VNull
  end.

Definition is_string (x : option UCLValue) : bool :=
  match x with Some (VStr _) => true | _ => false end.

(** [token === op] for a token that is a value. *)
Definition is_token (op : string) (token : UCLValue) : bool :=
  match token with VStr s => String.eqb s op | _ => false end.

Definition multiplicative (token : UCLValue) : bool :=
  is_token "*" token || is_token "/" token || is_token "%" token.

Definition additive (token : UCLValue) : bool :=
  is_token "+" token || is_token "-" token.

(** Pass 2 of [_evaluateSimpleExpression].  [processed] is [processedTokens]
    with its last element first. *)
Fixpoint mul_div_pass (processed : list UCLValue) (tokens : list UCLValue)
  : Result (list UCLValue) :=
  match tokens with
  | [] => Ok (rev processed)
  | token :: rest =>
      if multiplicative token then
        match processed with
        | [] => Throw (UCLSyntaxError
                  ("Missing left operand for operator '" ++ toString token ++ "'"))
        | leftToken :: processed' =>
            left <- toNumber leftToken ;;
            match rest with
            | [] => Throw (UCLSyntaxError
                      ("Missing right operand for operator '" ++ toString token ++ "'"))
            | rightToken :: rest' =>
                right <- toNumber rightToken ;;
                if is_token "*" token
                then mul_div_pass (VNum (JS.num_mul left right) :: processed') rest'
                else if is_token "/" token
                then if JS.num_is_zero right
                     then Throw (UCLTypeError "Division by zero")
                     else mul_div_pass (VNum (JS.num_div left right) :: processed') rest'
                else if JS.num_is_zero right
                     then Throw (UCLTypeError "Modulo by zero")
                     else mul_div_pass (VNum (JS.num_rem left right) :: processed') rest'
            end
        end
      else mul_div_pass (token :: processed) rest
  end.

(** The body of pass 3 for one operator: [left] and [right] may be
    [undefined]. *)
Definition add_sub (token : UCLValue) (left right : option UCLValue) : Result UCLValue :=
  if is_token "+" token then
    if is_string left || is_string right
    then Ok (VStr (toString_opt left ++ toString_opt right))
    else match left, right with
         | Some l, Some r =>
             a <- toNumber l ;; b <- toNumber r ;; Ok (VNum (JS.num_add a b))
         | _, _ => Throw (UCLTypeError "Operand is undefined in addition")
         end
  else
    match left, right with
    | Some l, Some r =>
        a <- toNumber l ;; b <- toNumber r ;; Ok (VNum (JS.num_sub a b))
    | _, _ => Throw (UCLTypeError "Operand is undefined in subtraction")
    end.

(** Pass 3 of [_evaluateSimpleExpression]. *)
Fixpoint add_sub_pass (processed : list UCLValue) (tokens : list UCLValue)
  : Result (list UCLValue) :=
  match tokens with
  | [] => Ok (rev processed)
  | token :: rest =>
      if additive token then
        let left := hd_error processed in
        let processed' := tl processed in
        match rest with
        | [] => result <- add_sub token left None ;; Ok (rev (result :: processed'))
        | rightToken :: rest' =>
            result <- add_sub token left (Some rightToken) ;;
            add_sub_pass (result :: processed') rest'
        end
      else add_sub_pass (token :: processed) rest
  end.

(** Pass 1: every token that is not an operator is resolved, in order. *)
Fixpoint resolve_tokens (resolveOperand : string -> Result UCLValue)
  (rawTokens : list string) : Result (list UCLValue) :=
  match rawTokens with
  | [] => Ok []
  | rawToken :: rest =>
      v <- (if isOperator rawToken then Ok (VStr rawToken) else resolveOperand rawToken) ;;
      vs <- resolve_tokens resolveOperand rest ;;
      Ok (v :: vs)
  end.

(** Passes 2 and 3 and the choice of the result. *)
Definition evaluate_tokens (evaluatedTokens : list UCLValue) : Result UCLValue :=
  evaluatedTokens <- mul_div_pass [] evaluatedTokens ;;
  evaluatedTokens <- add_sub_pass [] evaluatedTokens ;;
  Ok (match evaluatedTokens with
      | v :: _ => v
      | [] => VNull
      end).

Definition evaluateSimpleExpression (resolveOperand : string -> Result UCLValue)
  (expr : string) : Result UCLValue :=
  evaluatedTokens <- resolve_tokens resolveOperand (tokenizeExpression expr) ;;
  evaluate_tokens evaluatedTokens.

(** The [for] loop that looks for the closing parenthesis from [start]. *)
Fixpoint find_end (s : string) (i : nat) (openCount : Z) : option nat :=
  match s with
  | EmptyString => None
  | String c r =>
      let openCount := if Ascii.eqb c "(" then (openCount + 1)%Z
                       else if Ascii.eqb c ")" then (openCount - 1)%Z
                       else openCount in
      if (openCount =? 0)%Z && Ascii.eqb c ")" then Some i
      else find_end r (S i) openCount
  end.

(** [_evaluateExpression]: the [while] loop need not terminate, one unit of
    fuel is one iteration. *)
Fixpoint evaluateExpression (fuel : nat) (evaluateSimple : string -> Result UCLValue)
  (expr : string) : Result UCLValue :=
  match fuel with
  | O => OutOfFuel
  | S f =>
      if JS.includes expr "(" then
        match JS.lastIndexOf expr "(" with
        | None => evaluateSimple expr
        | Some start =>
            match find_end (JS.drop start expr) start 0 with
            | None => Throw (UCLSyntaxError
                        ("Mismatched parentheses in expression: " ++ expr))
            | Some end_ =>
                let innerExpr := JS.substring (start + 1) end_ expr in
                result <- evaluateSimple innerExpr ;;
                evaluateExpression f evaluateSimple
                  (JS.substring 0 start expr ++ toString result ++ JS.drop (end_ + 1) expr)
            end
        end
      else evaluateSimple expr
  end.

(** ** [_parseValue] and [_resolveOperand] *)

Definition type_suffixes : list string := ["int"; "float"; "string"; "bool"].

(** The test of step 2 of [_parseValue]: the base text and the target type. *)
Definition conversion_suffix (E : Engine) (valueStr : string) : option (string * string) :=
  if JS.includes valueStr "." && negb (isSimpleLiteral E valueStr) then
    let parts := JS.split "." valueStr in
    if (1 <? List.length parts)%nat then
      let typeSuffix := last parts EmptyString in
      let baseValueStr := JS.join "." (removelast parts) in
      if JS.mem (JS.toLowerCase typeSuffix) type_suffixes
      then Some (baseValueStr, JS.toLowerCase typeSuffix)
      else None
    else None
  else None.

Definition resolveOperand (E : Engine) (h : Host) (st : State)
  (parseValue : string -> Result UCLValue) (fuel : nat) (operandStr : string)
  : Result UCLValue :=
  let operandStr := JS.trim operandStr in
  if JS.is_empty operandStr then Ok VNull
  else if quoted operandStr then
    Ok (VStr match E with
             | Monolith => parseString (JS.strip_ends operandStr)
             | Modular => JS.strip_ends operandStr
             end)
  else match env_match operandStr with
       | Some envVar => Ok (env_value h envVar)
       | None =>
           if isVariableReference E operandStr
           then resolveReference fuel st operandStr
           else parseSimpleValue parseValue operandStr
       end.

Fixpoint parseValue (E : Engine) (h : Host) (st : State) (fuel : nat)
  (valueStr : string) {struct fuel} : Result UCLValue :=
  match fuel with
  | O => OutOfFuel
  | S f =>
      let valueStr := JS.trim valueStr in
      if JS.is_empty valueStr then Ok VNull
      else match env_match valueStr with
      | Some envVar => Ok (env_value h envVar)
      | None =>
          match conversion_suffix E valueStr with
          | Some (baseValueStr, targetType) =>
              baseValue <- parseValue E h st f baseValueStr ;;
              convertType baseValue targetType
          | None =>
              if containsOperators valueStr && negb (isSimpleLiteral E valueStr)
              then evaluateExpression f
                     (evaluateSimpleExpression
                        (resolveOperand E h st (parseValue E h st f) f))
                     valueStr
              else if negb (isSimpleLiteral E valueStr) && isVariableReference E valueStr
              then resolveReference f st valueStr
              else parseSimpleValue (parseValue E h st f) valueStr
          end
      end
  end.

(** ** The document: nested reads and writes *)

(** The loop shared by [_setNestedValue] and [_setNestedValueByPath]: every
    part but the last is followed, and replaced by a fresh object when it is
    absent or not a plain object; the last part receives the value. *)
Fixpoint set_path (parts : list string) (value : UCLValue) (current : UCLObject)
  : UCLObject :=
  match parts with
  | [] => current
  | [lastKey] => Obj.set lastKey value current
  | part :: rest =>
      let next := match Obj.get part current with
                  | Some (VObj o) => o
                  | _ => []
                  end in
      Obj.set part (VObj (set_path rest value next)) current
  end.

(** [_setNestedValue(key, value)]. *)
Definition setNestedValue (st : State) (key : string) (value : UCLValue) : State :=
  {| config := set_path (currentSection st ++ [key]) value (config st);
     currentSection := currentSection st;
     defaults := defaults st |}.

(** [_setNestedValueByPath(path, value)]. *)
Definition setNestedValueByPath (path : string) (value : UCLValue) (config : UCLObject)
  : UCLObject :=
  set_path (JS.split "." path) value config.

Fixpoint getNested_loop (path : string) (current : UCLValue) (parts : list string)
  : Result UCLValue :=
  match parts with
  | [] => Ok current
  | part :: rest =>
      found <- own_property "current" current part ;;
      match found with
      | Some resolvedValue => getNested_loop path resolvedValue rest
      | None => Throw (UCLReferenceError ("Path not found: " ++ path))
      end
  end.

(** [_getNestedValue(path)]. *)
Definition getNestedValue (config : UCLObject) (path : string) : Result UCLValue :=
  getNested_loop path (VObj config) (JS.split "." path).

(** The body of the loop of [_applyDefaults] for one entry of the table. *)
Definition applyDefault (config : UCLObject) (entry : string * UCLValue)
  : Result UCLObject :=
  let (path, defaultValue) := entry in
  match getNestedValue config path with
  | Ok currentValue =>
      match currentValue with
      | VNull => Ok (setNestedValueByPath path defaultValue config)
      | _ => Ok config
      end
  | Throw e =>
      match e with
      | UCLReferenceError _ => Ok (setNestedValueByPath path defaultValue config)
      | _ => Throw e
      end
  | OutOfFuel => OutOfFuel
  end.

(** The loop of [_applyDefaults()] over the entries of [table] still to
    take, in the enumeration order of the table; every turn starts with
    [this.defaults.hasOwnProperty(path)], which holds of every entry when the
    method is the one of [Object.prototype]. *)
Fixpoint applyDefaults_loop (table : UCLObject) (config : UCLObject) (entries : UCLObject)
  : Result UCLObject :=
  match entries with
  | [] => Ok config
  | entry :: rest =>
      if shadowed table then Throw (not_a_function "this.defaults")
      else
        config' <- applyDefault config entry ;;
        applyDefaults_loop table config' rest
  end.

Definition applyDefaults (st : State) : Result State :=
  config' <- applyDefaults_loop (defaults st) (config st) (defaults st) ;;
  Ok {| config := config'; currentSection := currentSection st; defaults := defaults st |}.

(** ** Lines *)

(** The loop of [_splitKeyValue]: the first [=] outside quotes. *)
Fixpoint splitKeyValue_loop (s : string) (prev : ascii) (inString : bool)
  (quoteChar : ascii) (before : string) : option (string * string) :=
  match s with
  | EmptyString => None
  | String c r =>
      if negb inString && is_quote c
      then splitKeyValue_loop r c true c (before ++ JS.ch c)
      else if inString && Ascii.eqb c quoteChar && negb (Ascii.eqb prev JS.BACKSLASH)
      then splitKeyValue_loop r c false quoteChar (before ++ JS.ch c)
      else if negb inString && Ascii.eqb c "="
      then Some (JS.trim before, JS.trim r)
      else splitKeyValue_loop r c inString quoteChar (before ++ JS.ch c)
  end.

Definition splitKeyValue (line : string) : Result (string * string) :=
  match splitKeyValue_loop line "000" false "000" EmptyString with
  | Some kv => Ok kv
  | None => Throw (UCLSyntaxError ("Invalid key-value syntax: " ++ line))
  end.

(** The [while] loop of [_parseMultilineValue]: the text gathered and the
    number of following lines consumed. *)
Fixpoint multiline_loop (opening closing : ascii) (following : list string)
  (valueStr : string) (count : Z) (consumed : nat) : string * nat :=
  match following with
  | [] => (valueStr, consumed)
  | l :: rest =>
      if (0 <? count)%Z then
        let line := JS.trim l in
        if JS.is_empty line
        then multiline_loop opening closing rest valueStr count (S consumed)
        else multiline_loop opening closing rest
               (valueStr ++ JS.ch JS.LF ++ line)
               (count + Z.of_nat (JS.count_char opening line)
                      - Z.of_nat (JS.count_char closing line))%Z
               (S consumed)
      else (valueStr, consumed)
  end.

Definition parseMultilineValue (following : list string) (initialValue : string)
  : string * nat :=
  let valueStr := JS.trim initialValue in
  let start (o c : ascii) :=
    multiline_loop o c following valueStr
      (Z.of_nat (JS.count_char o valueStr) - Z.of_nat (JS.count_char c valueStr))%Z 0 in
  if JS.startsWith valueStr "{" then start "{"%char "}"%char
  else if JS.startsWith valueStr "[" then start "["%char "]"%char
  else (initialValue, 0).

(** The characters of the test in [_parseKeyValue] that excuse a line
    without equals sign: brackets, braces, comma and the two quotes. *)
Definition structural_char (c : ascii) : bool :=
  Ascii.eqb c "[" || Ascii.eqb c "]" || Ascii.eqb c "{" || Ascii.eqb c "}"
  || Ascii.eqb c "," || is_quote c.

Section Lines.

Variable E : Engine.
Variable h : Host.
(** Fuel handed to every evaluation of a value. *)
Variable fuel : nat.

(** [_parseKeyValue] on the trimmed line at [startIdx] and the lines after
    it: the new state and how many of the following lines were consumed. *)
Definition parseKeyValue (st : State) (line : string) (following : list string)
  : Result (State * nat) :=
  if negb (JS.includes line "=") then
    if negb (JS.is_empty line) && negb (JS.startsWith line "[")
         && negb (JS.endsWith line "]") && negb (JS.mem line ["{"; "}"])
         && negb (existsb structural_char (list_ascii_of_string line))
    then Throw (UCLSyntaxError ("Invalid syntax: line without equals sign: " ++ line))
    else Ok (st, 0)
  else
    kv <- splitKeyValue line ;;
    let (key, valuePart) := kv in
    if JS.startsWith (JS.trim valuePart) "{" || JS.startsWith (JS.trim valuePart) "["
    then
      let (valueStr, consumed) := parseMultilineValue following valuePart in
      value <- parseValue E h st fuel valueStr ;;
      Ok (setNestedValue st key value, consumed)
    else
      value <- parseValue E h st fuel valuePart ;;
      Ok (setNestedValue st key value, 0)%nat.

(** [_parseDefaultsSection] on the lines after the [Defaults] header. *)
Fixpoint parseDefaultsSection (st : State) (lines : list string) : Result State :=
  match lines with
  | [] => Ok st
  | l :: rest =>
      let line := JS.trim l in
      if JS.is_empty line then parseDefaultsSection st rest
      else if bracketed line
      then Throw (UCLSyntaxError "Defaults section must be at the end of the file")
      else if JS.includes line "=" then
        kv <- splitKeyValue line ;;
        value <- parseValue E h st fuel (snd kv) ;;
        parseDefaultsSection
          {| config := config st;
             currentSection := currentSection st;
             defaults := Obj.set (fst kv) value (defaults st) |} rest
      else parseDefaultsSection st rest
  end.

(** [_parseLines]: [skip] counts the lines that the last key-value line
    consumed as the continuation of its value. *)
Fixpoint parseLines_loop (st : State) (skip : nat) (lines : list string) : Result State :=
  match lines with
  | [] => Ok st
  | l :: rest =>
      match skip with
      | S k => parseLines_loop st k rest
      | O =>
          let line := JS.trim l in
          if JS.is_empty line then parseLines_loop st 0 rest
          else if bracketed line then
            let sectionName := JS.trim (JS.strip_ends line) in
            if String.eqb (JS.toLowerCase sectionName) "defaults"
            then parseDefaultsSection st rest
            else parseLines_loop
                   {| config := config st;
                      currentSection := JS.split "." sectionName;
                      defaults := defaults st |} 0 rest
          else
            r <- parseKeyValue st line rest ;;
            parseLines_loop (fst r) (snd r) rest
      end
  end.

Definition parseLines (st : State) (lines : list string) : Result State :=
  parseLines_loop st 0 lines.

(** The pattern of an include directive: [include], whitespace, a quote,
    a path without quotes, a quote, and nothing after it. *)
Definition include_match (trimmedLine : string) : option string :=
  if JS.startsWith trimmedLine "include" then
    let (ws, r) := span JS.is_space (JS.drop 7 trimmedLine) in
    match r with
    | String c r' =>
        let (path, r'') := span (fun x => negb (is_quote x)) r' in
        match r'' with
        | String c' EmptyString =>
            if negb (JS.is_empty ws) && is_quote c && negb (JS.is_empty path) && is_quote c'
            then Some path else None
        | _ => None
        end
    | EmptyString => None
    end
  else None.

(** [_processIncludes]: an included file may include again, without bound. *)
Fixpoint processIncludes (depth : nat) (lines : list string) : Result (list string) :=
  match depth with
  | O => OutOfFuel
  | S d =>
      (fix each (lines : list string) : Result (list string) :=
         match lines with
         | [] => Ok []
         | line :: rest =>
             let trimmedLine := JS.trim line in
             if JS.startsWith trimmedLine "include " then
               match include_match trimmedLine with
               | Some includePath =>
                   match readFile h includePath with
                   | Some includeContent =>
                       included <- processIncludes d
                                     (JS.split JS.LF (removeComments includeContent)) ;;
                       processed <- each rest ;;
                       Ok (included ++ processed)%list
                   | None => Throw (UCLError ("Include file not found: " ++ includePath))
                   end
               | None => Throw (UCLSyntaxError ("Invalid include syntax: " ++ line))
               end
             else processed <- each rest ;; Ok (line :: processed)
         end) lines
  end.

(** [parseString(content)]. *)
Definition parseUclString (content : string) : Result UCLObject :=
  let content := removeComments content in
  let lines := JS.split JS.LF content in
  lines <- processIncludes fuel lines ;;
  st <- parseLines initial_state lines ;;
  st <- applyDefaults st ;;
  Ok (config st).

End Lines.

(* ================================================================== *)
(** * The Document as a store of shared objects *)
(* ================================================================== *)

(** [_resolveReference] returns the object it finds and [_setNestedValue]
    stores what it is given: after [b = a], with [a] an object, the paths [a]
    and [b] hold one object, and a later write below one of them shows below
    the other.  The engine above is exact as long as no write goes below a
    path that was filled by a reference.  This module gives the reads and
    writes of the Document on a store, where an object is a location and
    several paths may lead to it: for the writes themselves and for the
    pass that applies the defaults after the Document is assembled. *)
Module Shared.

Definition loc : Type := nat.

Inductive SValue : Type :=
| SNull
| SBool (b : bool)
| SNum (q : Q)
| SStr (s : string)
| SArr (l : list SValue)
| SRef (l : loc).

Definition SObject : Type := list (string * SValue).

(** The object at location [l] is the element [l] of the store. *)
Definition Store : Type := list SObject.

Definition object_at (st : Store) (l : loc) : SObject := nth l st [].

(** Every location that a property holds is a location of the store. *)
Definition closed (st : Store) : Prop :=
  forall l k l', Obj.get k (object_at st l) = Some (SRef l') -> l' < List.length st.

(** The property [part] of [current] when it is an object that has one.
    This is the test of the source where [hasOwnProperty] is the method of
    [Object.prototype]: in a store none of whose objects has a property of
    that name. *)
Definition child (st : Store) (current : SValue) (part : string) : option SValue :=
  match current with
  | SRef l => Obj.get part (object_at st l)
  | _ => None
  end.

(** The loop of [_getNestedValue]. *)
Fixpoint walk (st : Store) (current : SValue) (parts : list string) : option SValue :=
  match parts with
  | [] => Some current
  | part :: rest =>
      match child st current part with
      | Some v => walk st v rest
      | None => None
      end
  end.

(** [current[k] = v] for the object at [l]. *)
Fixpoint assign_at (l : loc) (k : string) (v : SValue) (st : Store) : Store :=
  match st, l with
  | [], _ => []
  | o :: rest, O => Obj.set k v o :: rest
  | o :: rest, S l' => o :: assign_at l' k v rest
  end.

(** The loop of [_setNestedValueByPath]: [current[part] = {}] puts a new
    object at the end of the store. *)
Fixpoint set_path (parts : list string) (value : SValue) (current : loc) (st : Store)
  : Store :=
  match parts with
  | [] => st
  | [lastKey] => assign_at current lastKey value st
  | part :: rest =>
      match Obj.get part (object_at st current) with
      | Some (SRef next) => set_path rest value next st
      | _ =>
          let next := List.length st in
          set_path rest value next (assign_at current part (SRef next) st ++ [[]])%list
      end
  end.

Definition path_value (st : Store) (root : loc) (path : string) : option SValue :=
  walk st (SRef root) (JS.split "." path).

(** The body of the loop of [_applyDefaults] in such a store: the Reference
    error of [_getNestedValue] is the case [None]. *)
Definition applyDefault (root : loc) (st : Store) (entry : string * SValue) : Store :=
  let (path, defaultValue) := entry in
  match path_value st root path with
  | None | Some SNull => set_path (JS.split "." path) defaultValue root st
  | Some _ => st
  end.

(** [_applyDefaults()] on the entries of the table, in order. *)
Fixpoint applyDefaults_loop (root : loc) (st : Store) (entries : list (string * SValue))
  : Store :=
  match entries with
  | [] => st
  | entry :: rest => applyDefaults_loop root (applyDefault root st entry) rest
  end.

(** A value that can be stored: an object it names is in the store. *)
Definition value_ok (st : Store) (v : SValue) : Prop :=
  match v with SRef l => l < List.length st | _ => True end.

(** Two paths to one object: [a] is an object, [b] was assigned [a]. *)
Definition aliased : Store := [[("a", SRef 1); ("b", SRef 1)]; [("x", SNull)]].

End Shared.

(* ================================================================== *)
(** * The vocabulary of the specification *)
(* ================================================================== *)

(** A mapping key followed in a value: the property [part] of a mapping. *)
Definition child (current : UCLValue) (part : string) : option UCLValue :=
  match current with
  | VObj o => Obj.get part o
  | _ => None
  end.

(** The walk of the specification: each segment followed as a mapping key. *)
Fixpoint walk (current : UCLValue) (parts : list string) : option UCLValue :=
  match parts with
  | [] => Some current
  | part :: rest =>
      match child current part with
      | Some v => walk v rest
      | None => None
      end
  end.

(** The Document value at a dotted path; [None] when the path does not exist. *)
Definition path_value (config : UCLObject) (path : string) : option UCLValue :=
  walk (VObj config) (JS.split "." path).

(** The number of lines of a text. *)
Definition count_lines (text : string) : nat := List.length (JS.split JS.LF text).

(** Section 4.5b of the specification, in its words: the absolute walk, then
    the section path followed by the reference, then the Reference error that
    names the reference. *)
Definition resolve_spec (config : UCLObject) (sectionPath : list string) (ref : string)
  : Result UCLValue :=
  let segments := JS.split "." ref in
  match walk (VObj config) segments with
  | Some v => Ok v
  | None =>
      match walk (VObj config) (sectionPath ++ segments)%list with
      | Some v => Ok v
      | None => Throw (UCLReferenceError ("Cannot resolve reference: " ++ ref))
      end
  end.

(** The line feeds inside the block comments that are removed: those between
    a [/*] that has a [*/] after it and the first such [*/]. *)
Fixpoint comment_breaks (inside : bool) (s : string) : nat :=
  match s with
  | EmptyString => 0
  | String c s' =>
      if inside then
        match s' with
        | String d s'' =>
            if Ascii.eqb c "*" && Ascii.eqb d "/" then comment_breaks false s''
            else (if Ascii.eqb c JS.LF then 1 else 0) + comment_breaks true s'
        | EmptyString => if Ascii.eqb c JS.LF then 1 else 0
        end
      else
        match s' with
        | String d s'' =>
            if Ascii.eqb c "/" && Ascii.eqb d "*" && JS.includes s'' "*/"
            then comment_breaks true s''
            else comment_breaks false s'
        | EmptyString => 0
        end
  end.



(** A number that an IEEE double holds exactly: a numerator below [2^53] in
    absolute value over a power of two that is at most [2^1074].  The source
    computes [+], [-], [*] and [/] as the exact result rounded to the nearest
    double: where the exact result is such a number, it is the result of the
    source. *)
Definition double (q : Q) : Prop :=
  exists (m : Z) (k : nat),
    (Z.abs m < 2 ^ 53)%Z /\ (k <= 1074)%nat /\
    (q == inject_Z m / inject_Z (2 ^ Z.of_nat k))%Q.

(** A value on which [String(v)] returns: an object with a property
    [toString] of its own, which no Document makes a function, has the
    runtime raise its TypeError instead, also from inside an array. *)
Fixpoint printable (v : UCLValue) : bool :=
  match v with
  | VArr l => forallb printable l
  | VObj o => match Obj.get "toString" o with Some _ => false | None => true end
  | _ => true
  end.



Definition defaults_error : Err :=
  UCLSyntaxError "Defaults section must be at the end of the file".

(** A line that [_parseLines] reads as the header of the defaults block. *)
Definition defaults_header (l : string) : bool :=
  bracketed (JS.trim l)
  && String.eqb (JS.toLowerCase (JS.trim (JS.strip_ends (JS.trim l)))) "defaults".

(** A line that is a section header: text enclosed in brackets. *)
Definition section_header (l : string) : bool := bracketed (JS.trim l).

(** ** The inputs of the examples *)

Definition text (lines : list string) : string := JS.join (JS.ch JS.LF) lines.

Definition quote (s : string) : string := dq ++ s ++ dq.



Definition two_line_comment : string := text ["a/*"; "*/b"].

(** A block comment on one line, an opener that is never closed, and an
    opener inside a quoted text. *)
Definition one_line_comments : string :=
  text ["a = 1 /* one */"; "/* two */ b = 2"; "c = 3 /* open"; "d = " ++ quote "/*"].

Definition complex_expression : string := "(5 + 3) * 2 / (10 - 6) % 3".

Definition closing_only : string := "1 + 2)".

Definition defaults_then_section : string :=
  text ["[A]"; "x = 1"; "[Defaults]"; "A.y = 2"; "[B]"; "z = 3"].

(** The defaults example of section 8 of the specification. *)
Definition defaults_example : string :=
  text ["[Config]";
        "existing_key = " ++ quote "existing_value";
        "null_key = null";
        "[Defaults]";
        "Config.existing_key = " ++ quote "default_value";
        "Config.null_key = " ++ quote "default_for_null";
        "Config.new_key = " ++ quote "new_default_value"].

Definition defaults_example_result : UCLObject :=
  [("Config", VObj [("existing_key", VStr "existing_value");
                    ("null_key", VStr "default_for_null");
                    ("new_key", VStr "new_default_value")])].

Definition database_state : State :=
  {| config := [("Database", VObj [("host", VStr "localhost")])];
     currentSection := ["Database"];
     defaults := [] |}.

(** An operand with an escape sequence: [x = "a\n" + "b"]. *)
Definition escape_in_operand : string :=
  "x = " ++ quote "a\n" ++ " + " ++ quote "b".

(** A keyword as an operand: [x = null + 1]. *)
Definition keyword_operand : string := "x = null + 1".

(** A text with no parenthesis. *)
Definition paren_free (s : string) : Prop :=
  JS.count_char "(" s = 0 /\ JS.count_char ")" s = 0.

(** A token list in which no [*], [/] or [%] is left. *)
Definition no_multiplicative (tokens : list UCLValue) : bool :=
  forallb (fun token => negb (multiplicative token)) tokens.

(** ** The vocabulary of the further properties *)

(** A text with no whitespace character. *)
Definition no_space (s : string) : bool :=
  forallb (fun c => negb (JS.is_space c)) (list_ascii_of_string s).

(** A text that neither starts nor ends with whitespace. *)
Definition tight (s : string) : bool :=
  match s with
  | EmptyString => true
  | String c _ => negb (JS.is_space c)
  end &&
  match JS.reverse s with
  | EmptyString => true
  | String c _ => negb (JS.is_space c)
  end.

(** The text without its whitespace characters. *)
Fixpoint remove_spaces (s : string) : string :=
  match s with
  | EmptyString => EmptyString
  | String c r => if JS.is_space c then remove_spaces r else String c (remove_spaces r)
  end.

(** The last character of a text. *)
Definition last_char (s : string) : option ascii :=
  match JS.reverse s with
  | EmptyString => None
  | String c _ => Some c
  end.

(** [typeof] of a value against the target of a conversion. *)
Definition has_type (targetType : string) (v : UCLValue) : bool :=
  match v with
  | VNum _ => String.eqb targetType "int" || String.eqb targetType "float"
  | VStr _ => String.eqb targetType "string"
  | VBool _ => String.eqb targetType "bool"
  | _ => false
  end.

(** A line that [_processIncludes] takes for a directive. *)
Definition include_line (line : string) : bool :=
  JS.startsWith (JS.trim line) "include ".

(** The directive that names [path]. *)
Definition include_directive (path : string) : string := "include " ++ quote path.

(** A path that the pattern of the directive accepts: not empty, no quote. *)
Definition include_path (path : string) : Prop :=
  JS.is_empty path = false /\
  JS.count_char JS.DQUOTE path = 0 /\ JS.count_char JS.SQUOTE path = 0.

(** A host where the file [path] holds the text [content]. *)
Definition host_with (path content : string) : Host :=
  {| envVars := fun _ => None;
     readFile := fun p => if String.eqb p path then Some content else None |}.

(** The literal made of [body] between two quote characters [q]. *)
Definition literal (q : ascii) (body : string) : string :=
  String q (body ++ JS.ch q).


(** An integer that the numbers of the source, IEEE doubles, hold exactly:
    at most [Number.MAX_SAFE_INTEGER] in absolute value. *)
Definition safe_integer (z : Z) : Prop := (Z.abs z <= 9007199254740991)%Z.

(** A quotient that a double holds exactly: in lowest terms its denominator
    is a power of two. *)
Definition binary_fraction (a b : nat) : Prop :=
  exists k : nat, (Z.of_nat b | Z.of_nat a * 2 ^ Z.of_nat k)%Z.

(** A text made of decimal digits only. *)
Definition all_digits (s : string) : bool :=
  forallb JS.is_digit (list_ascii_of_string s).

(** A name with no dot and no bracket: the base of a reference. *)
Definition plain_name (s : string) : Prop :=
  JS.is_empty s = false /\
  JS.count_char "[" s = 0 /\ JS.count_char "]" s = 0 /\ JS.count_char "." s = 0.

(** The reference to the element or property [inner] of [base]. *)
Definition bracket_ref (base inner : string) : string :=
  base ++ "[" ++ inner ++ "]".

(** A Document with an array and an object. *)
Definition items_state : State :=
  {| config := [("items", VArr [VStr "a"; VStr "b"]);
                ("server", VObj [("port", VNum (JS.num 80))])];
     currentSection := [];
     defaults := [] |}.

(** A character that opens or closes a string, an array or an object. *)
Definition nesting_char (c : ascii) : bool :=
  is_quote c || Ascii.eqb c "[" || Ascii.eqb c "]" || Ascii.eqb c "{" || Ascii.eqb c "}".

(** A text with no nesting and no line feed. *)
Definition flat (s : string) : bool :=
  forallb (fun c => negb (nesting_char c) && negb (Ascii.eqb c JS.LF))
          (list_ascii_of_string s).

(** Each piece trimmed and handed to [parseValue] in order, the blank pieces
    left out. *)
Fixpoint parse_each (parseValue : string -> Result UCLValue) (pieces : list string)
  : Result (list UCLValue) :=
  match pieces with
  | [] => Ok []
  | piece :: rest =>
      if JS.is_empty (JS.trim piece) then parse_each parseValue rest
      else v <- parseValue (JS.trim piece) ;;
           vs <- parse_each parseValue rest ;;
           Ok (v :: vs)
  end.

(** The lines of a document that the line loop takes one at a time: a
    section header and an assignment of a one-line value. *)
Inductive Item : Type :=
| Header (name : string)
| Assign (key value : string).

(** The line of an item as it is written. *)
Definition render (i : Item) : string :=
  match i with
  | Header name => "[" ++ name ++ "]"
  | Assign key value => key ++ " = " ++ value
  end.

(** A key as it is written: not empty, no whitespace around it, no equals
    sign, no quote, no opening bracket at its start. *)
Definition plain_key (key : string) : Prop :=
  JS.is_empty key = false /\ tight key = true /\
  JS.count_char "=" key = 0 /\
  JS.count_char JS.DQUOTE key = 0 /\ JS.count_char JS.SQUOTE key = 0 /\
  JS.startsWith key "[" = false.

(** The text of a value that stays on its line: not empty, no whitespace
    around it, no opening brace or bracket at its start. *)
Definition one_line_value (value : string) : Prop :=
  JS.is_empty value = false /\ tight value = true /\
  JS.startsWith value "{" = false /\ JS.startsWith value "[" = false.

(** An item whose line reads back as that item: a header that is not the
    header of the defaults block, an assignment of a plain key. *)
Definition well_formed (i : Item) : Prop :=
  match i with
  | Header name =>
      tight name = true /\ String.eqb (JS.toLowerCase name) "defaults" = false
  | Assign key value => plain_key key /\ one_line_value value
  end.

(** What the items do to the state of the parser, in order. *)
Fixpoint run (E : Engine) (h : Host) (fuel : nat) (st : State) (items : list Item)
  : Result State :=
  match items with
  | [] => Ok st
  | Header name :: rest =>
      run E h fuel
        {| config := config st;
           currentSection := JS.split "." name;
           defaults := defaults st |} rest
  | Assign key value :: rest =>
      v <- parseValue E h st fuel value ;;
      run E h fuel (setNestedValue st key v) rest
  end.

(** A text made of letters only, in either case. *)
Definition letters (s : string) : bool :=
  forallb (fun c => JS.is_lower (JS.lower_char c)) (list_ascii_of_string s).

(** A text made of the characters of a dotted name: letters, digits,
    underscore, dollar sign and dot. *)
Definition name_chars (s : string) : bool :=
  forallb (fun c => is_id_char c || Ascii.eqb c ".") (list_ascii_of_string s).

(** A line of the document: it holds no line feed and is not taken for an
    include directive. *)
Definition document_line (line : string) : Prop :=
  JS.count_char JS.LF line = 0 /\ include_line line = false.

(** The text of an operand: digits, after a minus sign or not. *)
Definition signed (negative : bool) (digits : string) : string :=
  (if negative then "-" else "") ++ digits.

(** The text of two operands around an operator, a space on each side. *)
Definition binary (left : string) (op : ascii) (right : string) : string :=
  left ++ " " ++ String op (" " ++ right).

(** The decimal text of a natural number. *)
Definition natural (n : nat) : string := JS.Z_to_string (Z.of_nat n).

(** The token of a minus sign, when there is one. *)
Definition minus_token (negative : bool) : list UCLValue :=
  if negative then [VStr "-"] else [].

(** The text [rest] after a backslash and the character [e]. *)
Definition escaped (e : ascii) (rest : string) : string :=
  String JS.BACKSLASH (String e rest).

(** A text written as the body of a literal: each backslash is doubled. *)
Fixpoint written (t : string) : string :=
  match t with
  | EmptyString => EmptyString
  | String c r =>
      if Ascii.eqb c JS.BACKSLASH then escaped JS.BACKSLASH (written r)
      else String c (written r)
  end.

(** ** Where the embedding is exact *)

(** The walk of [parts] from [current] calls [hasOwnProperty] only where it
    is the method of [Object.prototype]: no object that the walk goes
    through has a property of that name of its own. *)
Fixpoint callable (current : UCLValue) (parts : list string) : bool :=
  match parts with
  | [] => true
  | part :: rest =>
      match current with
      | VObj o =>
          negb (shadowed o) &&
          match Obj.get part o with
          | Some v => callable v rest
          | None => true
          end
      | _ => true
      end
  end.

(** The parts of a path that a write takes for properties of the objects on
    its way: an assignment to [__proto__] goes to the prototype of the
    object instead, which the property lists do not hold. *)
Definition own_names (parts : list string) : bool :=
  forallb (fun part => negb (String.eqb part "__proto__")) parts.

(** Parts none of which is [hasOwnProperty] or [__proto__]: a write along
    them makes no property [hasOwnProperty] and none at [__proto__]. *)
Definition plain_parts (parts : list string) : bool :=
  forallb (fun part => negb (String.eqb part "hasOwnProperty")
                       && negb (String.eqb part "__proto__")) parts.

Definition plain_path (path : string) : bool := plain_parts (JS.split "." path).


(** A store in which no object has a property named [hasOwnProperty]. *)
Definition callable_store (st : Shared.Store) : Prop :=
  forall l, Obj.get "hasOwnProperty" (Shared.object_at st l) = None.

(** The objects that [Shared.set_path] goes through, in order, those that it
    creates included. *)
Fixpoint trail (parts : list string) (current : Shared.loc) (st : Shared.Store)
  : list Shared.loc :=
  match parts with
  | [] => []
  | [lastKey] => [current]
  | part :: rest =>
      current ::
      match Obj.get part (Shared.object_at st current) with
      | Some (Shared.SRef next) => trail rest next st
      | _ => trail rest (List.length st)
               (Shared.assign_at current part (Shared.SRef (List.length st)) st ++ [[]])%list
      end
  end.

(** The properties that [Shared.set_path] assigns: the part at which it
    creates an object, in the object where it stands, and the last key in
    the object where it arrives. *)
Fixpoint assigned (parts : list string) (current : Shared.loc) (st : Shared.Store)
  : list (Shared.loc * string) :=
  match parts with
  | [] => []
  | [lastKey] => [(current, lastKey)]
  | part :: rest =>
      match Obj.get part (Shared.object_at st current) with
      | Some (Shared.SRef next) => assigned rest next st
      | _ => (current, part) ::
             assigned rest (List.length st)
               (Shared.assign_at current part (Shared.SRef (List.length st)) st ++ [[]])%list
      end
  end.

(** The properties that the walk of [parts] from [current] reads. *)
Fixpoint visited (st : Shared.Store) (current : Shared.SValue) (parts : list string)
  : list (Shared.loc * string) :=
  match parts with
  | [] => []
  | part :: rest =>
      match current with
      | Shared.SRef l =>
          (l, part) ::
          match Obj.get part (Shared.object_at st l) with
          | Some v => visited st v rest
          | None => []
          end
      | _ => []
      end
  end.

(** A Document with a key named [hasOwnProperty] beside the key [x]. *)
Definition shadowing_state (currentSection : list string) : State :=
  {| config := [("hasOwnProperty", VNum (JS.num 1)); ("x", VNum (JS.num 2))];
     currentSection := currentSection;
     defaults := [] |}.

Definition shadowing_document : string := text ["hasOwnProperty = 1"; "x = 2"; "y = x"].

(** A defaults block with an entry named [hasOwnProperty]. *)
Definition shadowing_defaults : string := text ["[Defaults]"; "hasOwnProperty = 1"].

(** An integer of at most [Number.MAX_SAFE_INTEGER] in absolute value, as a
    stored number: [String] prints it as the decimal text of the integer. *)
Definition integral (q : Q) : bool :=
  (Zpos (Qden q) =? 1)%Z && (Z.abs (Qnum q) <=? 9007199254740991)%Z.

(** A number whose text [String] gives digit for digit as the embedding
    does: an integer of at most [Number.MAX_SAFE_INTEGER] in absolute value,
    or a number below [10^9] in absolute value whose denominator divides 64.
    The decimal expansion of the latter ends within six digits after the
    point, so it has at most fifteen digits in all, and fifteen digits are
    few enough for the shortest text that reads back as the double to be
    that expansion. *)
Definition decimal_text (q : Q) : bool :=
  integral q
  || ((64 mod Zpos (Qden q) =? 0)%Z
      && (Z.abs (Qnum q) <? 1000000000 * Zpos (Qden q))%Z).

(** A value whose text [String(v)] is the text that [toString] gives: it is
    printable and its numbers print as their decimal text. *)
Fixpoint exact_text (v : UCLValue) : bool :=
  match v with
  | VNum q => decimal_text q
  | VArr l => forallb exact_text l
  | VObj o => match Obj.get "toString" o with Some _ => false | None => true end
  | _ => true
  end.


(** A value that holds no object, at any depth. *)
Fixpoint object_free (v : UCLValue) : bool :=
  match v with
  | VObj _ => false
  | VArr l => forallb object_free l
  | _ => true
  end.

(** The items store no object and write at no [__proto__]: a reference to
    an object hands over the object itself, not a copy, and a write below
    one of the paths that hold it then shows below the others; a write at
    [__proto__] goes to the prototype.  Without them the Document is the
    tree that the writes build. *)
Fixpoint plain_writes (E : Engine) (h : Host) (fuel : nat) (st : State) (items : list Item)
  : Prop :=
  match items with
  | [] => True
  | Header name :: rest =>
      plain_writes E h fuel
        {| config := config st;
           currentSection := JS.split "." name;
           defaults := defaults st |} rest
  | Assign key value :: rest =>
      own_names (currentSection st ++ [key]) = true /\
      match parseValue E h st fuel value with
      | Ok v => object_free v = true /\ plain_writes E h fuel (setNestedValue st key v) rest
      | _ => True
      end
  end.

(** Closes a goal [throws k (Throw e)] or [is_error (Throw e)]. *)
Ltac raises := first [ eexists; split; reflexivity | eexists; reflexivity ].

(* ================================================================== *)
(** * Results and errors *)
(* ================================================================== *)

Lemma throws_intro : forall (A : Type) (e : Err), @throws A (kind e) (Throw e).
Proof. intros. exists e. split; reflexivity. Qed.

Lemma throws_bind : forall (A B : Type) (k : ErrKind) (r : Result A) (f : A -> Result B),
  throws k r -> throws k (bind r f).
Proof. intros A B k r f [e [-> He]]. exists e. split; [reflexivity|exact He]. Qed.

Lemma throws_is_error : forall (A : Type) (k : ErrKind) (r : Result A),
  throws k r -> is_error r.
Proof. intros A k r [e [-> _]]. now exists e. Qed.

Lemma toNumber_cases : forall v,
  (exists q, toNumber v = Ok q) \/ throws TypeErr (toNumber v).
Proof.
  intros v. destruct v as [|b|q|s|l|o]; cbn [toNumber].
  - left. eauto.
  - right. raises.
  - left. eauto.
  - destruct (JS.finite (JS.Number s)); [left; eauto|right; raises].
  - right. raises.
  - right. raises.
Qed.

Lemma num_is_zero_iff : forall q, JS.num_is_zero q = true <-> (q == 0)%Q.
Proof.
  intros [n d]. unfold JS.num_is_zero, Qeq. simpl. rewrite Z.eqb_eq. lia.
Qed.

Lemma mem_In : forall s l, JS.mem s l = true <-> In s l.
Proof.
  intros s l. unfold JS.mem. rewrite existsb_exists. split.
  - intros [x [Hx He]]. apply String.eqb_eq in He. now subst.
  - intros H. exists s. split; [assumption|apply String.eqb_refl].
Qed.

(* ================================================================== *)
(** * Strings *)
(* ================================================================== *)

Lemma startsWith_empty : forall s, JS.startsWith s "" = true.
Proof. destruct s; reflexivity. Qed.

Lemma split_not_nil : forall c s, JS.split c s <> [].
Proof.
  intros c s. destruct s as [|a s]; simpl.
  - discriminate.
  - destruct (Ascii.eqb a c); [discriminate|].
    destruct (JS.split c s); discriminate.
Qed.

Lemma split_length : forall c s, List.length (JS.split c s) = S (JS.count_char c s).
Proof.
  induction s as [|a s IH]; simpl; [reflexivity|].
  destruct (Ascii.eqb a c); simpl.
  - now rewrite IH.
  - destruct (JS.split c s) as [|x rest] eqn:Hs; simpl in *; lia.
Qed.

Lemma split_pieces : forall c s,
  Forall (fun piece => JS.count_char c piece = 0) (JS.split c s).
Proof.
  induction s as [|a s IH]; simpl.
  - constructor; [reflexivity|constructor].
  - destruct (Ascii.eqb a c) eqn:Hac.
    + constructor; [reflexivity|exact IH].
    + destruct (JS.split c s) as [|x rest].
      * constructor; [simpl; now rewrite Hac|constructor].
      * inversion IH; subst.
        constructor; [simpl; rewrite Hac; simpl; assumption|assumption].
Qed.

Lemma count_char_app : forall c a b,
  JS.count_char c (a ++ b) = JS.count_char c a + JS.count_char c b.
Proof.
  induction a as [|x a IH]; intros; simpl; [reflexivity|]. rewrite IH. lia.
Qed.

Lemma count_char_join : forall c ls,
  Forall (fun piece => JS.count_char c piece = 0) ls ->
  JS.count_char c (JS.join (JS.ch c) ls) = List.length ls - 1.
Proof.
  induction ls as [|x ls IH]; intros H; [reflexivity|].
  inversion H as [|? ? Hx Hls]; subst.
  destruct ls as [|y ls'].
  - simpl. exact Hx.
  - change (JS.join (JS.ch c) (x :: y :: ls'))
      with (x ++ JS.ch c ++ JS.join (JS.ch c) (y :: ls')).
    rewrite !count_char_app, Hx, (IH Hls). simpl. rewrite Ascii.eqb_refl. lia.
Qed.

Lemma indexOf_from_none : forall p s i j,
  JS.indexOf_from i s p = None -> JS.indexOf_from j s p = None.
Proof.
  induction s as [|a s IH]; intros i j; cbn [JS.indexOf_from].
  - destruct (JS.startsWith "" p); [intros H; discriminate H|reflexivity].
  - destruct (JS.startsWith (String a s) p); [intros H; discriminate H|]. apply IH.
Qed.

Lemma includes_cons_false : forall a s p,
  JS.includes (String a s) p = false ->
  JS.startsWith (String a s) p = false /\ JS.includes s p = false.
Proof.
  intros a s p. unfold JS.includes, JS.indexOf. cbn [JS.indexOf_from].
  destruct (JS.startsWith (String a s) p); [discriminate|].
  intros H. split; [reflexivity|].
  destruct (JS.indexOf_from 1 s p) eqn:H1; [discriminate|].
  now rewrite (indexOf_from_none p s 1 0 H1).
Qed.

(* ================================================================== *)
(** * The defaults pass (C1) *)
(* ================================================================== *)

Section Defaults.

Lemma get_set_name : forall (V : Type) k (v : V) o,
  Obj.get k (Obj.set_name k v o) = Some v.
Proof.
  induction o as [|[k' v'] o IH]; simpl.
  - now rewrite String.eqb_refl.
  - destruct (String.eqb k k') eqn:Hk; simpl.
    + now rewrite String.eqb_refl.
    + now rewrite Hk.
Qed.

Lemma get_set_index : forall (V : Type) i k (v : V) o,
  Obj.get k (Obj.set_index i k v o) = Some v.
Proof.
  induction o as [|[k' v'] o IH]; simpl.
  - now rewrite String.eqb_refl.
  - destruct (String.eqb k k') eqn:Hk; simpl.
    + now rewrite String.eqb_refl.
    + destruct (Obj.array_index k') as [j|].
      * destruct (i <? j)%Z; simpl.
        -- now rewrite String.eqb_refl.
        -- now rewrite Hk.
      * simpl. now rewrite String.eqb_refl.
Qed.

Lemma get_set : forall (V : Type) k (v : V) o, Obj.get k (Obj.set k v o) = Some v.
Proof.
  intros. unfold Obj.set. destruct (Obj.array_index k).
  - apply get_set_index.
  - apply get_set_name.
Qed.

Lemma walk_set_path : forall parts value o,
  parts <> [] -> walk (VObj (set_path parts value o)) parts = Some value.
Proof.
  induction parts as [|p rest IH]; intros value o Hne; [congruence|].
  destruct rest as [|p' rest'].
  - simpl. now rewrite get_set.
  - change (set_path (p :: p' :: rest') value o)
      with (Obj.set p (VObj (set_path (p' :: rest') value
              (match Obj.get p o with Some (VObj o') => o' | _ => [] end))) o).
    cbn [walk child]. rewrite get_set. apply IH. discriminate.
Qed.

Lemma own_property_callable : forall callee current part rest,
  callable current (part :: rest) = true ->
  own_property callee current part = Ok (child current part) /\
  (forall v, child current part = Some v -> callable v rest = true).
Proof.
  intros callee current part rest H. destruct current as [|b|q|s|l|o]; cbn in *;
    try (split; [reflexivity|discriminate]).
  apply andb_true_iff in H. destruct H as [Hs Hc].
  apply negb_true_iff in Hs. rewrite Hs. split; [reflexivity|].
  intros v Hv. now rewrite Hv in Hc.
Qed.

Lemma callable_app : forall a b current,
  callable current (a ++ b)%list = true ->
  callable current a = true /\
  (forall v, walk current a = Some v -> callable v b = true).
Proof.
  induction a as [|p a IH]; intros b current H.
  - split; [reflexivity|]. intros v Hv. inversion Hv; subst v. exact H.
  - cbn [app] in H. destruct current as [|x|q|s|l|o]; cbn [callable walk child] in *;
      try (split; [reflexivity|discriminate]).
    apply andb_true_iff in H. destruct H as [Hs Hc]. rewrite Hs. cbn [andb].
    destruct (Obj.get p o) as [v|]; [|split; [reflexivity|discriminate]].
    exact (IH b v Hc).
Qed.

Lemma try_walk_walk : forall parts current,
  callable current parts = true -> try_walk current parts = walk current parts.
Proof.
  induction parts as [|p rest IH]; intros current H; [reflexivity|].
  destruct (own_property_callable "tempCurrent" current p rest H) as [E Hc].
  cbn [try_walk walk]. rewrite E.
  destruct (child current p) as [v|]; [|reflexivity]. apply IH, Hc. reflexivity.
Qed.

Lemma getNested_loop_walk : forall path parts current,
  callable current parts = true ->
  getNested_loop path current parts =
  match walk current parts with
  | Some v => Ok v
  | None => Throw (UCLReferenceError ("Path not found: " ++ path))
  end.
Proof.
  induction parts as [|p rest IH]; intros current H; [reflexivity|].
  destruct (own_property_callable "current" current p rest H) as [E Hc].
  cbn [getNested_loop walk]. rewrite E. cbn [bind].
  destruct (child current p) as [v|]; [|reflexivity]. apply IH, Hc. reflexivity.
Qed.

Lemma applyDefault_writes : forall config path value,
  callable (VObj config) (JS.split "." path) = true ->
  (path_value config path = None \/ path_value config path = Some VNull) ->
  applyDefault config (path, value) = Ok (setNestedValueByPath path value config).
Proof.
  intros config path value Hc H. unfold applyDefault, getNestedValue.
  rewrite getNested_loop_walk by exact Hc. unfold path_value in H.
  destruct H as [H|H]; rewrite H; reflexivity.
Qed.

Lemma applyDefault_keeps : forall config path value v,
  callable (VObj config) (JS.split "." path) = true ->
  path_value config path = Some v -> v <> VNull ->
  applyDefault config (path, value) = Ok config.
Proof.
  intros config path value v Hc H Hv. unfold applyDefault, getNestedValue.
  rewrite getNested_loop_walk by exact Hc. unfold path_value in H. rewrite H.
  destruct v; try reflexivity. congruence.
Qed.

Lemma path_value_written : forall config path value,
  path_value (setNestedValueByPath path value config) path = Some value.
Proof.
  intros. unfold path_value, setNestedValueByPath.
  apply walk_set_path, split_not_nil.
Qed.

Lemma applyDefaults_loop_app : forall table before config after,
  shadowed table = false ->
  applyDefaults_loop table config (before ++ after)%list =
  bind (applyDefaults_loop table config before)
       (fun c => applyDefaults_loop table c after).
Proof.
  intros table before config after Ht. revert config.
  induction before as [|e before IH]; intros cfg; cbn [app applyDefaults_loop bind];
    [reflexivity|].
  rewrite Ht. destruct (applyDefault cfg e); cbn [bind]; auto.
Qed.

(** ** The pass on a store of shared objects *)

Section SetOther.

Variable V : Type.

Lemma get_set_name_other : forall k k' (v : V) o,
  k <> k' -> Obj.get k' (Obj.set_name k v o) = Obj.get k' o.
Proof.
  intros k k' v o Hne. induction o as [|[k0 v0] o IH]; simpl.
  - destruct (String.eqb k' k) eqn:H; [apply String.eqb_eq in H; congruence|reflexivity].
  - destruct (String.eqb k k0) eqn:Hk; simpl.
    + apply String.eqb_eq in Hk. subst k0.
      destruct (String.eqb k' k) eqn:H; [apply String.eqb_eq in H; congruence|reflexivity].
    + destruct (String.eqb k' k0); [reflexivity|exact IH].
Qed.

Lemma get_set_index_other : forall i k k' (v : V) o,
  k <> k' -> Obj.get k' (Obj.set_index i k v o) = Obj.get k' o.
Proof.
  intros i k k' v o Hne.
  assert (Hk' : String.eqb k' k = false).
  { destruct (String.eqb k' k) eqn:H; [apply String.eqb_eq in H; congruence|reflexivity]. }
  induction o as [|[k0 v0] o IH]; simpl.
  - now rewrite Hk'.
  - destruct (String.eqb k k0) eqn:Hk; simpl.
    + apply String.eqb_eq in Hk. subst k0. now rewrite Hk'.
    + destruct (Obj.array_index k0) as [j|].
      * destruct (i <? j)%Z; simpl.
        -- now rewrite Hk'.
        -- destruct (String.eqb k' k0); [reflexivity|exact IH].
      * simpl. now rewrite Hk'.
Qed.

Lemma get_set_other : forall k k' (v : V) o,
  k <> k' -> Obj.get k' (Obj.set k v o) = Obj.get k' o.
Proof.
  intros. unfold Obj.set. destruct (Obj.array_index k).
  - now apply get_set_index_other.
  - now apply get_set_name_other.
Qed.
End SetOther.

Lemma assign_at_length : forall l k v st,
  List.length (Shared.assign_at l k v st) = List.length st.
Proof.
  intros l k v st. revert l. induction st as [|o st IH]; intros [|l]; simpl; auto.
Qed.

Lemma object_at_assign_same : forall l k v st,
  l < List.length st ->
  Shared.object_at (Shared.assign_at l k v st) l = Obj.set k v (Shared.object_at st l).
Proof.
  intros l k v st. revert l. unfold Shared.object_at.
  induction st as [|o st IH]; intros [|l] H; simpl in *; try lia; [reflexivity|].
  apply IH. lia.
Qed.

Lemma object_at_assign_other : forall l l' k v st,
  l <> l' -> Shared.object_at (Shared.assign_at l k v st) l' = Shared.object_at st l'.
Proof.
  intros l l' k v st. revert l l'. unfold Shared.object_at.
  induction st as [|o st IH]; intros [|l] [|l'] H; simpl; try reflexivity; try congruence.
  apply IH. congruence.
Qed.

Lemma object_at_grown : forall (st : Shared.Store) l (extra : Shared.Store),
  l < List.length st -> Shared.object_at (st ++ extra)%list l = Shared.object_at st l.
Proof. intros. unfold Shared.object_at. now apply app_nth1. Qed.

Lemma object_at_fresh : forall st : Shared.Store,
  Shared.object_at (st ++ [[]])%list (List.length st) = [].
Proof.
  intros. unfold Shared.object_at. rewrite app_nth2; [|lia]. now rewrite Nat.sub_diag.
Qed.

Lemma object_at_outside : forall st l, List.length st <= l -> Shared.object_at st l = [].
Proof. intros. unfold Shared.object_at. now apply nth_overflow. Qed.

Lemma property_inside : forall st l k v,
  Obj.get k (Shared.object_at st l) = Some v -> l < List.length st.
Proof.
  intros st l k v H. destruct (Nat.lt_ge_cases l (List.length st)) as [Hl|Hl]; [exact Hl|].
  rewrite (object_at_outside st l Hl) in H. discriminate H.
Qed.

(** A property after [current[k] = v]. *)
Lemma get_assign : forall st l k v l' k',
  l < List.length st ->
  Obj.get k' (Shared.object_at (Shared.assign_at l k v st) l') =
  if Nat.eqb l l' && String.eqb k k' then Some v else Obj.get k' (Shared.object_at st l').
Proof.
  intros st l k v l' k' Hl.
  destruct (Nat.eqb l l') eqn:El.
  - apply Nat.eqb_eq in El. subst l'. rewrite object_at_assign_same by exact Hl.
    destruct (String.eqb k k') eqn:Ek; cbn [andb].
    + apply String.eqb_eq in Ek. subst k'. apply get_set.
    + apply get_set_other. intros ->. now rewrite String.eqb_refl in Ek.
  - apply Nat.eqb_neq in El. cbn [andb]. now rewrite object_at_assign_other.
Qed.

Lemma closed_create : forall (st : Shared.Store) l k,
  Shared.closed st -> l < List.length st ->
  Shared.closed (Shared.assign_at l k (Shared.SRef (List.length st)) st ++ [[]])%list.
Proof.
  intros st l k Hc Hl l0 k0 l1 H.
  rewrite length_app, assign_at_length. simpl.
  destruct (Nat.lt_ge_cases l0 (List.length st)) as [H0|H0].
  - rewrite object_at_grown in H by now rewrite assign_at_length.
    rewrite get_assign in H by exact Hl.
    destruct (Nat.eqb l l0 && String.eqb k k0).
    + inversion H. lia.
    + apply Hc in H. lia.
  - exfalso.
    assert (He : Shared.object_at (Shared.assign_at l k (Shared.SRef (List.length st)) st ++ [[]])%list l0 = []).
    { destruct (Nat.eq_dec l0 (List.length st)) as [->|Hn].
      - rewrite <- (assign_at_length l k (Shared.SRef (List.length st)) st) at 2.
        apply object_at_fresh.
      - apply object_at_outside. rewrite length_app, assign_at_length. simpl. lia. }
    rewrite He in H. discriminate H.
Qed.

Lemma fresh_has_nothing : forall (st : Shared.Store) l k p rest,
  Shared.walk (Shared.assign_at l k (Shared.SRef (List.length st)) st ++ [[]])%list
       (Shared.SRef (List.length st)) (p :: rest) = None.
Proof.
  intros. cbn [Shared.walk Shared.child].
  rewrite <- (assign_at_length l k (Shared.SRef (List.length st)) st) at 2.
  now rewrite object_at_fresh.
Qed.

Lemma shared_set_path_step : forall p p' rest' value current st,
  Shared.set_path (p :: p' :: rest') value current st =
  match Obj.get p (Shared.object_at st current) with
  | Some (Shared.SRef next) => Shared.set_path (p' :: rest') value next st
  | _ => Shared.set_path (p' :: rest') value (List.length st)
           (Shared.assign_at current p (Shared.SRef (List.length st)) st ++ [[]])%list
  end.
Proof. reflexivity. Qed.

(** The slots that hold an object keep it through [Shared.set_path], when the path
    is missing or holds Null. *)
Lemma shared_set_path_frame : forall parts value current st o k held,
  Shared.closed st -> current < List.length st -> parts <> [] ->
  (Shared.walk st (Shared.SRef current) parts = None \/ Shared.walk st (Shared.SRef current) parts = Some Shared.SNull) ->
  Obj.get k (Shared.object_at st o) = Some (Shared.SRef held) ->
  Obj.get k (Shared.object_at (Shared.set_path parts value current st) o) = Some (Shared.SRef held).
Proof.
  induction parts as [|p rest IH]; intros value current st o k held Hc Hl Hne Hw Hs;
    [congruence|].
  destruct rest as [|p' rest'].
  - cbn [Shared.set_path]. rewrite get_assign by exact Hl.
    destruct (Nat.eqb current o && String.eqb p k) eqn:E; [|exact Hs].
    apply andb_true_iff in E. destruct E as [E1 E2].
    apply Nat.eqb_eq in E1. apply String.eqb_eq in E2. subst o k.
    cbn [Shared.walk Shared.child] in Hw. rewrite Hs in Hw. destruct Hw; discriminate.
  - rewrite shared_set_path_step.
    assert (Hcreate :
      (forall next, Obj.get p (Shared.object_at st current) <> Some (Shared.SRef next)) ->
      Obj.get k (Shared.object_at (Shared.set_path (p' :: rest') value (List.length st)
                   (Shared.assign_at current p (Shared.SRef (List.length st)) st ++ [[]])%list) o)
      = Some (Shared.SRef held)).
    { intros Hnot. apply IH.
      - now apply closed_create.
      - rewrite length_app, assign_at_length. simpl. lia.
      - discriminate.
      - left. apply fresh_has_nothing.
      - pose proof (property_inside _ _ _ _ Hs) as Ho.
        rewrite object_at_grown by now rewrite assign_at_length.
        rewrite get_assign by exact Hl.
        destruct (Nat.eqb current o && String.eqb p k) eqn:E; [|exact Hs].
        apply andb_true_iff in E. destruct E as [E1 E2].
        apply Nat.eqb_eq in E1. apply String.eqb_eq in E2. subst o k.
        exfalso. exact (Hnot _ Hs). }
    destruct (Obj.get p (Shared.object_at st current)) as [[| | | | |next]|] eqn:Hg;
      try (apply Hcreate; intros next; discriminate).
    apply IH; auto.
    + exact (Hc _ _ _ Hg).
    + discriminate.
    + cbn [Shared.walk Shared.child] in Hw. rewrite Hg in Hw. exact Hw.
Qed.

(** What [Shared.set_path] writes is read back at the path, also when objects on
    the path are reached by other paths. *)
Lemma shared_walk_set_path : forall parts value current st,
  Shared.closed st -> current < List.length st -> parts <> [] ->
  (Shared.walk st (Shared.SRef current) parts = None \/ Shared.walk st (Shared.SRef current) parts = Some Shared.SNull) ->
  Shared.walk (Shared.set_path parts value current st) (Shared.SRef current) parts = Some value.
Proof.
  induction parts as [|p rest IH]; intros value current st Hc Hl Hne Hw; [congruence|].
  destruct rest as [|p' rest'].
  - cbn [Shared.set_path Shared.walk Shared.child]. rewrite get_assign by exact Hl.
    now rewrite Nat.eqb_refl, String.eqb_refl.
  - pose proof (shared_set_path_frame (p :: p' :: rest') value current st) as Hframe.
    assert (Hcreate :
      (forall next, Obj.get p (Shared.object_at st current) <> Some (Shared.SRef next)) ->
      Shared.walk (Shared.set_path (p' :: rest') value (List.length st)
              (Shared.assign_at current p (Shared.SRef (List.length st)) st ++ [[]])%list)
           (Shared.SRef current) (p :: p' :: rest') = Some value).
    { intros Hnot.
      assert (Hc1 : Shared.closed (Shared.assign_at current p (Shared.SRef (List.length st)) st ++ [[]])%list)
        by now apply closed_create.
      assert (Hl1 : List.length st
                    < List.length (Shared.assign_at current p (Shared.SRef (List.length st)) st ++ [[]])%list)
        by (rewrite length_app, assign_at_length; simpl; lia).
      cbn [Shared.walk Shared.child].
      rewrite (shared_set_path_frame (p' :: rest') value (List.length st) _ current p (List.length st)
                 Hc1 Hl1).
      - apply IH; auto; [discriminate|left; apply fresh_has_nothing].
      - discriminate.
      - left. apply fresh_has_nothing.
      - rewrite object_at_grown by now rewrite assign_at_length.
        rewrite get_assign by exact Hl.
        now rewrite Nat.eqb_refl, String.eqb_refl. }
    rewrite shared_set_path_step.
    destruct (Obj.get p (Shared.object_at st current)) as [[| | | | |next]|] eqn:Hg;
      try (apply Hcreate; intros next; discriminate).
    assert (Hw' : Shared.walk st (Shared.SRef next) (p' :: rest') = None
                  \/ Shared.walk st (Shared.SRef next) (p' :: rest') = Some Shared.SNull).
    { cbn [Shared.walk Shared.child] in Hw. rewrite Hg in Hw. exact Hw. }
    change (Shared.walk (Shared.set_path (p' :: rest') value next st) (Shared.SRef current) (p :: p' :: rest'))
      with (match Obj.get p (Shared.object_at (Shared.set_path (p' :: rest') value next st) current) with
            | Some v => Shared.walk (Shared.set_path (p' :: rest') value next st) v (p' :: rest')
            | None => None
            end).
    rewrite (shared_set_path_frame (p' :: rest') value next st current p next Hc (Hc _ _ _ Hg)).
    + apply IH; auto. exact (Hc _ _ _ Hg). discriminate.
    + discriminate.
    + exact Hw'.
    + exact Hg.
Qed.

Lemma value_ok_grow : forall st st' v,
  List.length st <= List.length st' -> Shared.value_ok st v -> Shared.value_ok st' v.
Proof. intros st st' [| | | | |l] H Hv; simpl in *; auto. lia. Qed.

Lemma shared_set_path_closed : forall parts value current st,
  Shared.closed st -> current < List.length st -> Shared.value_ok st value ->
  Shared.closed (Shared.set_path parts value current st) /\
  List.length st <= List.length (Shared.set_path parts value current st).
Proof.
  induction parts as [|p rest IH]; intros value current st Hc Hl Hv; [split; auto|].
  destruct rest as [|p' rest'].
  - cbn [Shared.set_path]. rewrite assign_at_length. split; [|lia].
    intros l k l' H. rewrite assign_at_length. rewrite get_assign in H by exact Hl.
    destruct (Nat.eqb current l && String.eqb p k).
    + inversion H; subst value. exact Hv.
    + exact (Hc _ _ _ H).
  - rewrite shared_set_path_step.
    assert (Hcreate :
      Shared.closed (Shared.set_path (p' :: rest') value (List.length st)
                (Shared.assign_at current p (Shared.SRef (List.length st)) st ++ [[]])%list) /\
      List.length st <= List.length (Shared.set_path (p' :: rest') value (List.length st)
                (Shared.assign_at current p (Shared.SRef (List.length st)) st ++ [[]])%list)).
    { assert (Hlen : List.length (Shared.assign_at current p (Shared.SRef (List.length st)) st ++ [[]])%list
                     = S (List.length st))
        by (rewrite length_app, assign_at_length; simpl; lia).
      destruct (IH value (List.length st)
                  (Shared.assign_at current p (Shared.SRef (List.length st)) st ++ [[]])%list) as [H1 H2].
      - now apply closed_create.
      - lia.
      - eapply value_ok_grow; [|exact Hv]. lia.
      - split; [exact H1|lia]. }
    destruct (Obj.get p (Shared.object_at st current)) as [[| | | | |next]|] eqn:Hg;
      try exact Hcreate.
    apply IH; auto. exact (Hc _ _ _ Hg).
Qed.

Lemma shared_applyDefault_closed : forall root st path value,
  Shared.closed st -> root < List.length st -> Shared.value_ok st value ->
  Shared.closed (Shared.applyDefault root st (path, value)) /\
  List.length st <= List.length (Shared.applyDefault root st (path, value)).
Proof.
  intros root st path value Hc Hl Hv. unfold Shared.applyDefault.
  destruct (Shared.path_value st root path) as [[| | | | |l]|];
    auto using shared_set_path_closed.
Qed.

Lemma shared_applyDefaults_loop_app : forall root before st after,
  Shared.applyDefaults_loop root st (before ++ after)%list =
  Shared.applyDefaults_loop root (Shared.applyDefaults_loop root st before) after.
Proof.
  induction before as [|e before IH]; intros st after; [reflexivity|].
  cbn [app Shared.applyDefaults_loop]. apply IH.
Qed.

Lemma shared_applyDefaults_loop_closed : forall root entries st,
  Shared.closed st -> root < List.length st ->
  Forall (fun entry => Shared.value_ok st (snd entry)) entries ->
  Shared.closed (Shared.applyDefaults_loop root st entries) /\
  List.length st <= List.length (Shared.applyDefaults_loop root st entries).
Proof.
  induction entries as [|[path value] entries IH]; intros st Hc Hl Hv; [split; auto|].
  inversion Hv as [|? ? Hv1 Hv2]; subst. cbn [snd] in Hv1. cbn [Shared.applyDefaults_loop].
  destruct (shared_applyDefault_closed root st path value Hc Hl Hv1) as [Hc' Hlen].
  destruct (IH (Shared.applyDefault root st (path, value))) as [H1 H2]; auto.
  - lia.
  - eapply Forall_impl; [|exact Hv2]. intros e He. eapply value_ok_grow; eauto.
  - split; [exact H1|lia].
Qed.

Lemma shared_default : forall st root path value,
  Shared.closed st -> root < List.length st ->
  ((Shared.path_value st root path = None \/ Shared.path_value st root path = Some Shared.SNull) ->
     Shared.path_value (Shared.applyDefault root st (path, value)) root path = Some value) /\
  (forall v, Shared.path_value st root path = Some v -> v <> Shared.SNull ->
     Shared.applyDefault root st (path, value) = st).
Proof.
  intros st root path value Hc Hl. split.
  - intros H. unfold Shared.applyDefault.
    assert (E : match Shared.path_value st root path with
                | None | Some Shared.SNull =>
                    Shared.set_path (JS.split "." path) value root st
                | Some _ => st
                end = Shared.set_path (JS.split "." path) value root st).
    { destruct H as [-> | ->]; reflexivity. }
    rewrite E. unfold Shared.path_value in *.
    apply shared_walk_set_path; auto. apply split_not_nil.
  - intros v Hv Hn. unfold Shared.applyDefault. rewrite Hv.
    destruct v; try reflexivity. congruence.
Qed.

(** C1.  The defaults pass takes the entries of the table in order (first
    part).  For the entry [(path, value)] and the Document [doc] when the
    entry is reached: when [path] does not exist in [doc] or holds Null, the
    Document after the entry is [doc] with [value] written at [path]
    (intermediate mappings created), and [path] holds [value] in it; when
    [path] holds a value that is not Null, the Document stays [doc] (second
    part: Documents as trees; third part: a store where several paths lead
    to one object).  This is stated where [hasOwnProperty] is the method of
    [Object.prototype] on the table and on the objects of the path, and for
    paths with no part [__proto__].  The example of the specification gives
    the Document it states, with both engines (fourth part).  Where the code
    departs from the claim (last part): a table with an entry named
    [hasOwnProperty], or an object with such a property on the path of an
    entry, makes the pass raise the TypeError of the runtime, and no default
    is written. *)
Theorem C1_defaults_application :
  (forall (table cfg before after : UCLObject) (entry : string * UCLValue),
     shadowed table = false ->
     applyDefaults_loop table cfg (before ++ entry :: after)%list
     = (doc <- applyDefaults_loop table cfg before ;;
        doc' <- applyDefault doc entry ;;
        applyDefaults_loop table doc' after)) /\
  (forall (doc : UCLObject) (path : string) (value : UCLValue),
     callable (VObj doc) (JS.split "." path) = true ->
     own_names (JS.split "." path) = true ->
     exists doc',
       applyDefault doc (path, value) = Ok doc' /\
       ((path_value doc path = None \/ path_value doc path = Some VNull) ->
          doc' = setNestedValueByPath path value doc /\ path_value doc' path = Some value) /\
       (forall v, path_value doc path = Some v -> v <> VNull -> doc' = doc)) /\
  (forall (root : Shared.loc) (st : Shared.Store) (before after : list (string * Shared.SValue))
          (path : string) (value : Shared.SValue),
     Shared.closed st -> root < List.length st ->
     Forall (fun entry => Shared.value_ok st (snd entry))
            (before ++ (path, value) :: after)%list ->
     callable_store st ->
     Forall (fun entry => plain_path (fst entry) = true)
            (before ++ (path, value) :: after)%list ->
     exists doc doc',
       doc = Shared.applyDefaults_loop root st before /\
       doc' = Shared.applyDefault root doc (path, value) /\
       Shared.applyDefaults_loop root st (before ++ (path, value) :: after)%list
       = Shared.applyDefaults_loop root doc' after /\
       ((Shared.path_value doc root path = None
         \/ Shared.path_value doc root path = Some Shared.SNull) ->
          Shared.path_value doc' root path = Some value) /\
       (forall v, Shared.path_value doc root path = Some v -> v <> Shared.SNull ->
          doc' = doc)) /\
  (forall E : Engine,
     parseUclString E no_host 8 defaults_example = Ok defaults_example_result) /\
  ((forall (table cfg rest : UCLObject) (entry : string * UCLValue),
      shadowed table = true ->
      throws Native (applyDefaults_loop table cfg (entry :: rest))) /\
   (forall (value : UCLValue),
      throws Native
        (applyDefault [("a", VObj [("hasOwnProperty", VNum (JS.num 1))])] ("a.x", value))) /\
   (forall E : Engine,
      throws Native (parseUclString E no_host 8 shadowing_defaults))).
Proof.
  split; [|split; [|split; [|split]]].
  - intros table cfg before after entry Ht.
    rewrite applyDefaults_loop_app by exact Ht.
    destruct (applyDefaults_loop table cfg before) as [doc| |]; cbn [bind]; try reflexivity.
    cbn [applyDefaults_loop]. now rewrite Ht.
  - intros doc path value Hc _.
    destruct (path_value doc path) as [v|] eqn:Hv.
    + destruct v as [|x|q|s|l|o];
        try (exists doc; split;
             [eapply applyDefault_keeps; [exact Hc|exact Hv|discriminate]|];
             split; [intros [H|H]; discriminate H|reflexivity]).
      exists (setNestedValueByPath path value doc). split.
      * apply applyDefault_writes; [exact Hc|now right].
      * split; [intros _; split; [reflexivity|apply path_value_written]|].
        intros v Hv' Hn. congruence.
    + exists (setNestedValueByPath path value doc). split.
      * apply applyDefault_writes; [exact Hc|now left].
      * split; [intros _; split; [reflexivity|apply path_value_written]|].
        intros v Hv' Hn. discriminate Hv'.
  - intros root st before after path value Hc Hl Hv _ _.
    apply Forall_app in Hv. destruct Hv as [Hb _].
    destruct (shared_applyDefaults_loop_closed root before st Hc Hl Hb) as [Hc' Hlen].
    exists (Shared.applyDefaults_loop root st before),
           (Shared.applyDefault root (Shared.applyDefaults_loop root st before) (path, value)).
    split; [reflexivity|]. split; [reflexivity|]. split.
    + rewrite shared_applyDefaults_loop_app. reflexivity.
    + apply shared_default; [exact Hc'|lia].
  - intros E. destruct E; vm_compute; reflexivity.
  - split; [|split].
    + intros table cfg rest entry Ht. cbn [applyDefaults_loop]. rewrite Ht. raises.
    + intros value. raises.
    + intros E. destruct E; vm_compute; raises.
Qed.

(** C1 at a Document that holds Null at the path of the entry, as a tree and
    as a store in which the paths [a] and [b] lead to the same object. *)
Lemma C1_witness :
  (exists doc',
     applyDefault [("Config", VObj [("null_key", VNull)])]
                  ("Config.null_key", VStr "default_for_null") = Ok doc' /\
     path_value doc' "Config.null_key" = Some (VStr "default_for_null")) /\
  Shared.path_value
    (Shared.applyDefault 0 Shared.aliased ("a.x", Shared.SStr "default")) 0 "a.x"
  = Some (Shared.SStr "default").
Proof.
  split.
  - destruct (proj1 (proj2 C1_defaults_application)
                [("Config", VObj [("null_key", VNull)])]
                "Config.null_key" (VStr "default_for_null") eq_refl eq_refl)
      as (doc' & H1 & H2 & _).
    exists doc'. split; [exact H1|]. apply H2. right. reflexivity.
  - assert (Hc : Shared.closed Shared.aliased).
    { intros l k l' H. destruct l as [|[|l]].
      - cbn in H. destruct (String.eqb k "a"); [inversion H; cbn; lia|].
        destruct (String.eqb k "b"); [inversion H; cbn; lia|discriminate H].
      - cbn in H. destruct (String.eqb k "x"); discriminate H.
      - cbn in H. destruct l; discriminate H. }
    assert (Hv : Forall (fun entry => Shared.value_ok Shared.aliased (snd entry))
                        ([] ++ [("a.x", Shared.SStr "default")])%list)
      by (repeat constructor).
    assert (Hs : callable_store Shared.aliased).
    { intros [|[|[|l]]]; reflexivity. }
    assert (Hp : Forall (fun entry => plain_path (fst entry) = true)
                        ([] ++ [("a.x", Shared.SStr "default")])%list)
      by (repeat constructor).
    destruct (proj1 (proj2 (proj2 C1_defaults_application)) 0 Shared.aliased [] []
                "a.x" (Shared.SStr "default") Hc (Nat.lt_0_succ 1) Hv Hs Hp)
      as (doc & doc' & -> & -> & _ & H & _).
    apply H. right. reflexivity.
Defined.

End Defaults.

(* ================================================================== *)
(** * Simple references (C4) *)
(* ================================================================== *)

Section References.

Lemma walk_app : forall a b current,
  walk current (a ++ b)%list =
  match walk current a with Some v => walk v b | None => None end.
Proof.
  induction a as [|p a IH]; intros; simpl; [reflexivity|].
  destruct (child current p); [apply IH|reflexivity].
Qed.

Lemma resolveSimple_loop_walk : forall ref cfg sec parts todo current,
  callable current todo = true ->
  (walk current todo = None -> callable (VObj cfg) (sec ++ parts)%list = true) ->
  resolveSimple_loop ref cfg sec parts current todo =
  match walk current todo with
  | Some v => Ok v
  | None =>
      match sec with
      | [] => Throw (UCLReferenceError ("Cannot resolve reference: " ++ ref))
      | _ => match walk (VObj cfg) (sec ++ parts)%list with
             | Some v => Ok v
             | None => Throw (UCLReferenceError ("Cannot resolve reference: " ++ ref))
             end
      end
  end.
Proof.
  induction todo as [|p rest IH]; intros current Hc Hrel; [reflexivity|].
  destruct (own_property_callable "current" current p rest Hc) as [E Hv].
  cbn [resolveSimple_loop walk] in *. rewrite E. cbn [bind].
  destruct (child current p) as [v|].
  - apply IH; [now apply Hv|exact Hrel].
  - destruct sec as [|s sec]; [reflexivity|].
    cbn [List.length Nat.ltb Nat.leb]. unfold relative_lookup.
    specialize (Hrel eq_refl). destruct (callable_app _ _ _ Hrel) as [H1 H2].
    rewrite walk_app, (try_walk_walk _ _ H1).
    destruct (walk (VObj cfg) (s :: sec)) as [t|]; [|reflexivity].
    now rewrite (try_walk_walk _ _ (H2 t eq_refl)).
Qed.

(** C4.  For a reference without brackets, [_resolveReference] (in both
    engines) and [resolveSimpleReference] do what the specification says:
    the reference is split on the dot and walked from the root of the
    Document; when that walk fails, the section path followed by the whole
    reference is walked from the root; when both fail, the Reference error
    names the reference as written.  This is stated where [hasOwnProperty]
    is the method of [Object.prototype] on the objects of the walks (first
    part).  Where the code departs from the claim (second part): in a
    Document with a key named [hasOwnProperty] the reference to another key
    of the Document raises the TypeError of the runtime, neither the value
    nor the Reference error, whatever the section path is; so does the parse
    of a document with these lines, in both engines. *)
Theorem C4_simple_reference :
  (forall (fuel : nat) (st : State) (ref : string),
     JS.includes ref "[" = false -> JS.includes ref "]" = false ->
     callable (VObj (config st)) (JS.split "." ref) = true ->
     (walk (VObj (config st)) (JS.split "." ref) = None ->
      callable (VObj (config st)) (currentSection st ++ JS.split "." ref)%list = true) ->
     resolveReference (S fuel) st ref = resolve_spec (config st) (currentSection st) ref
     /\ resolveSimpleReference ref (config st) (currentSection st)
        = resolve_spec (config st) (currentSection st) ref) /\
  ((forall (fuel : nat) (currentSection : list string),
      resolve_spec (config (shadowing_state currentSection)) currentSection "x"
      = Ok (VNum (JS.num 2)) /\
      throws Native (resolveReference (S fuel) (shadowing_state currentSection) "x")) /\
   (forall E : Engine,
      throws Native (parseUclString E no_host 8 shadowing_document))).
Proof.
  split.
  - intros fuel st ref H1 H2 Ha Hr.
    assert (E : resolveSimpleReference ref (config st) (currentSection st)
                = resolve_spec (config st) (currentSection st) ref).
    { unfold resolveSimpleReference, resolve_spec.
      rewrite resolveSimple_loop_walk by assumption.
      destruct (walk (VObj (config st)) (JS.split "." ref)) eqn:Hw; [reflexivity|].
      destruct (currentSection st) as [|s sec]; [simpl; now rewrite Hw|reflexivity]. }
    split; [|exact E].
    simpl. rewrite H1, H2. simpl. exact E.
  - split.
    + intros fuel sec. split; [reflexivity|raises].
    + intros E. destruct E; vm_compute; raises.
Qed.

(** C4 at a reference that only resolves relative to the section path. *)
Lemma C4_witness :
  resolveReference 1 database_state "host" = Ok (VStr "localhost") /\
  resolveReference 1 database_state "port"
  = Throw (UCLReferenceError "Cannot resolve reference: port").
Proof.
  split.
  - rewrite (proj1 (proj1 C4_simple_reference 0 database_state "host"
                      eq_refl eq_refl eq_refl (fun _ => eq_refl))).
    reflexivity.
  - rewrite (proj1 (proj1 C4_simple_reference 0 database_state "port"
                      eq_refl eq_refl eq_refl (fun _ => eq_refl))).
    reflexivity.
Defined.

End References.

(* ================================================================== *)
(** * Type conversion (C2, C9) *)
(* ================================================================== *)

Section Conversions.








End Conversions.

(* ================================================================== *)
(** * Comment stripping (C3) *)
(* ================================================================== *)

Section Comments.

Lemma strip_line_count : forall c line inString quoteChar prev,
  JS.count_char c (strip_line inString quoteChar prev line) <= JS.count_char c line.
Proof.
  induction line as [|a line IH]; intros; simpl; [lia|].
  destruct (negb inString && is_quote a).
  { simpl. specialize (IH true a a). lia. }
  destruct (inString && Ascii.eqb a quoteChar && negb (Ascii.eqb prev JS.BACKSLASH)).
  { simpl. specialize (IH false quoteChar a). lia. }
  destruct (negb inString && Ascii.eqb a "/" && JS.startsWith line "/").
  { simpl. lia. }
  simpl. specialize (IH inString quoteChar a). lia.
Qed.

Lemma strip_block_count : forall c s,
  (forall inside, JS.count_char c (strip_block inside s) <= JS.count_char c s) /\
  (forall inside a, JS.count_char c (strip_block inside (String a s))
                    <= JS.count_char c (String a s)).
Proof.
  induction s as [|d s [IH1 IH2]].
  - split; intros; [simpl; lia|]. destruct inside; simpl; lia.
  - split; [intros; apply IH2|].
    intros inside a. cbn [strip_block].
    destruct inside.
    + destruct (Ascii.eqb a "*" && Ascii.eqb d "/").
      * specialize (IH1 false). simpl. lia.
      * specialize (IH2 true d). simpl in *. lia.
    + destruct (Ascii.eqb a "/" && Ascii.eqb d "*" && JS.includes s "*/").
      * specialize (IH1 true). simpl. lia.
      * specialize (IH2 false d). simpl in *. lia.
Qed.

Lemma strip_block_outside : forall a d s,
  strip_block false (String a (String d s)) =
  if Ascii.eqb a "/" && Ascii.eqb d "*" && JS.includes s "*/"
  then strip_block true s
  else String a (strip_block false (String d s)).
Proof. reflexivity. Qed.

Lemma strip_block_no_comment : forall s,
  (JS.includes s "/*" = false -> strip_block false s = s) /\
  (forall a, JS.includes (String a s) "/*" = false ->
             strip_block false (String a s) = String a s).
Proof.
  induction s as [|d s [IH1 IH2]].
  - split; intros; reflexivity.
  - split; [apply IH2|].
    intros a H. apply includes_cons_false in H. destruct H as [Hs Hi].
    rewrite strip_block_outside. cbn [JS.startsWith] in Hs.
    rewrite startsWith_empty, (Ascii.eqb_sym "/" a), (Ascii.eqb_sym "*" d) in Hs.
    destruct (Ascii.eqb a "/"); destruct (Ascii.eqb d "*");
      cbn [andb] in Hs |- *; try discriminate Hs; f_equal; apply IH2; exact Hi.
Qed.

Lemma removeComments_lines : forall content,
  count_lines (removeComments content) = count_lines (strip_block false content).
Proof.
  intros. unfold count_lines, removeComments.
  rewrite split_length.
  rewrite count_char_join.
  - rewrite length_map. rewrite split_length. lia.
  - apply Forall_forall. intros x Hx. apply in_map_iff in Hx.
    destruct Hx as [l [<- Hl]].
    pose proof (split_pieces JS.LF (strip_block false content)) as Hp.
    rewrite Forall_forall in Hp. specialize (Hp l Hl).
    pose proof (strip_line_count JS.LF l false "000" "000"). lia.
Qed.

Lemma strip_block_inside : forall a d s,
  strip_block true (String a (String d s)) =
  if Ascii.eqb a "*" && Ascii.eqb d "/" then strip_block false s
  else strip_block true (String d s).
Proof. reflexivity. Qed.

Lemma comment_breaks_inside : forall a d s,
  comment_breaks true (String a (String d s)) =
  if Ascii.eqb a "*" && Ascii.eqb d "/" then comment_breaks false s
  else (if Ascii.eqb a JS.LF then 1 else 0) + comment_breaks true (String d s).
Proof. reflexivity. Qed.

Lemma comment_breaks_outside : forall a d s,
  comment_breaks false (String a (String d s)) =
  if Ascii.eqb a "/" && Ascii.eqb d "*" && JS.includes s "*/"
  then comment_breaks true s
  else comment_breaks false (String d s).
Proof. reflexivity. Qed.

Lemma count_char_cons : forall c a s,
  JS.count_char c (String a s) = (if Ascii.eqb a c then 1 else 0) + JS.count_char c s.
Proof. reflexivity. Qed.

(** What the removal of the block comments takes from the line feeds. *)
Lemma strip_block_breaks : forall s,
  (forall inside, JS.count_char JS.LF (strip_block inside s) + comment_breaks inside s
                  = JS.count_char JS.LF s) /\
  (forall inside a, JS.count_char JS.LF (strip_block inside (String a s))
                    + comment_breaks inside (String a s)
                    = JS.count_char JS.LF (String a s)).
Proof.
  induction s as [|d s [IH1 IH2]].
  - split; intros; [reflexivity|].
    destruct inside; cbn [strip_block comment_breaks JS.count_char]; lia.
  - split; [intros; apply IH2|].
    intros inside a. destruct inside.
    + rewrite strip_block_inside, comment_breaks_inside.
      rewrite (count_char_cons JS.LF a), (count_char_cons JS.LF d).
      destruct (Ascii.eqb a "*" && Ascii.eqb d "/") eqn:E.
      * apply andb_true_iff in E. destruct E as [Ea Ed].
        apply Ascii.eqb_eq in Ea. apply Ascii.eqb_eq in Ed. subst a d.
        specialize (IH1 false).
        change (Ascii.eqb "*" JS.LF) with false. change (Ascii.eqb "/" JS.LF) with false.
        cbn iota. lia.
      * specialize (IH2 true d). rewrite (count_char_cons JS.LF d) in IH2. lia.
    + rewrite strip_block_outside, comment_breaks_outside.
      rewrite (count_char_cons JS.LF a), (count_char_cons JS.LF d).
      destruct (Ascii.eqb a "/" && Ascii.eqb d "*" && JS.includes s "*/") eqn:E.
      * apply andb_true_iff in E. destruct E as [E _].
        apply andb_true_iff in E. destruct E as [Ea Ed].
        apply Ascii.eqb_eq in Ea. apply Ascii.eqb_eq in Ed. subst a d.
        specialize (IH1 true).
        change (Ascii.eqb "*" JS.LF) with false. change (Ascii.eqb "/" JS.LF) with false.
        cbn iota. lia.
      * specialize (IH2 false d). rewrite (count_char_cons JS.LF d) in IH2.
        rewrite (count_char_cons JS.LF a). lia.
Qed.

(** Without a closer no block comment is removed. *)
Lemma comment_breaks_unclosed : forall s,
  (JS.includes s "*/" = false -> comment_breaks false s = 0) /\
  (forall a, JS.includes (String a s) "*/" = false ->
             comment_breaks false (String a s) = 0).
Proof.
  induction s as [|d s [IH1 IH2]].
  - split; intros; reflexivity.
  - split; [apply IH2|].
    intros a H. apply includes_cons_false in H. destruct H as [_ Hi].
    rewrite comment_breaks_outside.
    pose proof Hi as Hi'. apply includes_cons_false in Hi'. destruct Hi' as [_ Hs].
    rewrite Hs, !andb_false_r. apply IH2. exact Hi.
Qed.

(** C3 as stated fails: a block comment that spans two lines is removed
    with its line break, and two lines of input leave one line of output. *)
Lemma C3_counterexample :
  count_lines two_line_comment = 2 /\
  removeComments two_line_comment = "ab" /\
  count_lines (removeComments two_line_comment) = 1.
Proof. repeat split; vm_compute; reflexivity. Qed.

(** C3, as the code has it.  The output has as many lines as the input
    less the line breaks that lie inside the removed block comments: a block
    comment is removed together with the line breaks inside it, the removal
    of a line comment and a blank line keep their line.  So the number of
    lines is that of the input exactly when no removed block comment holds a
    line break, which is the case of every text with no [*/], and of block
    comments that end on the line where they start. *)
Theorem C3_line_count :
  forall content : string,
    count_lines (removeComments content) + comment_breaks false content
    = count_lines content /\
    (count_lines (removeComments content) = count_lines content
     <-> comment_breaks false content = 0) /\
    (JS.includes content "*/" = false ->
       count_lines (removeComments content) = count_lines content) /\
    count_lines (removeComments one_line_comments) = count_lines one_line_comments.
Proof.
  intros content.
  assert (E : count_lines (removeComments content) + comment_breaks false content
              = count_lines content).
  { rewrite removeComments_lines. unfold count_lines. rewrite !split_length.
    pose proof (proj1 (strip_block_breaks content) false). lia. }
  split; [exact E|]. split; [split; lia|]. split.
  - intros H. pose proof (proj1 (comment_breaks_unclosed content) H). lia.
  - vm_compute. reflexivity.
Qed.

(** C3 at a text with a line comment, a quoted [//], a blank line and an
    opener of a block comment that is never closed. *)
Lemma C3_witness :
  count_lines (removeComments (text ["a = 1 // one"; ""; "b = " ++ quote "//"; "/* c" ]))
  = count_lines (text ["a = 1 // one"; ""; "b = " ++ quote "//"; "/* c" ]).
Proof.
  apply (proj1 (proj2 (proj2
           (C3_line_count (text ["a = 1 // one"; ""; "b = " ++ quote "//"; "/* c" ]))))).
  reflexivity.
Defined.

End Comments.

(* ================================================================== *)
(** * Expressions (C5, C6, C7) *)
(* ================================================================== *)

Section DivisionByZero.

Variable op : string.
Variable rightToken : UCLValue.
Variable rest : list UCLValue.
Hypothesis op_div_or_mod : op = "/" \/ op = "%".
Hypothesis right_zero : exists q, toNumber rightToken = Ok q /\ JS.num_is_zero q = true.

Lemma op_not_number : throws TypeErr (toNumber (VStr op)).
Proof. destruct op_div_or_mod as [-> | ->]; raises. Qed.

Lemma op_multiplicative : multiplicative (VStr op) = true /\ is_token "*" (VStr op) = false.
Proof. destruct op_div_or_mod as [-> | ->]; split; reflexivity. Qed.

(** The operator is reached with a value before it. *)
Lemma zero_divisor_reached : forall leftToken processed,
  throws TypeErr (mul_div_pass (leftToken :: processed) (VStr op :: rightToken :: rest)).
Proof.
  intros leftToken processed. cbn [mul_div_pass].
  destruct op_multiplicative as [-> Hstar].
  destruct (toNumber_cases leftToken) as [[l Hl]|Hl]; [|now apply throws_bind].
  rewrite Hl. cbn [bind].
  destruct right_zero as [q [Hq Hz]]. rewrite Hq. cbn [bind]. rewrite Hstar, Hz.
  destruct (is_token "/" (VStr op)); raises.
Qed.

(** Whatever stands between a value and the operator, the pass ends in a
    Type error: by induction on the number of tokens in between. *)
Lemma zero_divisor_after : forall n pre leftToken processed,
  List.length pre <= n ->
  throws TypeErr
    (mul_div_pass (leftToken :: processed) (pre ++ VStr op :: rightToken :: rest)%list).
Proof.
  induction n as [|n IH]; intros pre leftToken processed Hlen.
  - destruct pre; [apply zero_divisor_reached|simpl in Hlen; lia].
  - destruct pre as [|token pre]; [apply zero_divisor_reached|].
    simpl in Hlen. cbn [app mul_div_pass].
    destruct (multiplicative token) eqn:Hm; [|apply IH; lia].
    destruct (toNumber_cases leftToken) as [[l Hl]|Hl]; [|now apply throws_bind].
    rewrite Hl. cbn [bind].
    destruct pre as [|token' pre].
    + cbn [app]. apply throws_bind, op_not_number.
    + cbn [app].
      destruct (toNumber_cases token') as [[r Hr]|Hr]; [|now apply throws_bind].
      rewrite Hr. cbn [bind]. simpl in Hlen.
      destruct (is_token "*" token); [apply IH; lia|].
      destruct (is_token "/" token);
        (destruct (JS.num_is_zero r); [raises|apply IH; lia]).
Qed.

Lemma zero_divisor_any : forall pre,
  is_error (mul_div_pass [] (pre ++ VStr op :: rightToken :: rest)%list) /\
  (forall first pre', pre = first :: pre' -> multiplicative first = false ->
     throws TypeErr (mul_div_pass [] (pre ++ VStr op :: rightToken :: rest)%list)).
Proof.
  intros pre. split.
  - destruct pre as [|token pre].
    + cbn [app mul_div_pass]. destruct op_multiplicative as [-> _]. raises.
    + cbn [app mul_div_pass]. destruct (multiplicative token).
      * raises.
      * eapply throws_is_error, zero_divisor_after. apply Nat.le_refl.
  - intros first pre' -> Hm. cbn [app mul_div_pass]. rewrite Hm.
    eapply zero_divisor_after. apply Nat.le_refl.
Qed.

End DivisionByZero.

(** C5 as stated fails: a division by zero with no left operand is a Syntax
    error, and one whose left operand does not resolve is the Reference
    error of that operand; both in both engines. *)
Lemma C5_counterexample :
  parseValue Monolith no_host initial_state 2 "/ 0"
  = Throw (UCLSyntaxError "Missing left operand for operator '/'") /\
  parseValue Modular no_host initial_state 2 "/ 0"
  = Throw (UCLSyntaxError "Missing left operand for operator '/'") /\
  parseValue Monolith no_host initial_state 2 "nope / 0"
  = Throw (UCLReferenceError "Cannot resolve reference: nope") /\
  parseValue Modular no_host initial_state 2 "nope / 0"
  = Throw (UCLReferenceError "Cannot resolve reference: nope").
Proof. repeat split; vm_compute; reflexivity. Qed.

(** C5, as the code has it.  Take a flat expression in which [/] or [%] is
    followed by an operand whose numeric coercion is zero.  Its operands are
    resolved first, and an operand that fails to resolve raises its own
    error (second part).  Once they are resolved, the evaluation never
    returns a value: it raises a Syntax error when the expression starts with
    a multiplicative operator, which lacks its left operand, and a Type
    error otherwise (first part, on the resolved tokens, and third part, on
    the expression; the Type error is stated for operands whose text the
    message of an error can hold).  [10 / 0] and [10 % 0] raise the Type
    errors of the source in both engines, also with the zero in
    parentheses. *)
Theorem C5_division_by_zero :
  (forall (pre : list UCLValue) (op : string) (rightToken : UCLValue) (q : Q)
          (rest : list UCLValue),
     op = "/" \/ op = "%" ->
     toNumber rightToken = Ok q -> (q == 0)%Q ->
     is_error (evaluate_tokens (pre ++ VStr op :: rightToken :: rest)%list) /\
     (forall first pre', pre = first :: pre' -> multiplicative first = false ->
        forallb printable pre = true ->
        throws TypeErr (evaluate_tokens (pre ++ VStr op :: rightToken :: rest)%list)) /\
     (multiplicative (hd (VStr op) pre) = true ->
        throws Syntax (evaluate_tokens (pre ++ VStr op :: rightToken :: rest)%list))) /\
  (forall (resolveOperand : string -> Result UCLValue) (expr : string) (e : Err),
     resolve_tokens resolveOperand (tokenizeExpression expr) = Throw e ->
     evaluateSimpleExpression resolveOperand expr = Throw e) /\
  (forall (resolveOperand : string -> Result UCLValue) (expr : string)
          (pre : list UCLValue) (op : string) (rightToken : UCLValue) (q : Q)
          (rest : list UCLValue),
     op = "/" \/ op = "%" ->
     resolve_tokens resolveOperand (tokenizeExpression expr)
     = Ok (pre ++ VStr op :: rightToken :: rest)%list ->
     toNumber rightToken = Ok q -> (q == 0)%Q ->
     is_error (evaluateSimpleExpression resolveOperand expr) /\
     (forall first pre', pre = first :: pre' -> multiplicative first = false ->
        forallb printable pre = true ->
        throws TypeErr (evaluateSimpleExpression resolveOperand expr)) /\
     (multiplicative (hd (VStr op) pre) = true ->
        throws Syntax (evaluateSimpleExpression resolveOperand expr))) /\
  (forall (E : Engine) (h : Host) (st : State),
     parseValue E h st 2 "10 / 0" = Throw (UCLTypeError "Division by zero") /\
     parseValue E h st 2 "10 % 0" = Throw (UCLTypeError "Modulo by zero") /\
     parseValue E h st 3 "10 / (1 - 1)" = Throw (UCLTypeError "Division by zero") /\
     parseValue E h st 3 "10 % (1 - 1)" = Throw (UCLTypeError "Modulo by zero")).
Proof.
  assert (T : forall (pre : list UCLValue) (op : string) (rightToken : UCLValue) (q : Q)
                     (rest : list UCLValue),
     op = "/" \/ op = "%" ->
     toNumber rightToken = Ok q -> (q == 0)%Q ->
     is_error (evaluate_tokens (pre ++ VStr op :: rightToken :: rest)%list) /\
     (forall first pre', pre = first :: pre' -> multiplicative first = false ->
        forallb printable pre = true ->
        throws TypeErr (evaluate_tokens (pre ++ VStr op :: rightToken :: rest)%list)) /\
     (multiplicative (hd (VStr op) pre) = true ->
        throws Syntax (evaluate_tokens (pre ++ VStr op :: rightToken :: rest)%list))).
  { intros pre op rightToken q rest Hop Hq Hz.
    assert (Hr : exists q, toNumber rightToken = Ok q /\ JS.num_is_zero q = true).
    { exists q. split; [exact Hq|now apply num_is_zero_iff]. }
    destruct (zero_divisor_any op rightToken rest Hop Hr pre) as [Herr Hty].
    unfold evaluate_tokens. split; [|split].
    + destruct Herr as [e He]. rewrite He. now exists e.
    + intros first pre' Hpre Hm _. apply throws_bind. eapply Hty; eauto.
    + intros Hm.
      destruct pre as [|first pre'].
      * cbn [app mul_div_pass hd] in *. rewrite Hm. raises.
      * cbn [app mul_div_pass hd] in *. rewrite Hm. raises. }
  split; [exact T|]. split; [|split].
  - intros ro expr e H. unfold evaluateSimpleExpression. now rewrite H.
  - intros ro expr pre op rightToken q rest Hop Hres Hq Hz.
    unfold evaluateSimpleExpression. rewrite Hres. cbn [bind].
    exact (T pre op rightToken q rest Hop Hq Hz).
  - intros E h st. destruct E; repeat split; vm_compute; reflexivity.
Qed.

(** C5 at the expression [10 / 0], with operands that are read as numbers:
    a Type error; and at [* 2 / 0], which starts with an operator: a Syntax
    error. *)
Lemma C5_witness :
  throws TypeErr
    (evaluateSimpleExpression (parseSimpleValue (fun _ => Ok VNull)) "10 / 0") /\
  throws Syntax
    (evaluateSimpleExpression (parseSimpleValue (fun _ => Ok VNull)) "* 2 / 0").
Proof.
  split.
  - apply (proj1 (proj2 (proj1 (proj2 (proj2 C5_division_by_zero))
                    (parseSimpleValue (fun _ => Ok VNull)) "10 / 0"
                    [VNum (JS.num 10)] "/" (VNum (JS.num 0)) (JS.num 0) []
                    (or_introl eq_refl) eq_refl eq_refl (Qeq_refl _)))
                 (VNum (JS.num 10)) [] eq_refl eq_refl eq_refl).
  - apply (proj2 (proj2 (proj1 (proj2 (proj2 C5_division_by_zero))
                    (parseSimpleValue (fun _ => Ok VNull)) "* 2 / 0"
                    [VStr "*"; VNum (JS.num 2)] "/" (VNum (JS.num 0)) (JS.num 0) []
                    (or_introl eq_refl) eq_refl eq_refl (Qeq_refl _)))).
    reflexivity.
Defined.

Section Addition.


Lemma Qred_inject_Z : forall z : Z, Qred (inject_Z z) = inject_Z z.
Proof.
  intros z. unfold inject_Z, Qred.
  pose proof (Z.ggcd_gcd z 1) as Hg. pose proof (Z.ggcd_correct_divisors z 1) as Hd.
  destruct (Z.ggcd z 1) as [g [a b]]. simpl in Hg.
  rewrite Z.gcd_1_r in Hg. subst g. destruct Hd as [Ha Hb].
  rewrite Z.mul_1_l in Ha, Hb. subst a. subst b. reflexivity.
Qed.

Lemma integral_text : forall z : Z, JS.number_toString (inject_Z z) = JS.Z_to_string z.
Proof.
  intros z. unfold JS.number_toString. rewrite Qred_inject_Z. reflexivity.
Qed.


Lemma double_integer : forall z : Z, safe_integer z -> double (inject_Z z).
Proof.
  intros z H. exists z, 0. unfold safe_integer in H.
  split; [change (2 ^ 53)%Z with 9007199254740992%Z; lia|]. split; [lia|].
  change (2 ^ Z.of_nat 0)%Z with 1%Z. unfold Qeq, Qdiv, Qinv, Qmult, inject_Z.
  cbn [Qnum Qden]. lia.
Qed.



End Addition.

(* ================================================================== *)
(** * Parentheses and precedence *)
(* ================================================================== *)

Section Parentheses.

Lemma count_zero_cons : forall c a s,
  JS.count_char c (String a s) = 0 -> Ascii.eqb a c = false /\ JS.count_char c s = 0.
Proof.
  intros c a s H. simpl in H. destruct (Ascii.eqb a c); [discriminate H|].
  split; [reflexivity|exact H].
Qed.

Lemma includes_char_absent : forall c s,
  JS.count_char c s = 0 -> JS.includes s (JS.ch c) = false.
Proof.
  intros c s H. unfold JS.includes, JS.indexOf.
  assert (G : forall n, JS.indexOf_from n s (JS.ch c) = None); [|now rewrite G].
  induction s as [|a s IH]; intros n; [reflexivity|].
  apply count_zero_cons in H. destruct H as [Ha Hs].
  cbn [JS.indexOf_from JS.startsWith JS.ch]. rewrite Ascii.eqb_sym, Ha. cbn [andb].
  apply IH. exact Hs.
Qed.

Lemma includes_char_present : forall c pre rest,
  JS.includes (pre ++ String c rest) (JS.ch c) = true.
Proof.
  intros c pre rest. unfold JS.includes, JS.indexOf. generalize 0.
  induction pre as [|a pre IH]; intros n.
  - cbn [append JS.indexOf_from JS.startsWith JS.ch].
    now rewrite Ascii.eqb_refl, startsWith_empty.
  - cbn [append JS.indexOf_from].
    destruct (JS.startsWith (String a (pre ++ String c rest)) (JS.ch c)); [reflexivity|].
    apply IH.
Qed.

Lemma lastIndexOf_from_absent : forall c s i last,
  JS.count_char c s = 0 -> JS.lastIndexOf_from i last s c = last.
Proof.
  induction s as [|a s IH]; intros i last H; [reflexivity|].
  apply count_zero_cons in H. destruct H as [Ha Hs].
  cbn [JS.lastIndexOf_from]. rewrite Ha. now apply IH.
Qed.

Lemma lastIndexOf_last : forall c pre rest,
  JS.count_char c rest = 0 ->
  JS.lastIndexOf (pre ++ String c rest) c = Some (String.length pre).
Proof.
  intros c pre rest H. unfold JS.lastIndexOf.
  change (String.length pre) with (0 + String.length pre). generalize 0, (@None nat).
  induction pre as [|a pre IH]; intros i last.
  - cbn [append JS.lastIndexOf_from String.length]. rewrite Ascii.eqb_refl, Nat.add_0_r.
    now apply lastIndexOf_from_absent.
  - cbn [append JS.lastIndexOf_from String.length]. rewrite IH. f_equal. lia.
Qed.

Lemma append_assoc : forall a b c : string, (a ++ b) ++ c = a ++ (b ++ c).
Proof. induction a as [|x a IH]; intros; simpl; [reflexivity|now rewrite IH]. Qed.

Lemma length_append : forall a b : string,
  String.length (a ++ b) = String.length a + String.length b.
Proof. induction a as [|x a IH]; intros; simpl; [reflexivity|now rewrite IH]. Qed.

Lemma drop_app : forall a b, JS.drop (String.length a) (a ++ b) = b.
Proof. induction a as [|x a IH]; intros; simpl; auto. Qed.

Lemma take_app : forall a b, JS.take (String.length a) (a ++ b) = a.
Proof. induction a as [|x a IH]; intros; simpl; [reflexivity|now rewrite IH]. Qed.

Lemma find_end_skip : forall inner tail i openCount,
  paren_free inner ->
  find_end (inner ++ tail) i openCount = find_end tail (i + String.length inner) openCount.
Proof.
  induction inner as [|a inner IH]; intros tail i oc [H1 H2].
  - simpl. now rewrite Nat.add_0_r.
  - apply count_zero_cons in H1. apply count_zero_cons in H2.
    destruct H1 as [Ha1 H1]. destruct H2 as [Ha2 H2].
    cbn [append find_end String.length]. rewrite Ha1, Ha2, andb_false_r.
    rewrite IH by (split; assumption). f_equal. lia.
Qed.

Lemma find_end_absent : forall s i openCount,
  JS.count_char ")" s = 0 -> find_end s i openCount = None.
Proof.
  induction s as [|a s IH]; intros i oc H; [reflexivity|].
  apply count_zero_cons in H. destruct H as [Ha Hs].
  cbn [find_end]. rewrite Ha, andb_false_r. now apply IH.
Qed.

Lemma find_end_matched : forall inner post start,
  paren_free inner ->
  find_end (String "(" (inner ++ String ")" post)) start 0
  = Some (start + 1 + String.length inner).
Proof.
  intros inner post start H. cbn [find_end].
  change (Ascii.eqb "(" "(") with true. cbn [Z.add Z.eqb andb].
  rewrite find_end_skip by exact H. cbn [find_end].
  change (Ascii.eqb ")" "(") with false. change (Ascii.eqb ")" ")") with true.
  cbn [Z.sub Z.add Z.opp Z.pos_sub Z.eqb andb]. f_equal. lia.
Qed.

(** One turn of the loop of [_evaluateExpression] on the innermost pair of
    parentheses. *)
Lemma parenthesis_turn :
  forall (fuel : nat) (ev : string -> Result UCLValue) (pre inner post : string),
    paren_free inner -> JS.count_char "(" post = 0 ->
    evaluateExpression (S fuel) ev (pre ++ "(" ++ inner ++ ")" ++ post)
    = bind (ev inner)
           (fun result => evaluateExpression fuel ev (pre ++ toString result ++ post)).
Proof.
  intros fuel ev pre inner post Hin Hpost.
  cbn [evaluateExpression].
  change ("(" ++ inner ++ ")" ++ post) with (String "(" (inner ++ String ")" post)).
  rewrite (includes_char_present "(" pre).
  rewrite lastIndexOf_last.
  2:{ rewrite count_char_app. destruct Hin as [-> _]. simpl. exact Hpost. }
  rewrite drop_app, find_end_matched by exact Hin.
  assert (E1 : JS.substring (String.length pre + 1) (String.length pre + 1 + String.length inner)
                 (pre ++ String "(" (inner ++ String ")" post)) = inner).
  { unfold JS.substring.
    destruct (Nat.ltb_spec (String.length pre + 1 + String.length inner)
                           (String.length pre + 1)) as [Hlt|Hge]; [lia|].
    replace (String.length pre + 1 + String.length inner - (String.length pre + 1))
      with (String.length inner) by lia.
    replace (String.length pre + 1) with (S (String.length pre)) by lia.
    assert (Hd : forall a b, JS.drop (S (String.length a)) (a ++ String "(" b) = b).
    { induction a as [|x a IH]; intros b; [reflexivity|].
      cbn [String.length append JS.drop]. apply IH. }
    rewrite Hd. apply take_app. }
  rewrite E1.
  assert (E2 : JS.substring 0 (String.length pre)
                 (pre ++ String "(" (inner ++ String ")" post)) = pre).
  { unfold JS.substring. cbn [Nat.ltb Nat.leb JS.drop]. rewrite Nat.sub_0_r.
    apply take_app. }
  rewrite E2.
  assert (E3 : JS.drop (String.length pre + 1 + String.length inner + 1)
                 (pre ++ String "(" (inner ++ String ")" post)) = post).
  { replace (String.length pre + 1 + String.length inner + 1)
      with (String.length (pre ++ String "(" (inner ++ ")"))).
    - replace (pre ++ String "(" (inner ++ String ")" post))
        with ((pre ++ String "(" (inner ++ ")")) ++ post).
      + apply drop_app.
      + rewrite append_assoc. cbn [append]. now rewrite append_assoc.
    - rewrite length_append. cbn [String.length]. rewrite length_append.
      cbn [String.length]. lia. }
  rewrite E3. reflexivity.
Qed.

(** X1.  Parenthesis resolution in [_evaluateExpression].  One turn of the loop
    takes the last opening parenthesis and the first closing one after it:
    when the text between them holds no parenthesis, that text is evaluated
    as a flat expression and the text of its result is put in its place
    (stated for the results that [String] prints as the embedding does), and
    an error of that evaluation is the error of the whole; when no closing
    parenthesis follows the last opening one, the Syntax error names the
    whole expression; a text with no opening parenthesis goes to the flat
    evaluation as it is. *)
Theorem parenthesis_resolution :
  (forall (fuel : nat) (ev : string -> Result UCLValue) (pre inner post : string)
          (result : UCLValue),
     paren_free inner -> JS.count_char "(" post = 0 ->
     ev inner = Ok result -> exact_text result = true ->
     evaluateExpression (S fuel) ev (pre ++ "(" ++ inner ++ ")" ++ post)
     = evaluateExpression fuel ev (pre ++ toString result ++ post)) /\
  (forall (fuel : nat) (ev : string -> Result UCLValue) (pre inner post : string)
          (e : Err),
     paren_free inner -> JS.count_char "(" post = 0 ->
     ev inner = Throw e ->
     evaluateExpression (S fuel) ev (pre ++ "(" ++ inner ++ ")" ++ post) = Throw e) /\
  (forall (fuel : nat) (ev : string -> Result UCLValue) (pre rest : string),
     paren_free rest ->
     evaluateExpression (S fuel) ev (pre ++ "(" ++ rest)
     = Throw (UCLSyntaxError
                ("Mismatched parentheses in expression: " ++ pre ++ "(" ++ rest))) /\
  (forall (fuel : nat) (ev : string -> Result UCLValue) (expr : string),
     JS.count_char "(" expr = 0 ->
     evaluateExpression (S fuel) ev expr = ev expr).
Proof.
  split; [|split; [|split]].
  - intros fuel ev pre inner post result Hin Hpost Hev _.
    rewrite parenthesis_turn by assumption. now rewrite Hev.
  - intros fuel ev pre inner post e Hin Hpost Hev.
    rewrite parenthesis_turn by assumption. now rewrite Hev.
  - intros fuel ev pre rest [H1 H2].
    cbn [evaluateExpression].
    change ("(" ++ rest) with (String "(" rest).
    rewrite (includes_char_present "(" pre).
    rewrite lastIndexOf_last by exact H1.
    rewrite drop_app. cbn [find_end].
    change (Ascii.eqb "(" "(") with true. change (Ascii.eqb "(" ")") with false.
    cbn [Z.add Z.eqb andb]. rewrite find_end_absent by exact H2. reflexivity.
  - intros fuel ev expr H. cbn [evaluateExpression].
    pose proof (includes_char_absent "(" expr H) as G. unfold JS.ch in G.
    now rewrite G.
Qed.

(** X1 at a product with a parenthesised sum, the flat evaluation left
    abstract: it returns the text it is given. *)
Lemma parenthesis_resolution_witness :
  evaluateExpression 2 (fun s => Ok (VStr s)) ("2 * " ++ "(" ++ "3 + 4" ++ ")" ++ " - 1")
  = Ok (VStr "2 * 3 + 4 - 1").
Proof.
  rewrite (proj1 parenthesis_resolution 1 (fun s => Ok (VStr s)) "2 * " "3 + 4" " - 1"
             (VStr "3 + 4"));
    [reflexivity|split; reflexivity|reflexivity|reflexivity|reflexivity].
Defined.

Lemma no_multiplicative_rev : forall l, no_multiplicative (rev l) = no_multiplicative l.
Proof.
  intros l. unfold no_multiplicative. induction l as [|x l IH]; [reflexivity|].
  cbn [rev forallb]. rewrite forallb_app, IH. cbn [forallb].
  rewrite andb_true_r. apply andb_comm.
Qed.

Lemma mul_div_pass_clears : forall n tokens processed out,
  List.length tokens <= n ->
  no_multiplicative processed = true ->
  mul_div_pass processed tokens = Ok out ->
  no_multiplicative out = true.
Proof.
  induction n as [|n IH]; intros tokens processed out Hn Hp H.
  - destruct tokens; [|simpl in Hn; lia]. cbn [mul_div_pass] in H.
    injection H as <-. now rewrite no_multiplicative_rev.
  - destruct tokens as [|token rest].
    + cbn [mul_div_pass] in H. injection H as <-. now rewrite no_multiplicative_rev.
    + cbn [mul_div_pass] in H. cbn [List.length] in Hn.
      destruct (multiplicative token) eqn:Hm.
      * destruct processed as [|leftToken processed']; [discriminate H|].
        destruct (toNumber leftToken) as [left| |]; cbn [bind] in H; try discriminate H.
        destruct rest as [|rightToken rest']; [discriminate H|].
        destruct (toNumber rightToken) as [right| |]; cbn [bind] in H; try discriminate H.
        cbn [List.length] in Hn.
        assert (Hp' : forall v, no_multiplicative (VNum v :: processed') = true).
        { intros v. unfold no_multiplicative in *. cbn [forallb] in *.
          apply andb_true_iff in Hp. destruct Hp as [_ Hp]. rewrite Hp. reflexivity. }
        destruct (is_token "*" token).
        { eapply (IH rest'); [lia|apply Hp'|exact H]. }
        destruct (is_token "/" token).
        { destruct (JS.num_is_zero right); [discriminate H|].
          eapply (IH rest'); [lia|apply Hp'|exact H]. }
        destruct (JS.num_is_zero right); [discriminate H|].
        eapply (IH rest'); [lia|apply Hp'|exact H].
      * apply (IH rest (token :: processed) out); [lia| |exact H].
        unfold no_multiplicative in *. cbn [forallb]. now rewrite Hm, Hp.
Qed.

(** X2.  Precedence in [_evaluateSimpleExpression].  What pass 2 hands to pass 3
    holds no [*], [/] or [%]: every multiplicative operator is applied before
    any additive one; each pass works from the left.  The values are stated
    for numbers that a double holds exactly, with every intermediate result
    and the final one: there the exact operations are those of the source.
    The example of the specification evaluates to 1 in both engines. *)
Theorem multiplicative_before_additive :
  (forall tokens out, mul_div_pass [] tokens = Ok out -> no_multiplicative out = true) /\
  (forall a b c : Q, double a -> double b -> double c ->
     (double (JS.num_mul b c) -> double (JS.num_add a (JS.num_mul b c)) ->
      evaluate_tokens [VNum a; VStr "+"; VNum b; VStr "*"; VNum c]
      = Ok (VNum (JS.num_add a (JS.num_mul b c)))) /\
     (double (JS.num_mul a b) -> double (JS.num_add (JS.num_mul a b) c) ->
      evaluate_tokens [VNum a; VStr "*"; VNum b; VStr "+"; VNum c]
      = Ok (VNum (JS.num_add (JS.num_mul a b) c))) /\
     (double (JS.num_mul b c) -> double (JS.num_sub a (JS.num_mul b c)) ->
      evaluate_tokens [VNum a; VStr "-"; VNum b; VStr "*"; VNum c]
      = Ok (VNum (JS.num_sub a (JS.num_mul b c)))) /\
     (double (JS.num_sub a b) -> double (JS.num_add (JS.num_sub a b) c) ->
      evaluate_tokens [VNum a; VStr "-"; VNum b; VStr "+"; VNum c]
      = Ok (VNum (JS.num_add (JS.num_sub a b) c))) /\
     (double (JS.num_mul a b) -> double (JS.num_mul (JS.num_mul a b) c) ->
      evaluate_tokens [VNum a; VStr "*"; VNum b; VStr "*"; VNum c]
      = Ok (VNum (JS.num_mul (JS.num_mul a b) c)))) /\
  (forall a b c : Q, double a -> double b -> double c -> JS.num_is_zero b = false ->
     (double (JS.num_div a b) -> double (JS.num_mul (JS.num_div a b) c) ->
      evaluate_tokens [VNum a; VStr "/"; VNum b; VStr "*"; VNum c]
      = Ok (VNum (JS.num_mul (JS.num_div a b) c))) /\
     (double (JS.num_div c b) -> double (JS.num_add a (JS.num_div c b)) ->
      evaluate_tokens [VNum a; VStr "+"; VNum c; VStr "/"; VNum b]
      = Ok (VNum (JS.num_add a (JS.num_div c b)))) /\
     (double (JS.num_mul c a) -> double (JS.num_rem (JS.num_mul c a) b) ->
      evaluate_tokens [VNum c; VStr "*"; VNum a; VStr "%"; VNum b]
      = Ok (VNum (JS.num_rem (JS.num_mul c a) b)))) /\
  (forall (E : Engine) (h : Host) (st : State),
     parseValue E h st 4 complex_expression = Ok (VNum (JS.num 1))).
Proof.
  split; [|split; [|split]].
  - intros tokens out H.
    apply (mul_div_pass_clears (List.length tokens) tokens [] out (le_n _) eq_refl H).
  - intros a b c _ _ _. repeat split; intros _ _; reflexivity.
  - intros a b c _ _ _ Hb. repeat split; intros _ _.
    + unfold evaluate_tokens. cbn [mul_div_pass multiplicative is_token String.eqb Ascii.eqb Bool.eqb orb toNumber bind].
      rewrite Hb. reflexivity.
    + unfold evaluate_tokens. cbn [mul_div_pass multiplicative is_token String.eqb Ascii.eqb Bool.eqb orb toNumber bind].
      rewrite Hb. reflexivity.
    + unfold evaluate_tokens. cbn [mul_div_pass multiplicative is_token String.eqb Ascii.eqb Bool.eqb orb toNumber bind].
      rewrite Hb. reflexivity.
  - intros E h st. destruct E; vm_compute; reflexivity.
Qed.

(** X2 at the tokens of [7 / 2 * 4]: the quotient 3.5 and the product 14
    are numbers that a double holds. *)
Lemma multiplicative_before_additive_witness :
  evaluate_tokens [VNum (JS.num 7); VStr "/"; VNum (JS.num 2); VStr "*"; VNum (JS.num 4)]
  = Ok (VNum (JS.num 14)).
Proof.
  assert (D : forall z : Z, (Z.abs z <= 100)%Z -> double (JS.num z)).
  { intros z H. apply double_integer. unfold safe_integer. lia. }
  apply (proj1 (proj1 (proj2 (proj2 multiplicative_before_additive))
                  (JS.num 7) (JS.num 2) (JS.num 4)
                  (D 7%Z ltac:(cbn; lia)) (D 2%Z ltac:(cbn; lia)) (D 4%Z ltac:(cbn; lia))
                  eq_refl)).
  - exists 7%Z, 1. split; [reflexivity|]. split; [lia|reflexivity].
  - apply (D 14%Z). cbn. lia.
Defined.

End Parentheses.

(** C6, at the input where the code departs from the claim: a closing
    parenthesis with no opening one is not reported.  The loop of
    [_evaluateExpression] only runs while the text holds an opening
    parenthesis, so the text goes to the flat evaluation, where the closing
    parenthesis is a token that resolves to a string and is left unused. *)
Theorem C6_closing_parenthesis_alone :
  forall (E : Engine) (h : Host) (st : State),
    tokenizeExpression closing_only = ["1"; "+"; "2"; ")"] /\
    parseValue E h st 2 closing_only = Ok (VNum (JS.num 3)).
Proof.
  intros E h st. destruct E; split; vm_compute; reflexivity.
Qed.

(* ================================================================== *)
(** * The defaults block is last (C8) *)
(* ================================================================== *)

Lemma bracketed_not_empty : forall s, bracketed s = true -> JS.is_empty s = false.
Proof. intros [|c s] H; [discriminate H|reflexivity]. Qed.

Section DefaultsLast.

Variable E : Engine.
Variable h : Host.
Variable fuel : nat.

Lemma parseDefaultsSection_app : forall pre st rest,
  parseDefaultsSection E h fuel st (pre ++ rest)%list =
  bind (parseDefaultsSection E h fuel st pre)
       (fun st' => parseDefaultsSection E h fuel st' rest).
Proof.
  induction pre as [|l pre IH]; intros st rest; [reflexivity|].
  cbn [app parseDefaultsSection].
  destruct (JS.is_empty (JS.trim l)); [apply IH|].
  destruct (bracketed (JS.trim l)); [reflexivity|].
  destruct (JS.includes (JS.trim l) "="); [|apply IH].
  destruct (splitKeyValue (JS.trim l)) as [kv|e|]; cbn [bind]; try reflexivity.
  destruct (parseValue E h st fuel (snd kv)) as [v|e|]; cbn [bind]; try reflexivity.
  apply IH.
Qed.

Lemma header_in_defaults : forall st hdr post,
  section_header hdr = true ->
  parseDefaultsSection E h fuel st (hdr :: post) = Throw defaults_error.
Proof.
  intros st hdr post H. unfold section_header in H. cbn [parseDefaultsSection].
  rewrite (bracketed_not_empty _ H), H. reflexivity.
Qed.

Lemma enter_defaults : forall st l rest,
  defaults_header l = true ->
  parseLines_loop E h fuel st 0 (l :: rest) = parseDefaultsSection E h fuel st rest.
Proof.
  intros st l rest H. unfold defaults_header in H.
  apply andb_true_iff in H. destruct H as [Hb Hd].
  cbn [parseLines_loop]. rewrite (bracketed_not_empty _ Hb), Hb, Hd. reflexivity.
Qed.

End DefaultsLast.

(** C8.  Once [_parseLines] has consumed the header of the defaults block,
    a later line that is a section header ends the parse: the lines between
    the two are processed as defaults entries, and when they raise nothing
    the header raises the Syntax error of the source; no Document is
    returned.  The example of the specification raises it in both engines. *)
Theorem C8_defaults_block_is_last :
  (forall (E : Engine) (h : Host) (fuel : nat) (st : State)
          (header : string) (pre : list string) (hdr : string) (post : list string),
     defaults_header header = true ->
     section_header hdr = true ->
     parseLines_loop E h fuel st 0 (header :: pre ++ hdr :: post)%list
     = bind (parseDefaultsSection E h fuel st pre) (fun _ => Throw defaults_error)) /\
  (forall E : Engine,
     parseUclString E no_host 8 defaults_then_section = Throw defaults_error).
Proof.
  split.
  - intros E h fuel st header pre hdr post Hd Hs.
    rewrite (enter_defaults E h fuel st header _ Hd), parseDefaultsSection_app.
    destruct (parseDefaultsSection E h fuel st pre) as [st'|e|]; cbn [bind]; try reflexivity.
    now apply header_in_defaults.
  - intros E. destruct E; vm_compute; reflexivity.
Qed.

(** C8 at a defaults block with one entry and a section header after it. *)
Lemma C8_witness :
  parseLines_loop Modular no_host 8 initial_state 0
    ("[Defaults]" :: ["A.y = 2"] ++ "[B]" :: [])%list
  = Throw defaults_error.
Proof.
  rewrite (proj1 C8_defaults_block_is_last Modular no_host 8 initial_state
             "[Defaults]" ["A.y = 2"] "[B]" [] eq_refl eq_refl).
  reflexivity.
Defined.

(* ================================================================== *)
(** * The two engines (C10) *)
(* ================================================================== *)

(** C10, at the inputs where the two engines part: the operand resolver of
    parser.ts unescapes a quoted operand, the one of ucl-parser.ts returns
    the text between the quotes as it is; and ucl-parser.ts takes the
    keywords for references when they stand as operands. *)
Theorem C10_engines_differ :
  (forall (h : Host) (st : State) (pv : string -> Result UCLValue) (fuel : nat),
     resolveOperand Monolith h st pv fuel (quote "a\n") = Ok (VStr ("a" ++ JS.ch JS.LF)) /\
     resolveOperand Modular h st pv fuel (quote "a\n") = Ok (VStr "a\n")) /\
  parseUclString Monolith no_host 8 escape_in_operand
    = Ok [("x", VStr ("a" ++ JS.ch JS.LF ++ "b"))] /\
  parseUclString Modular no_host 8 escape_in_operand = Ok [("x", VStr "a\nb")] /\
  parseUclString Monolith no_host 8 keyword_operand = Ok [("x", VNum (JS.num 1))] /\
  parseUclString Modular no_host 8 keyword_operand
    = Throw (UCLReferenceError "Cannot resolve reference: null").
Proof.
  split; [|repeat split; vm_compute; reflexivity].
  intros h st pv fuel. split; reflexivity.
Qed.

(* ================================================================== *)
(** * More on strings *)
(* ================================================================== *)

Lemma append_empty_r : forall s : string, s ++ "" = s.
Proof. induction s as [|c s IH]; simpl; [reflexivity|now rewrite IH]. Qed.

Lemma rev_string_app : forall s acc, JS.rev_string acc s = JS.reverse s ++ acc.
Proof.
  unfold JS.reverse. induction s as [|c s IH]; intros acc; simpl; [reflexivity|].
  rewrite IH, (IH (String c "")), append_assoc. reflexivity.
Qed.

Lemma reverse_cons : forall c s, JS.reverse (String c s) = JS.reverse s ++ JS.ch c.
Proof. intros. unfold JS.reverse at 1. simpl. apply rev_string_app. Qed.

Lemma reverse_app : forall a b, JS.reverse (a ++ b) = JS.reverse b ++ JS.reverse a.
Proof.
  induction a as [|c a IH]; intros b; simpl.
  - now rewrite append_empty_r.
  - rewrite !reverse_cons, IH, append_assoc. reflexivity.
Qed.

Lemma reverse_involutive : forall s, JS.reverse (JS.reverse s) = s.
Proof.
  induction s as [|c s IH]; [reflexivity|].
  rewrite reverse_cons, reverse_app, IH. reflexivity.
Qed.

Lemma trimStart_tight : forall c s, JS.is_space c = false -> JS.trimStart (String c s) = String c s.
Proof. intros c s H. simpl. now rewrite H. Qed.

Lemma trim_tight : forall s, tight s = true -> JS.trim s = s.
Proof.
  intros s H. unfold tight in H. apply andb_true_iff in H. destruct H as [H1 H2].
  unfold JS.trim, JS.trimEnd.
  assert (E : JS.trimStart s = s).
  { destruct s as [|c s]; [reflexivity|]. apply trimStart_tight.
    now apply negb_true_iff in H1. }
  rewrite E.
  destruct (JS.reverse s) as [|c r] eqn:Hr.
  - simpl. rewrite <- (reverse_involutive s), Hr. reflexivity.
  - rewrite trimStart_tight by (now apply negb_true_iff in H2).
    rewrite <- Hr. apply reverse_involutive.
Qed.

Lemma tight_edges : forall a m b,
  JS.is_space a = false -> JS.is_space b = false ->
  tight (String a (m ++ JS.ch b)) = true.
Proof.
  intros a m b Ha Hb. unfold tight. rewrite Ha. cbn [negb andb].
  rewrite reverse_cons, reverse_app. cbn. now rewrite Hb.
Qed.

Lemma no_space_app : forall a b, no_space (a ++ b) = no_space a && no_space b.
Proof.
  unfold no_space. induction a as [|c a IH]; intros b; simpl; [reflexivity|].
  rewrite IH. now rewrite andb_assoc.
Qed.

Lemma no_space_reverse : forall s, no_space (JS.reverse s) = no_space s.
Proof.
  induction s as [|c s IH]; [reflexivity|].
  rewrite reverse_cons, no_space_app, IH. unfold no_space at 2 3. simpl.
  rewrite andb_true_r. apply andb_comm.
Qed.

Lemma no_space_tight : forall s, no_space s = true -> tight s = true.
Proof.
  intros s H. unfold tight. apply andb_true_iff. split.
  - destruct s as [|c s]; [reflexivity|]. unfold no_space in H. simpl in H.
    now apply andb_true_iff in H.
  - rewrite <- no_space_reverse in H. destruct (JS.reverse s) as [|c r]; [reflexivity|].
    unfold no_space in H. simpl in H. now apply andb_true_iff in H.
Qed.

Lemma trim_no_space : forall s, no_space s = true -> JS.trim s = s.
Proof. intros s H. now apply trim_tight, no_space_tight. Qed.

Lemma startsWith_app : forall p s, JS.startsWith (p ++ s) p = true.
Proof.
  induction p as [|c p IH]; intros s; simpl; [apply startsWith_empty|].
  now rewrite Ascii.eqb_refl, IH.
Qed.

Lemma endsWith_app : forall s p, JS.endsWith (s ++ p) p = true.
Proof. intros. unfold JS.endsWith. rewrite reverse_app. apply startsWith_app. Qed.

Lemma strip_ends_edges : forall a m b, JS.strip_ends (String a (m ++ JS.ch b)) = m.
Proof.
  intros a m b. unfold JS.strip_ends, JS.substring.
  cbn [String.length]. rewrite length_append. cbn [String.length JS.ch].
  replace (S (String.length m + 1) - 1) with (S (String.length m)) by lia.
  cbn [Nat.ltb Nat.leb]. cbn [JS.drop].
  replace (S (String.length m) - 1) with (String.length m) by lia.
  apply take_app.
Qed.

(* ================================================================== *)
(** * String literals: [parseString] *)
(* ================================================================== *)

Section Escapes.

Lemma parseString_bound : forall n s,
  String.length s <= n ->
  String.length (parseString s) <= String.length s.
Proof.
  induction n as [|n IH]; intros s Hn.
  - destruct s; [simpl; lia|simpl in Hn; lia].
  - destruct s as [|c s]; [simpl; lia|]. cbn [String.length] in Hn.
    cbn [parseString]. destruct (Ascii.eqb c JS.BACKSLASH).
    + destruct s as [|e s'']; [simpl; lia|].
      destruct (escapeSequences e).
      * cbn [String.length] in *. specialize (IH s''). lia.
      * cbn [String.length] in *. specialize (IH (String e s'')).
        cbn [String.length] in IH. lia.
    + cbn [String.length]. specialize (IH s). lia.
Qed.

Lemma parseString_plain : forall s,
  JS.count_char JS.BACKSLASH s = 0 -> parseString s = s.
Proof.
  induction s as [|c s IH]; intros H; [reflexivity|].
  apply count_zero_cons in H. destruct H as [Hc Hs].
  cbn [parseString]. rewrite Hc, (IH Hs). reflexivity.
Qed.

Lemma parseString_written : forall t, parseString (written t) = t.
Proof.
  induction t as [|c t IH]; [reflexivity|].
  cbn [written]. destruct (Ascii.eqb c JS.BACKSLASH) eqn:Hc.
  - apply Ascii.eqb_eq in Hc. subst c. unfold escaped.
    cbn [parseString]. rewrite Ascii.eqb_refl.
    change (escapeSequences JS.BACKSLASH) with (Some JS.BACKSLASH). now rewrite IH.
  - cbn [parseString]. rewrite Hc, IH. reflexivity.
Qed.

Lemma parseString_after_plain : forall pre s,
  JS.count_char JS.BACKSLASH pre = 0 -> parseString (pre ++ s) = pre ++ parseString s.
Proof.
  induction pre as [|c pre IH]; intros s H; [reflexivity|].
  apply count_zero_cons in H. destruct H as [Hc Hs].
  cbn [append parseString]. rewrite Hc, (IH s Hs). reflexivity.
Qed.

(** X3.  [parseString] copies a text up to its first backslash; a backslash
    before [n], [t], [r], a backslash or a quote of either kind is replaced,
    with that character, by the line feed, the tab, the carriage return, the
    backslash or the quote; a backslash before any other character, and one
    at the end of the text, is kept.  So the result is never longer than the
    text, and every text is the value of the literal in which its
    backslashes are doubled. *)
Theorem parseString_escapes :
  (forall s, JS.count_char JS.BACKSLASH s = 0 -> parseString s = s) /\
  (forall pre rest, JS.count_char JS.BACKSLASH pre = 0 ->
     parseString (pre ++ escaped "n" rest) = pre ++ String JS.LF (parseString rest) /\
     parseString (pre ++ escaped "t" rest) = pre ++ String JS.TAB (parseString rest) /\
     parseString (pre ++ escaped "r" rest) = pre ++ String JS.CR (parseString rest) /\
     parseString (pre ++ escaped JS.BACKSLASH rest)
     = pre ++ String JS.BACKSLASH (parseString rest) /\
     parseString (pre ++ escaped JS.DQUOTE rest)
     = pre ++ String JS.DQUOTE (parseString rest) /\
     parseString (pre ++ escaped JS.SQUOTE rest)
     = pre ++ String JS.SQUOTE (parseString rest) /\
     parseString (pre ++ JS.ch JS.BACKSLASH) = pre ++ JS.ch JS.BACKSLASH) /\
  (forall pre e rest, JS.count_char JS.BACKSLASH pre = 0 ->
     JS.mem (JS.ch e) ["n"; "t"; "r"; JS.ch JS.BACKSLASH; dq; sq] = false ->
     parseString (pre ++ escaped e rest)
     = pre ++ String JS.BACKSLASH (parseString (String e rest))) /\
  (forall s, String.length (parseString s) <= String.length s) /\
  (forall t, parseString (written t) = t).
Proof.
  split; [exact parseString_plain|]. split; [|split; [|split]].
  - intros pre rest H. repeat split; now rewrite parseString_after_plain.
  - intros pre e rest H He. rewrite parseString_after_plain by exact H.
    f_equal. unfold escaped. cbn [parseString]. rewrite Ascii.eqb_refl.
    assert (G : escapeSequences e = None).
    { revert He. destruct e as [[] [] [] [] [] [] [] []]; intros He;
        try reflexivity; discriminate He. }
    now rewrite G.
  - intros s. now apply (parseString_bound (String.length s)).
  - exact parseString_written.
Qed.

(** X3 at the body [a\nb\q]: the first backslash and [n] become a line
    feed, the backslash before [q] is kept. *)
Lemma parseString_witness :
  parseString ("a" ++ escaped "n" ("b" ++ escaped "q" ""))
  = "a" ++ String JS.LF ("b" ++ escaped "q" "").
Proof.
  rewrite (proj1 (proj1 (proj2 parseString_escapes) "a" ("b" ++ escaped "q" "") eq_refl)).
  rewrite (proj1 (proj2 (proj2 parseString_escapes)) "b" "q"%char "" eq_refl eq_refl).
  reflexivity.
Defined.

End Escapes.

(* ================================================================== *)
(** * The tokenizer *)
(* ================================================================== *)

Section Tokens.

Lemma flush_tokens : forall cur tokens,
  Forall (fun t => JS.is_empty t = false) tokens ->
  Forall (fun t => JS.is_empty t = false) (snd (flush cur tokens)).
Proof.
  intros cur tokens H. unfold flush.
  destruct (JS.is_empty (JS.trim cur)) eqn:He; [exact H|].
  cbn [snd]. apply Forall_app. split; [exact H|]. constructor; [exact He|constructor].
Qed.

Lemma is_empty_snoc : forall s c, JS.is_empty (s ++ JS.ch c) = false.
Proof. intros [|a s] c; reflexivity. Qed.

Lemma tokenize_loop_nonempty : forall expr prev cur inString q tokens,
  Forall (fun t => JS.is_empty t = false) tokens ->
  Forall (fun t => JS.is_empty t = false) (tokenize_loop expr prev cur inString q tokens).
Proof.
  induction expr as [|c rest IH]; intros prev cur inString q tokens H.
  - cbn [tokenize_loop]. now apply flush_tokens.
  - cbn [tokenize_loop].
    destruct (negb inString && is_quote c); [apply IH; now apply flush_tokens|].
    destruct (inString && Ascii.eqb c q).
    { destruct (Ascii.eqb prev JS.BACKSLASH); [now apply IH|].
      apply IH. apply Forall_app. split; [exact H|].
      constructor; [apply is_empty_snoc|constructor]. }
    destruct inString; [now apply IH|].
    destruct (is_operator_char c || Ascii.eqb c "(" || Ascii.eqb c ")").
    { apply IH. apply Forall_app. split; [now apply flush_tokens|].
      constructor; [reflexivity|constructor]. }
    destruct (JS.is_space c); apply IH; [now apply flush_tokens|exact H].
Qed.

Lemma concat_snoc : forall l s, String.concat "" (l ++ [s]) = String.concat "" l ++ s.
Proof.
  induction l as [|x l IH]; intros s; [reflexivity|].
  destruct l as [|y l'].
  - simpl. reflexivity.
  - change ((x :: y :: l') ++ [s])%list with (x :: (y :: l') ++ [s])%list.
    change (String.concat "" (x :: (y :: l') ++ [s])%list)
      with (x ++ "" ++ String.concat "" ((y :: l') ++ [s])%list).
    rewrite IH. simpl. now rewrite append_assoc.
Qed.

Lemma flush_no_space : forall cur tokens,
  no_space cur = true ->
  fst (flush cur tokens) = "" /\
  String.concat "" (snd (flush cur tokens)) = String.concat "" tokens ++ cur.
Proof.
  intros cur tokens H. unfold flush. rewrite (trim_no_space cur H).
  destruct cur as [|c cur]; cbn [JS.is_empty fst snd].
  - split; [reflexivity|now rewrite append_empty_r].
  - split; [reflexivity|apply concat_snoc].
Qed.

Lemma operator_not_space : forall c,
  is_operator_char c || Ascii.eqb c "(" || Ascii.eqb c ")" = true -> JS.is_space c = false.
Proof.
  intros c H. destruct (JS.is_space c) eqn:Hs; [|reflexivity].
  destruct c as [[] [] [] [] [] [] [] []]; try discriminate Hs; discriminate H.
Qed.

Lemma tokenize_loop_concat : forall expr prev cur q tokens,
  JS.count_char JS.DQUOTE expr = 0 -> JS.count_char JS.SQUOTE expr = 0 ->
  no_space cur = true ->
  String.concat "" (tokenize_loop expr prev cur false q tokens)
  = String.concat "" tokens ++ cur ++ remove_spaces expr.
Proof.
  induction expr as [|c rest IH]; intros prev cur q tokens Hd Hs Hc.
  - cbn [tokenize_loop remove_spaces]. rewrite append_empty_r.
    apply (flush_no_space cur tokens Hc).
  - apply count_zero_cons in Hd. apply count_zero_cons in Hs.
    destruct Hd as [Hd Hd']. destruct Hs as [Hs Hs'].
    cbn [tokenize_loop remove_spaces negb andb]. unfold is_quote. rewrite Hd, Hs.
    cbn [orb].
    destruct (flush_no_space cur tokens Hc) as [Ef Et].
    destruct (is_operator_char c || Ascii.eqb c "(" || Ascii.eqb c ")") eqn:Hop.
    + rewrite (operator_not_space c Hop), Ef.
      rewrite (IH c "" q _ Hd' Hs' eq_refl), concat_snoc, Et.
      rewrite !append_assoc. reflexivity.
    + destruct (JS.is_space c) eqn:Hsp.
      * rewrite Ef, (IH c "" q _ Hd' Hs' eq_refl), Et, append_assoc. reflexivity.
      * rewrite (IH c _ q _ Hd' Hs').
        -- rewrite append_assoc. reflexivity.
        -- rewrite no_space_app, Hc. unfold no_space. simpl. now rewrite Hsp.
Qed.

Lemma tokenize_loop_quoted : forall body prev x,
  JS.count_char JS.DQUOTE body = 0 ->
  tokenize_loop (body ++ dq) prev (String JS.DQUOTE x) true JS.DQUOTE []
  = [String JS.DQUOTE x ++ body ++ dq].
Proof.
  induction body as [|c body IH]; intros prev x H.
  - cbn [append dq JS.ch tokenize_loop negb andb]. rewrite Ascii.eqb_refl.
    destruct (Ascii.eqb prev JS.BACKSLASH); cbn [tokenize_loop app]; [|reflexivity].
    unfold flush. rewrite trim_tight by (now apply tight_edges). reflexivity.
  - apply count_zero_cons in H. destruct H as [Hc Hb].
    cbn [append tokenize_loop negb andb]. rewrite Hc.
    change (String JS.DQUOTE x ++ JS.ch c) with (String JS.DQUOTE (x ++ JS.ch c)).
    rewrite (IH c (x ++ JS.ch c) Hb). cbn [append]. rewrite append_assoc. reflexivity.
Qed.

(** X4.  [tokenizeExpression] never yields an empty token; on a text with
    no quote character it loses nothing but whitespace; a double-quoted text
    with no double quote inside is one token, whatever else it holds. *)
Theorem tokenizeExpression_tokens :
  (forall expr, Forall (fun t => JS.is_empty t = false) (tokenizeExpression expr)) /\
  (forall expr,
     JS.count_char JS.DQUOTE expr = 0 -> JS.count_char JS.SQUOTE expr = 0 ->
     String.concat "" (tokenizeExpression expr) = remove_spaces expr) /\
  (forall body, JS.count_char JS.DQUOTE body = 0 ->
     tokenizeExpression (quote body) = [quote body]).
Proof.
  split; [|split].
  - intros expr. apply tokenize_loop_nonempty. constructor.
  - intros expr Hd Hs. unfold tokenizeExpression.
    now rewrite (tokenize_loop_concat expr _ "" _ [] Hd Hs eq_refl).
  - intros body H. unfold tokenizeExpression, quote.
    change (dq ++ body ++ dq) with (String JS.DQUOTE (body ++ dq)).
    cbn [tokenize_loop negb andb]. change (is_quote JS.DQUOTE) with true. cbn iota.
    change (snd (flush "" [])) with (@nil string).
    change (JS.ch JS.DQUOTE) with (String JS.DQUOTE "").
    now rewrite (tokenize_loop_quoted body JS.DQUOTE "" H).
Qed.

(** X4 at an expression with an operand in quotes. *)
Lemma tokenizeExpression_witness :
  String.concat "" (tokenizeExpression "a + b*( c -1)") = "a+b*(c-1)" /\
  tokenizeExpression (quote "x - y") = [quote "x - y"].
Proof.
  split.
  - apply (proj1 (proj2 tokenizeExpression_tokens) "a + b*( c -1)"); reflexivity.
  - apply (proj2 (proj2 tokenizeExpression_tokens) "x - y"). reflexivity.
Defined.

End Tokens.

(* ================================================================== *)
(** * Key and value of a line *)
(* ================================================================== *)

Section KeyValue.

Lemma splitKeyValue_loop_first : forall key prev q before value,
  JS.count_char "=" key = 0 ->
  JS.count_char JS.DQUOTE key = 0 -> JS.count_char JS.SQUOTE key = 0 ->
  splitKeyValue_loop (key ++ "=" ++ value) prev false q before
  = Some (JS.trim (before ++ key), JS.trim value).
Proof.
  induction key as [|c key IH]; intros prev q before value He Hd Hs.
  - cbn [append splitKeyValue_loop negb andb]. now rewrite append_empty_r.
  - apply count_zero_cons in He. apply count_zero_cons in Hd. apply count_zero_cons in Hs.
    destruct He as [He He']. destruct Hd as [Hd Hd']. destruct Hs as [Hs Hs'].
    cbn [append splitKeyValue_loop negb andb]. unfold is_quote. rewrite Hd, Hs, He.
    cbn [orb]. rewrite (IH c q _ value He' Hd' Hs'), append_assoc. reflexivity.
Qed.

Lemma splitKeyValue_loop_inside : forall body prev before rest,
  JS.count_char JS.DQUOTE body = 0 -> JS.count_char JS.BACKSLASH body = 0 ->
  prev <> JS.BACKSLASH ->
  splitKeyValue_loop (body ++ dq ++ rest) prev true JS.DQUOTE before
  = splitKeyValue_loop rest JS.DQUOTE false JS.DQUOTE (before ++ body ++ dq).
Proof.
  induction body as [|c body IH]; intros prev before rest Hd Hb Hp.
  - cbn [append dq JS.ch splitKeyValue_loop negb andb]. rewrite Ascii.eqb_refl.
    apply Ascii.eqb_neq in Hp. rewrite Hp. reflexivity.
  - apply count_zero_cons in Hd. apply count_zero_cons in Hb.
    destruct Hd as [Hd Hd']. destruct Hb as [Hb Hb'].
    cbn [append splitKeyValue_loop negb andb]. rewrite Hd. cbn [andb].
    rewrite (IH c _ rest Hd' Hb').
    + now rewrite append_assoc.
    + intros ->. now rewrite Ascii.eqb_refl in Hb.
Qed.

Lemma splitKeyValue_loop_none : forall line prev inString q before,
  JS.count_char "=" line = 0 ->
  splitKeyValue_loop line prev inString q before = None.
Proof.
  induction line as [|c line IH]; intros prev inString q before H; [reflexivity|].
  apply count_zero_cons in H. destruct H as [Hc Hl].
  cbn [splitKeyValue_loop]. rewrite Hc, andb_false_r.
  destruct (negb inString && is_quote c); [now apply IH|].
  destruct (inString && Ascii.eqb c q && negb (Ascii.eqb prev JS.BACKSLASH)); now apply IH.
Qed.

(** X5.  [_splitKeyValue] cuts a line at its first equals sign outside
    quotes and trims both sides, so the value may hold equals signs; an
    equals sign inside a double-quoted key is not a cut; a line with no
    equals sign is a Syntax error that shows the line. *)
Theorem splitKeyValue_first_equals :
  (forall key value,
     JS.count_char "=" key = 0 ->
     JS.count_char JS.DQUOTE key = 0 -> JS.count_char JS.SQUOTE key = 0 ->
     splitKeyValue (key ++ "=" ++ value) = Ok (JS.trim key, JS.trim value)) /\
  (forall body value,
     JS.count_char JS.DQUOTE body = 0 -> JS.count_char JS.BACKSLASH body = 0 ->
     splitKeyValue (quote body ++ "=" ++ value) = Ok (quote body, JS.trim value)) /\
  (forall line, JS.count_char "=" line = 0 ->
     splitKeyValue line = Throw (UCLSyntaxError ("Invalid key-value syntax: " ++ line))).
Proof.
  split; [|split].
  - intros key value He Hd Hs. unfold splitKeyValue.
    now rewrite (splitKeyValue_loop_first key _ _ "" value He Hd Hs).
  - intros body value Hd Hb. unfold splitKeyValue, quote.
    rewrite !append_assoc.
    change (dq ++ body ++ dq ++ "=" ++ value)
      with (String JS.DQUOTE (body ++ dq ++ "=" ++ value)).
    cbn [splitKeyValue_loop negb andb]. change (is_quote JS.DQUOTE) with true. cbn iota.
    rewrite (splitKeyValue_loop_inside body JS.DQUOTE _ _ Hd Hb) by discriminate.
    cbn [append splitKeyValue_loop negb andb is_quote].
    change (is_quote "=") with false. cbn iota. cbn [Ascii.eqb Bool.eqb].
    rewrite trim_tight; [reflexivity|].
    change ("" ++ JS.ch JS.DQUOTE) with (JS.ch JS.DQUOTE).
    change ((JS.ch JS.DQUOTE ++ body ++ dq)) with (String JS.DQUOTE (body ++ JS.ch JS.DQUOTE)).
    now apply tight_edges.
  - intros line H. unfold splitKeyValue.
    now rewrite (splitKeyValue_loop_none line _ _ _ _ H).
Qed.

(** X5 at a line whose value holds an equals sign. *)
Lemma splitKeyValue_witness :
  splitKeyValue ("url " ++ "=" ++ " http://host/?a=b") = Ok ("url", "http://host/?a=b") /\
  splitKeyValue "no separator"
  = Throw (UCLSyntaxError "Invalid key-value syntax: no separator").
Proof.
  split.
  - apply (proj1 splitKeyValue_first_equals "url " " http://host/?a=b"); reflexivity.
  - apply (proj2 (proj2 splitKeyValue_first_equals) "no separator"). reflexivity.
Defined.

End KeyValue.

(* ================================================================== *)
(** * Writes and reads of the Document *)
(* ================================================================== *)

Section Document.

Lemma set_name_twice : forall (V : Type) k (v1 v2 : V) o,
  Obj.set_name k v2 (Obj.set_name k v1 o) = Obj.set_name k v2 o.
Proof.
  induction o as [|[k' v'] o IH]; simpl.
  - now rewrite String.eqb_refl.
  - destruct (String.eqb k k') eqn:Hk; simpl.
    + now rewrite String.eqb_refl.
    + now rewrite Hk, IH.
Qed.

Lemma set_index_twice : forall (V : Type) i k (v1 v2 : V) o,
  Obj.set_index i k v2 (Obj.set_index i k v1 o) = Obj.set_index i k v2 o.
Proof.
  induction o as [|[k' v'] o IH]; simpl.
  - now rewrite String.eqb_refl.
  - destruct (String.eqb k k') eqn:Hk; simpl.
    + now rewrite String.eqb_refl.
    + destruct (Obj.array_index k') as [j|] eqn:Hj.
      * destruct (i <? j)%Z eqn:Hij; simpl.
        -- now rewrite String.eqb_refl.
        -- now rewrite Hk, Hj, Hij, IH.
      * simpl. now rewrite String.eqb_refl.
Qed.

Lemma set_twice : forall (V : Type) k (v1 v2 : V) o,
  Obj.set k v2 (Obj.set k v1 o) = Obj.set k v2 o.
Proof.
  intros. unfold Obj.set. destruct (Obj.array_index k).
  - apply set_index_twice.
  - apply set_name_twice.
Qed.

Lemma set_path_cons : forall p p' rest value o,
  set_path (p :: p' :: rest) value o
  = Obj.set p (VObj (set_path (p' :: rest) value
                       (match Obj.get p o with Some (VObj o') => o' | _ => [] end))) o.
Proof. reflexivity. Qed.

Lemma set_path_twice : forall parts v1 v2 o,
  set_path parts v2 (set_path parts v1 o) = set_path parts v2 o.
Proof.
  induction parts as [|p rest IH]; intros v1 v2 o; [reflexivity|].
  destruct rest as [|p' rest'].
  - simpl. apply set_twice.
  - rewrite !set_path_cons, get_set, IH. apply set_twice.
Qed.

Lemma plain_parts_cons : forall p rest,
  plain_parts (p :: rest) = true ->
  String.eqb p "hasOwnProperty" = false /\ plain_parts rest = true.
Proof.
  intros p rest H. unfold plain_parts in H. cbn [forallb] in H.
  apply andb_true_iff in H. destruct H as [H1 H2].
  apply andb_true_iff in H1. destruct H1 as [H1 _].
  apply negb_true_iff in H1. now split.
Qed.

Lemma shadowed_set : forall k v o,
  String.eqb k "hasOwnProperty" = false -> shadowed (Obj.set k v o) = shadowed o.
Proof.
  intros k v o H. unfold shadowed. rewrite get_set_other; [reflexivity|].
  intros ->. discriminate H.
Qed.

(** A write along plain parts keeps [hasOwnProperty] callable on its way. *)
Lemma callable_set_path : forall parts value o,
  plain_parts parts = true -> callable (VObj o) parts = true ->
  callable (VObj (set_path parts value o)) parts = true.
Proof.
  induction parts as [|p rest IH]; intros value o Hp Hc; [reflexivity|].
  apply plain_parts_cons in Hp. destruct Hp as [Hk Hrest].
  cbn [callable] in Hc. apply andb_true_iff in Hc. destruct Hc as [Hs Hc].
  destruct rest as [|p' rest'].
  - cbn [set_path callable]. rewrite shadowed_set, Hs, get_set by exact Hk.
    destruct value; reflexivity.
  - rewrite set_path_cons. cbn [callable].
    rewrite shadowed_set, Hs, get_set by exact Hk. cbn [andb].
    apply IH; [exact Hrest|].
    destruct (Obj.get p o) as [[| | | | |o']|]; try reflexivity. exact Hc.
Qed.

Lemma assigned_on_trail : forall parts current st l k,
  In (l, k) (assigned parts current st) -> In l (trail parts current st).
Proof.
  induction parts as [|p rest IH]; intros current st l k H; [destruct H|].
  destruct rest as [|p' rest'].
  - cbn [assigned trail] in *. destruct H as [H|[]]. inversion H. now left.
  - change (assigned (p :: p' :: rest') current st)
      with (match Obj.get p (Shared.object_at st current) with
            | Some (Shared.SRef next) => assigned (p' :: rest') next st
            | _ => (current, p) ::
                   assigned (p' :: rest') (List.length st)
                     (Shared.assign_at current p (Shared.SRef (List.length st)) st ++ [[]])%list
            end) in H.
    change (trail (p :: p' :: rest') current st)
      with (current ::
            match Obj.get p (Shared.object_at st current) with
            | Some (Shared.SRef next) => trail (p' :: rest') next st
            | _ => trail (p' :: rest') (List.length st)
                     (Shared.assign_at current p (Shared.SRef (List.length st)) st ++ [[]])%list
            end).
    destruct (Obj.get p (Shared.object_at st current)) as [[| | | | |next]|];
      try (destruct H as [H|H]; [inversion H; now left|right; eapply IH; exact H]).
    right. eapply IH. exact H.
Qed.

(** A property that a write does not assign keeps its value, in every
    object of the store. *)
Lemma set_path_frame : forall parts value current st l k,
  Shared.closed st -> current < List.length st ->
  ~ In (l, k) (assigned parts current st) ->
  Obj.get k (Shared.object_at (Shared.set_path parts value current st) l)
  = Obj.get k (Shared.object_at st l).
Proof.
  induction parts as [|p rest IH]; intros value current st l k Hc Hl Hn; [reflexivity|].
  destruct rest as [|p' rest'].
  - cbn [Shared.set_path assigned] in *. rewrite get_assign by exact Hl.
    destruct (Nat.eqb current l && String.eqb p k) eqn:E; [|reflexivity].
    apply andb_true_iff in E. destruct E as [E1 E2].
    apply Nat.eqb_eq in E1. apply String.eqb_eq in E2. subst. exfalso. apply Hn. now left.
  - rewrite shared_set_path_step.
    change (assigned (p :: p' :: rest') current st)
      with (match Obj.get p (Shared.object_at st current) with
            | Some (Shared.SRef next) => assigned (p' :: rest') next st
            | _ => (current, p) ::
                   assigned (p' :: rest') (List.length st)
                     (Shared.assign_at current p (Shared.SRef (List.length st)) st ++ [[]])%list
            end) in Hn.
    assert (Hcreate :
      ~ In (l, k) ((current, p) ::
                   assigned (p' :: rest') (List.length st)
                     (Shared.assign_at current p (Shared.SRef (List.length st)) st ++ [[]])%list) ->
      Obj.get k (Shared.object_at
                   (Shared.set_path (p' :: rest') value (List.length st)
                      (Shared.assign_at current p (Shared.SRef (List.length st)) st ++ [[]])%list) l)
      = Obj.get k (Shared.object_at st l)).
    { intros Hn'. rewrite IH.
      - destruct (Nat.lt_ge_cases l (List.length st)) as [Hin|Hout].
        + rewrite object_at_grown by now rewrite assign_at_length.
          rewrite get_assign by exact Hl.
          destruct (Nat.eqb current l && String.eqb p k) eqn:E; [|reflexivity].
          apply andb_true_iff in E. destruct E as [E1 E2].
          apply Nat.eqb_eq in E1. apply String.eqb_eq in E2. subst.
          exfalso. apply Hn'. now left.
        + rewrite (object_at_outside st l Hout).
          destruct (Nat.eq_dec l (List.length st)) as [->|Hne].
          * rewrite <- (assign_at_length current p (Shared.SRef (List.length st)) st) at 2.
            now rewrite object_at_fresh.
          * rewrite object_at_outside; [reflexivity|].
            rewrite length_app, assign_at_length. simpl. lia.
      - now apply closed_create.
      - rewrite length_app, assign_at_length. simpl. lia.
      - intros H. apply Hn'. now right. }
    destruct (Obj.get p (Shared.object_at st current)) as [[| | | | |next]|] eqn:Hg;
      try (apply Hcreate; exact Hn).
    apply IH; [exact Hc|exact (Hc _ _ _ Hg)|exact Hn].
Qed.

(** A walk that reads no assigned property ends where it ended. *)
Lemma walk_frame : forall (st st' : Shared.Store) parts current,
  (forall l k, In (l, k) (visited st current parts) ->
     Obj.get k (Shared.object_at st' l) = Obj.get k (Shared.object_at st l)) ->
  Shared.walk st' current parts = Shared.walk st current parts.
Proof.
  induction parts as [|p rest IH]; intros current H; [reflexivity|].
  destruct current as [| | | | |l]; try reflexivity.
  cbn [Shared.walk Shared.child visited] in *.
  rewrite (H l p) by now left.
  destruct (Obj.get p (Shared.object_at st l)) as [v|]; [|reflexivity].
  apply IH. intros l' k' Hin. apply H. now right.
Qed.

(** What is written is read back when the walk of the path meets no object
    twice. *)
Lemma walk_set_path_once : forall parts value current st,
  Shared.closed st -> current < List.length st -> parts <> [] ->
  NoDup (trail parts current st) ->
  Shared.walk (Shared.set_path parts value current st) (Shared.SRef current) parts
  = Some value.
Proof.
  induction parts as [|p rest IH]; intros value current st Hc Hl Hne Hnd; [congruence|].
  destruct rest as [|p' rest'].
  - cbn [Shared.set_path Shared.walk Shared.child]. rewrite get_assign by exact Hl.
    now rewrite Nat.eqb_refl, String.eqb_refl.
  - change (trail (p :: p' :: rest') current st)
      with (current ::
            match Obj.get p (Shared.object_at st current) with
            | Some (Shared.SRef next) => trail (p' :: rest') next st
            | _ => trail (p' :: rest') (List.length st)
                     (Shared.assign_at current p (Shared.SRef (List.length st)) st ++ [[]])%list
            end) in Hnd.
    apply NoDup_cons_iff in Hnd. destruct Hnd as [Hnot Hrest].
    rewrite shared_set_path_step.
    assert (Hcreate :
      ~ In current (trail (p' :: rest') (List.length st)
                      (Shared.assign_at current p (Shared.SRef (List.length st)) st ++ [[]])%list) ->
      NoDup (trail (p' :: rest') (List.length st)
               (Shared.assign_at current p (Shared.SRef (List.length st)) st ++ [[]])%list) ->
      Shared.walk (Shared.set_path (p' :: rest') value (List.length st)
                     (Shared.assign_at current p (Shared.SRef (List.length st)) st ++ [[]])%list)
                  (Shared.SRef current) (p :: p' :: rest') = Some value).
    { intros Hnot' Hnd'.
      assert (Hc1 : Shared.closed
                      (Shared.assign_at current p (Shared.SRef (List.length st)) st ++ [[]])%list)
        by now apply closed_create.
      assert (Hl1 : List.length st
                    < List.length (Shared.assign_at current p (Shared.SRef (List.length st)) st
                                   ++ [[]])%list)
        by (rewrite length_app, assign_at_length; simpl; lia).
      cbn [Shared.walk Shared.child].
      rewrite set_path_frame; [|exact Hc1|exact Hl1|].
      - rewrite object_at_grown by now rewrite assign_at_length.
        rewrite get_assign by exact Hl. rewrite Nat.eqb_refl, String.eqb_refl. cbn [andb].
        apply IH; [exact Hc1|exact Hl1|discriminate|exact Hnd'].
      - intros Hin. apply Hnot'. eapply assigned_on_trail. exact Hin. }
    destruct (Obj.get p (Shared.object_at st current)) as [[| | | | |next]|] eqn:Hg;
      try (apply Hcreate; assumption).
    cbn [Shared.walk Shared.child].
    rewrite set_path_frame; [|exact Hc|exact (Hc _ _ _ Hg)|].
    + rewrite Hg. apply IH; [exact Hc|exact (Hc _ _ _ Hg)|discriminate|exact Hrest].
    + intros Hin. apply Hnot. eapply assigned_on_trail. exact Hin.
Qed.

(** X6.  A value written by [_setNestedValue] is what the reference made of
    the section path and the key resolves to, and what [_getNestedValue]
    finds at the path; writing twice at one path leaves the Document that
    the last write alone gives, so the order of the keys does not change.
    This is stated for Documents in which no object is held at two places (a
    tree), for paths with no part [hasOwnProperty] or [__proto__], and where
    [hasOwnProperty] is the method of [Object.prototype] on the objects of
    the path (first four parts).  In a Document where objects are held at
    several places (a store), what is written at a path is found at that
    path when the walk of the write meets no object twice (last part). *)
Theorem write_then_read :
  (forall (st : State) (key ref : string) (value : UCLValue),
     JS.split "." ref = (currentSection st ++ [key])%list ->
     plain_parts (currentSection st ++ [key]) = true ->
     callable (VObj (config st)) (currentSection st ++ [key]) = true ->
     resolveSimpleReference ref (config (setNestedValue st key value)) (currentSection st)
     = Ok value) /\
  (forall (path : string) (value : UCLValue) (cfg : UCLObject),
     plain_path path = true -> callable (VObj cfg) (JS.split "." path) = true ->
     getNestedValue (setNestedValueByPath path value cfg) path = Ok value) /\
  (forall (st : State) (key : string) (v1 v2 : UCLValue),
     own_names (currentSection st ++ [key]) = true ->
     setNestedValue (setNestedValue st key v1) key v2 = setNestedValue st key v2) /\
  (forall (path : string) (v1 v2 : UCLValue) (cfg : UCLObject),
     own_names (JS.split "." path) = true ->
     setNestedValueByPath path v2 (setNestedValueByPath path v1 cfg)
     = setNestedValueByPath path v2 cfg) /\
  (forall (path : string) (value : Shared.SValue) (root : Shared.loc) (st : Shared.Store),
     Shared.closed st -> root < List.length st ->
     callable_store st -> plain_path path = true ->
     NoDup (trail (JS.split "." path) root st) ->
     Shared.path_value (Shared.set_path (JS.split "." path) value root st) root path
     = Some value).
Proof.
  split; [|split; [|split; [|split]]].
  - intros st key ref value H Hp Hc. unfold resolveSimpleReference.
    rewrite H. cbn [setNestedValue config].
    assert (Hw : walk (VObj (set_path (currentSection st ++ [key]) value (config st)))
                      (currentSection st ++ [key]) = Some value).
    { apply walk_set_path. destruct (currentSection st); discriminate. }
    rewrite resolveSimple_loop_walk.
    + now rewrite Hw.
    + now apply callable_set_path.
    + rewrite Hw. discriminate.
  - intros path value cfg Hp Hc. unfold getNestedValue, setNestedValueByPath.
    rewrite getNested_loop_walk by now apply callable_set_path.
    rewrite walk_set_path; [reflexivity|apply split_not_nil].
  - intros st key v1 v2 _. unfold setNestedValue. cbn [config currentSection defaults].
    now rewrite set_path_twice.
  - intros path v1 v2 cfg _. apply set_path_twice.
  - intros path value root st Hc Hl _ _ Hnd. unfold Shared.path_value.
    apply walk_set_path_once; [exact Hc|exact Hl|apply split_not_nil|exact Hnd].
Qed.

(** X6 at a key written in a section and read back by its full path, and at
    the store where [a] and [b] are one object: what is written at [a.y.z]
    is found there. *)
Lemma write_then_read_witness :
  resolveSimpleReference "Database.port"
    (config (setNestedValue database_state "port" (VNum (JS.num 5432))))
    (currentSection database_state)
  = Ok (VNum (JS.num 5432)) /\
  Shared.path_value
    (Shared.set_path (JS.split "." "a.y.z") (Shared.SStr "v") 0 Shared.aliased) 0 "a.y.z"
  = Some (Shared.SStr "v").
Proof.
  split.
  - apply (proj1 write_then_read database_state "port" "Database.port"); reflexivity.
  - apply (proj2 (proj2 (proj2 (proj2 write_then_read)))).
    + intros l k l' H. destruct l as [|[|l]].
      * cbn in H. destruct (String.eqb k "a"); [inversion H; cbn; lia|].
        destruct (String.eqb k "b"); [inversion H; cbn; lia|discriminate H].
      * cbn in H. destruct (String.eqb k "x"); discriminate H.
      * cbn in H. destruct l; discriminate H.
    + cbn. lia.
    + intros [|[|[|l]]]; reflexivity.
    + reflexivity.
    + cbn. repeat constructor; cbn; intuition discriminate.
Defined.

(** X7.  A write assigns the last key in the object where its walk arrives
    and, on the way, the part at which it creates an object; every other
    property of every object keeps its value, also in a Document where
    objects are held at several places.  So a path whose walk reads none of
    the assigned properties holds after the write what it held before; two
    paths that lead to one object do read the same properties, and there
    the write at one shows at the other.  This is stated for paths with no
    part [hasOwnProperty] or [__proto__], in a store where no object has a
    property [hasOwnProperty]. *)
Theorem write_frame :
  forall (p : string) (value : Shared.SValue) (root : Shared.loc) (st : Shared.Store),
    Shared.closed st -> root < List.length st ->
    callable_store st -> plain_path p = true ->
    (forall l k, ~ In (l, k) (assigned (JS.split "." p) root st) ->
       Obj.get k (Shared.object_at (Shared.set_path (JS.split "." p) value root st) l)
       = Obj.get k (Shared.object_at st l)) /\
    (forall q : string,
       (forall slot, In slot (visited st (Shared.SRef root) (JS.split "." q)) ->
          ~ In slot (assigned (JS.split "." p) root st)) ->
       Shared.path_value (Shared.set_path (JS.split "." p) value root st) root q
       = Shared.path_value st root q).
Proof.
  intros p value root st Hc Hl _ _. split.
  - intros l k Hn. now apply set_path_frame.
  - intros q H. unfold Shared.path_value. apply walk_frame.
    intros l k Hin. apply set_path_frame; [exact Hc|exact Hl|]. now apply H.
Qed.

(** X7 at the store where [a] and [b] are one object: a write at [a.y]
    leaves [b.x] as it was, and shows at [b.y]. *)
Lemma write_frame_witness :
  Shared.path_value
    (Shared.set_path (JS.split "." "a.y") (Shared.SStr "v") 0 Shared.aliased) 0 "b.x"
  = Shared.path_value Shared.aliased 0 "b.x" /\
  Shared.path_value
    (Shared.set_path (JS.split "." "a.y") (Shared.SStr "v") 0 Shared.aliased) 0 "b.y"
  = Some (Shared.SStr "v").
Proof.
  split; [|reflexivity].
  apply (proj2 (write_frame "a.y" (Shared.SStr "v") 0 Shared.aliased
                  ltac:(intros l k l' H; destruct l as [|[|l]];
                        [cbn in H; destruct (String.eqb k "a"); [inversion H; cbn; lia|];
                         destruct (String.eqb k "b"); [inversion H; cbn; lia|discriminate H]
                        |cbn in H; destruct (String.eqb k "x"); discriminate H
                        |cbn in H; destruct l; discriminate H])
                  ltac:(cbn; lia)
                  ltac:(intros [|[|[|l]]]; reflexivity)
                  eq_refl)).
  intros slot Hin Hw. cbn in Hin, Hw.
  destruct Hw as [Hw|[]]. subst slot.
  destruct Hin as [Hin|[Hin|[]]]; discriminate Hin.
Defined.

End Document.

(* ================================================================== *)
(** * Conversions *)
(* ================================================================== *)

Section ConversionResults.

Lemma floor_integral : forall z : Z, JS.Math_floor (inject_Z z) = inject_Z z.
Proof. intros z. unfold JS.Math_floor. now rewrite Qfloor_Z. Qed.

Lemma floor_floor : forall q, JS.Math_floor (JS.Math_floor q) = JS.Math_floor q.
Proof. intros q. unfold JS.Math_floor at 2. apply floor_integral. Qed.

(** X8.  A conversion that succeeds yields a value of the target type, and
    converting that value again changes nothing; [.string] succeeds on every
    value that [String] prints, which leaves out the objects with a property
    [toString] of their own and the arrays that hold one; a target that is
    none of the four names is a Type error. *)
Theorem convertType_result :
  (forall (v w : UCLValue) (t : string),
     convertType v t = Ok w -> has_type t w = true /\ convertType w t = Ok w) /\
  (forall v, printable v = true -> exists s, convertType v "string" = Ok (VStr s)) /\
  (forall (v : UCLValue) (t : string),
     JS.mem t type_suffixes = false ->
     convertType v t = Throw (UCLTypeError ("Unknown target type: " ++ t))).
Proof.
  split; [|split].
  - intros v w t H. unfold convertType in H.
    destruct (String.eqb t "int") eqn:Hi.
    { apply String.eqb_eq in Hi. subst t.
      assert (G : forall q, w = VNum (JS.Math_floor q) ->
                  has_type "int" w = true /\ convertType w "int" = Ok w).
      { intros q ->. split; [reflexivity|]. cbn. now rewrite floor_floor. }
      destruct v as [|b|q|s|l|o]; try discriminate H.
      - injection H as <-. apply (G (JS.num 0)). unfold JS.num. now rewrite floor_integral.
      - injection H as <-. now apply (G q).
      - destruct (JS.finite (JS.Number s)) as [q|]; [|discriminate H].
        injection H as <-. now apply (G q). }
    destruct (String.eqb t "float") eqn:Hf.
    { apply String.eqb_eq in Hf. subst t.
      destruct v as [|b|q|s|l|o]; try discriminate H.
      - injection H as <-. split; reflexivity.
      - injection H as <-. split; reflexivity.
      - destruct (JS.finite (JS.Number s)) as [q|]; [|discriminate H].
        injection H as <-. split; reflexivity. }
    destruct (String.eqb t "string") eqn:Hs.
    { apply String.eqb_eq in Hs. subst t.
      destruct v as [|b|q|s|l|o]; injection H as <-; split; reflexivity. }
    destruct (String.eqb t "bool") eqn:Hb; [|discriminate H].
    apply String.eqb_eq in Hb. subst t.
    destruct v as [|b|q|s|l|o]; try discriminate H.
    + injection H as <-. split; reflexivity.
    + injection H as <-. split; reflexivity.
    + injection H as <-. split; reflexivity.
    + destruct (JS.mem (JS.toLowerCase s) ["true"; "yes"; "1"]).
      * injection H as <-. split; reflexivity.
      * destruct (JS.mem (JS.toLowerCase s) ["false"; "no"; "0"]); [|discriminate H].
        injection H as <-. split; reflexivity.
  - intros v _. destruct v as [|b|q|s|l|o]; eexists; reflexivity.
  - intros v t H. unfold JS.mem, type_suffixes in H. cbn [existsb] in H.
    rewrite !orb_false_iff in H. destruct H as (Hi & Hf & Hs & Hb & _).
    unfold convertType. now rewrite Hi, Hf, Hs, Hb.
Qed.

(** X8 at the text [3.7] converted to an integer, and at an array with an
    object converted to a string. *)
Lemma convertType_witness :
  (has_type "int" (VNum (JS.num 3)) = true /\
   convertType (VNum (JS.num 3)) "int" = Ok (VNum (JS.num 3))) /\
  exists s, convertType (VArr [VNum (JS.num 1); VObj [("a", VNull)]]) "string"
            = Ok (VStr s).
Proof.
  split.
  - apply (proj1 convertType_result (VStr "3.7") (VNum (JS.num 3)) "int").
    vm_compute. reflexivity.
  - apply (proj1 (proj2 convertType_result)). reflexivity.
Defined.

End ConversionResults.

(* ================================================================== *)
(** * Includes *)
(* ================================================================== *)

Section Includes.

Variable h : Host.

Lemma processIncludes_cons : forall d line rest,
  processIncludes h (S d) (line :: rest) =
  if JS.startsWith (JS.trim line) "include " then
    match include_match (JS.trim line) with
    | Some includePath =>
        match readFile h includePath with
        | Some includeContent =>
            bind (processIncludes h d (JS.split JS.LF (removeComments includeContent)))
              (fun included =>
                 bind (processIncludes h (S d) rest)
                   (fun processed => Ok (included ++ processed)%list))
        | None => Throw (UCLError ("Include file not found: " ++ includePath))
        end
    | None => Throw (UCLSyntaxError ("Invalid include syntax: " ++ line))
    end
  else bind (processIncludes h (S d) rest) (fun processed => Ok (line :: processed)).
Proof. reflexivity. Qed.

Lemma processIncludes_nil : forall d, processIncludes h (S d) [] = Ok [].
Proof. reflexivity. Qed.

Lemma processIncludes_plain : forall d pre rest,
  forallb (fun l => negb (include_line l)) pre = true ->
  processIncludes h (S d) (pre ++ rest)%list
  = bind (processIncludes h (S d) rest) (fun processed => Ok (pre ++ processed)%list).
Proof.
  induction pre as [|l pre IH]; intros rest H.
  - cbn [app]. destruct (processIncludes h (S d) rest); reflexivity.
  - cbn [forallb] in H. apply andb_true_iff in H. destruct H as [Hl Hp].
    apply negb_true_iff in Hl. unfold include_line in Hl.
    cbn [app]. rewrite processIncludes_cons, Hl, (IH rest Hp).
    destruct (processIncludes h (S d) rest); reflexivity.
Qed.

Lemma span_run : forall p taken c rest,
  forallb p (list_ascii_of_string taken) = true -> p c = false ->
  span p (taken ++ String c rest) = (taken, String c rest).
Proof.
  induction taken as [|x taken IH]; intros c rest Hr Hc.
  - cbn [append span]. now rewrite Hc.
  - cbn [list_ascii_of_string forallb] in Hr. apply andb_true_iff in Hr.
    destruct Hr as [Hx Hr]. cbn [append span]. now rewrite Hx, (IH c rest Hr Hc).
Qed.

Lemma no_quote_run : forall path,
  JS.count_char JS.DQUOTE path = 0 -> JS.count_char JS.SQUOTE path = 0 ->
  forallb (fun x => negb (is_quote x)) (list_ascii_of_string path) = true.
Proof.
  induction path as [|c path IH]; intros Hd Hs; [reflexivity|].
  apply count_zero_cons in Hd. apply count_zero_cons in Hs.
  destruct Hd as [Hd Hd']. destruct Hs as [Hs Hs'].
  cbn [list_ascii_of_string forallb]. unfold is_quote at 1. rewrite Hd, Hs.
  now rewrite (IH Hd' Hs').
Qed.

Lemma include_directive_line : forall path,
  JS.trim (include_directive path) = include_directive path /\
  include_line (include_directive path) = true.
Proof.
  intros path.
  assert (E : JS.trim (include_directive path) = include_directive path).
  { apply trim_tight.
    replace (include_directive path)
      with (String "i" (("nclude " ++ dq ++ path) ++ JS.ch JS.DQUOTE)).
    - now apply tight_edges.
    - unfold include_directive, quote, dq, JS.ch. cbn [append]. reflexivity. }
  split; [exact E|]. unfold include_line. rewrite E. reflexivity.
Qed.

Lemma include_match_directive : forall path,
  include_path path -> include_match (include_directive path) = Some path.
Proof.
  intros path (Hne & Hd & Hs). unfold include_match, include_directive, quote.
  cbn [append JS.startsWith Ascii.eqb Bool.eqb andb JS.drop span dq JS.ch].
  change (JS.is_space " ") with true. cbn iota.
  change (JS.is_space JS.DQUOTE) with false. cbn iota.
  change (path ++ dq) with (path ++ String JS.DQUOTE "").
  rewrite (span_run (fun x => negb (is_quote x)) path JS.DQUOTE "");
    [|now apply no_quote_run|reflexivity].
  rewrite Hne. reflexivity.
Qed.

End Includes.

(** X9.  [_processIncludes] returns the lines as they are when none is a
    directive; it puts the lines of the named file, comments removed and
    includes resolved, in the place of a directive; a file that the host
    does not have is an error of the base class that names the path, and a
    directive that does not fit the pattern is a Syntax error that shows the
    line. *)
Theorem processIncludes_splices :
  forall (h : Host) (d : nat) (pre post : list string),
    forallb (fun l => negb (include_line l)) pre = true ->
    processIncludes h (S d) pre = Ok pre /\
    (forall path, include_path path ->
       processIncludes h (S d) (pre ++ include_directive path :: post)%list
       = match readFile h path with
         | Some content =>
             bind (processIncludes h d (JS.split JS.LF (removeComments content)))
               (fun included =>
                  bind (processIncludes h (S d) post)
                    (fun processed => Ok (pre ++ included ++ processed)%list))
         | None => Throw (UCLError ("Include file not found: " ++ path))
         end) /\
    (forall line, include_line line = true -> include_match (JS.trim line) = None ->
       processIncludes h (S d) (pre ++ line :: post)%list
       = Throw (UCLSyntaxError ("Invalid include syntax: " ++ line))).
Proof.
  intros h d pre post Hpre. split; [|split].
  - rewrite <- (app_nil_r pre) at 1. rewrite processIncludes_plain by exact Hpre.
    rewrite processIncludes_nil. cbn [bind]. now rewrite app_nil_r.
  - intros path Hpath. rewrite processIncludes_plain by exact Hpre.
    rewrite processIncludes_cons.
    destruct (include_directive_line path) as [Et Hl]. unfold include_line in Hl.
    rewrite Hl, Et, (include_match_directive path Hpath).
    destruct (readFile h path) as [content|]; [|reflexivity].
    destruct (processIncludes h d (JS.split JS.LF (removeComments content)));
      [|reflexivity|reflexivity].
    cbn [bind]. destruct (processIncludes h (S d) post); reflexivity.
  - intros line Hl Hm. rewrite processIncludes_plain by exact Hpre.
    rewrite processIncludes_cons. unfold include_line in Hl. rewrite Hl, Hm. reflexivity.
Qed.

(** X9 at a directive between two lines, on a host with that file. *)
Lemma processIncludes_witness :
  processIncludes (host_with "base.ucl" "port = 1") 2
    (["a = 1"] ++ include_directive "base.ucl" :: ["b = 2"])%list
  = Ok ["a = 1"; "port = 1"; "b = 2"].
Proof.
  destruct (processIncludes_splices (host_with "base.ucl" "port = 1") 1
              ["a = 1"] ["b = 2"] eq_refl) as (_ & H & _).
  rewrite (H "base.ucl"); [reflexivity|]. repeat split.
Defined.

(** X10.  Nothing stops a file that includes itself: when the lines of the
    file, comments removed, hold a directive that names the file, with no
    other directive before it, [_processIncludes] does not return on a
    directive that names it, whatever the number of nested includes
    allowed. *)
Theorem processIncludes_cycle :
  forall (h : Host) (path content : string) (depth : nat)
         (pre post before after : list string),
    include_path path ->
    readFile h path = Some content ->
    JS.split JS.LF (removeComments content)
    = (before ++ include_directive path :: after)%list ->
    forallb (fun l => negb (include_line l)) before = true ->
    forallb (fun l => negb (include_line l)) pre = true ->
    processIncludes h depth (pre ++ include_directive path :: post)%list = OutOfFuel.
Proof.
  intros h path content depth pre post before after Hpath Hfile Hlines Hbefore.
  revert pre post. induction depth as [|d IH]; intros pre post Hpre; [reflexivity|].
  destruct (processIncludes_splices h d pre post Hpre) as (_ & H & _).
  rewrite (H path Hpath), Hfile, Hlines, (IH before after Hbefore). reflexivity.
Qed.

(** X10 at a file [loop.ucl] whose second line includes [loop.ucl]. *)
Lemma processIncludes_cycle_witness :
  processIncludes
    (host_with "loop.ucl" (text ["a = 1"; include_directive "loop.ucl"])) 50
    ([] ++ include_directive "loop.ucl" :: [])%list = OutOfFuel.
Proof.
  apply (processIncludes_cycle
           (host_with "loop.ucl" (text ["a = 1"; include_directive "loop.ucl"]))
           "loop.ucl" (text ["a = 1"; include_directive "loop.ucl"]) 50 [] []
           ["a = 1"] []).
  - repeat split.
  - reflexivity.
  - vm_compute. reflexivity.
  - reflexivity.
  - reflexivity.
Defined.

(* ================================================================== *)
(** * Values that span several lines *)
(* ================================================================== *)

Section Multiline.

Lemma multiline_loop_bound : forall o c following valueStr count consumed,
  consumed <= snd (multiline_loop o c following valueStr count consumed)
  /\ snd (multiline_loop o c following valueStr count consumed)
     <= consumed + List.length following.
Proof.
  induction following as [|l rest IH]; intros valueStr count consumed.
  - cbn [multiline_loop snd List.length]. lia.
  - cbn [multiline_loop List.length]. destruct (0 <? count)%Z; [|cbn [snd]; lia].
    destruct (JS.is_empty (JS.trim l)).
    + specialize (IH valueStr count (S consumed)). lia.
    + match goal with |- context [multiline_loop o c rest ?v ?n (S consumed)] =>
        specialize (IH v n (S consumed)) end. lia.
Qed.

Lemma multiline_loop_closed : forall o c following valueStr count consumed,
  (count <= 0)%Z ->
  multiline_loop o c following valueStr count consumed = (valueStr, consumed).
Proof.
  intros o c [|l rest] valueStr count consumed H; [reflexivity|].
  cbn [multiline_loop]. destruct (Z.ltb_spec 0 count); [lia|reflexivity].
Qed.

Lemma multiline_loop_open : forall o c following valueStr count consumed,
  Forall (fun l => JS.count_char c (JS.trim l) = 0) following ->
  (0 < count)%Z ->
  snd (multiline_loop o c following valueStr count consumed)
  = consumed + List.length following.
Proof.
  induction following as [|l rest IH]; intros valueStr count consumed H Hc.
  - cbn [multiline_loop snd List.length]. lia.
  - inversion H as [|? ? Hl Hrest]; subst.
    cbn [multiline_loop List.length]. destruct (Z.ltb_spec 0 count); [|lia].
    destruct (JS.is_empty (JS.trim l)).
    + rewrite (IH valueStr count (S consumed) Hrest Hc). lia.
    + rewrite IH; [lia|exact Hrest|]. rewrite Hl. lia.
Qed.

(** X11.  [_parseMultilineValue] never takes more lines than follow; a value
    whose first line already closes what it opens takes none and is that
    line, trimmed; a brace that no following line closes takes every line to
    the end of the input, and nothing is raised. *)
Theorem parseMultilineValue_lines :
  (forall following initialValue,
     snd (parseMultilineValue following initialValue) <= List.length following) /\
  (forall following initialValue,
     JS.startsWith (JS.trim initialValue) "{" = true ->
     JS.count_char "{" (JS.trim initialValue) <= JS.count_char "}" (JS.trim initialValue) ->
     parseMultilineValue following initialValue = (JS.trim initialValue, 0)) /\
  (forall following initialValue,
     JS.startsWith (JS.trim initialValue) "{" = true ->
     JS.count_char "}" (JS.trim initialValue) < JS.count_char "{" (JS.trim initialValue) ->
     Forall (fun l => JS.count_char "}" (JS.trim l) = 0) following ->
     snd (parseMultilineValue following initialValue) = List.length following).
Proof.
  split; [|split].
  - intros following initialValue. unfold parseMultilineValue.
    destruct (JS.startsWith (JS.trim initialValue) "{").
    + match goal with |- context [multiline_loop ?o ?c following ?v ?n 0] =>
        pose proof (multiline_loop_bound o c following v n 0) end. lia.
    + destruct (JS.startsWith (JS.trim initialValue) "[").
      * match goal with |- context [multiline_loop ?o ?c following ?v ?n 0] =>
          pose proof (multiline_loop_bound o c following v n 0) end. lia.
      * cbn [snd]. lia.
  - intros following initialValue Hs Hc. unfold parseMultilineValue. rewrite Hs.
    apply multiline_loop_closed. lia.
  - intros following initialValue Hs Hc Hf. unfold parseMultilineValue. rewrite Hs.
    rewrite multiline_loop_open; [reflexivity|exact Hf|lia].
Qed.

(** X11 at an object closed on its first line, and at one that
    is never closed. *)
Lemma parseMultilineValue_witness :
  parseMultilineValue ["next = 1"] "{ }" = ("{ }", 0) /\
  snd (parseMultilineValue ["a"; "b = 2"; "[S]"] "{") = 3.
Proof.
  split.
  - apply (proj1 (proj2 parseMultilineValue_lines) ["next = 1"] "{ }");
      [reflexivity|vm_compute; lia].
  - apply (proj2 (proj2 parseMultilineValue_lines) ["a"; "b = 2"; "[S]"] "{");
      [reflexivity|vm_compute; lia|repeat constructor].
Defined.

End Multiline.

(* ================================================================== *)
(** * An operator with no operand after it *)
(* ================================================================== *)

Section Dangling.

Lemma multiplicative_not_number : forall token,
  multiplicative token = true -> exists e, toNumber token = Throw e.
Proof.
  intros token H. unfold multiplicative in H.
  destruct token as [|b|q|s|l|o]; try discriminate H.
  cbn [is_token] in H.
  destruct (String.eqb s "*") eqn:H1; [apply String.eqb_eq in H1; subst; eexists; reflexivity|].
  destruct (String.eqb s "/") eqn:H2; [apply String.eqb_eq in H2; subst; eexists; reflexivity|].
  destruct (String.eqb s "%") eqn:H3; [apply String.eqb_eq in H3; subst; eexists; reflexivity|].
  discriminate H.
Qed.

Lemma mul_div_pass_dangling : forall n tokens processed op,
  List.length tokens <= n ->
  multiplicative op = true ->
  is_error (mul_div_pass processed (tokens ++ [op])%list).
Proof.
  induction n as [|n IH]; intros tokens processed op Hn Hop.
  - destruct tokens; [|simpl in Hn; lia]. cbn [app mul_div_pass]. rewrite Hop.
    destruct processed as [|l p]; [eexists; reflexivity|].
    destruct (toNumber l) as [q| |] eqn:Hl; cbn [bind].
    + eexists; reflexivity.
    + eexists; reflexivity.
    + destruct l; cbn in Hl; try discriminate Hl.
      destruct (JS.finite (JS.Number s)); discriminate Hl.
  - destruct tokens as [|token rest].
    + apply (IH [] processed op); [simpl; lia|exact Hop].
    + cbn [List.length] in Hn. cbn [app mul_div_pass].
      destruct (multiplicative token) eqn:Hm; [|apply IH; [lia|exact Hop]].
      destruct processed as [|l p]; [eexists; reflexivity|].
      destruct (toNumber l) as [a| |] eqn:Hl; cbn [bind].
      * destruct rest as [|r rest'].
        -- cbn [app]. destruct (multiplicative_not_number op Hop) as [e ->].
           cbn [bind]. eexists; reflexivity.
        -- cbn [app]. destruct (toNumber r) as [b| |] eqn:Hr; cbn [bind].
           ++ cbn [List.length] in Hn.
              destruct (is_token "*" token); [apply IH; [lia|exact Hop]|].
              destruct (is_token "/" token);
                (destruct (JS.num_is_zero b);
                 [eexists; reflexivity|apply IH; [lia|exact Hop]]).
           ++ eexists; reflexivity.
           ++ destruct r; cbn in Hr; try discriminate Hr.
              destruct (JS.finite (JS.Number s)); discriminate Hr.
      * eexists; reflexivity.
      * destruct l; cbn in Hl; try discriminate Hl.
        destruct (JS.finite (JS.Number s)); discriminate Hl.
Qed.

(** X12.  An expression whose last token is [*], [/] or [%] never evaluates
    to a value: whatever comes before, the flat evaluation raises an error.
    After one number the error is the Syntax error of the missing right
    operand.  A trailing [-] after a number is a Type error; a trailing [+]
    after a string appends the text [undefined]. *)
Theorem trailing_operator :
  (forall tokens op, multiplicative op = true ->
     is_error (evaluate_tokens (tokens ++ [op])%list)) /\
  (forall (q : Q) (op : string), multiplicative (VStr op) = true ->
     evaluate_tokens [VNum q; VStr op]
     = Throw (UCLSyntaxError ("Missing right operand for operator '" ++ op ++ "'"))) /\
  (forall q : Q,
     evaluate_tokens [VNum q; VStr "-"]
     = Throw (UCLTypeError "Operand is undefined in subtraction") /\
     evaluate_tokens [VNum q; VStr "+"]
     = Throw (UCLTypeError "Operand is undefined in addition")) /\
  (forall s : string, multiplicative (VStr s) = false -> additive (VStr s) = false ->
     evaluate_tokens [VStr s; VStr "+"] = Ok (VStr (s ++ "undefined"))).
Proof.
  split; [|split; [|split]].
  - intros tokens op Hop. unfold evaluate_tokens.
    destruct (mul_div_pass_dangling (List.length tokens) tokens [] op (le_n _) Hop)
      as [e ->].
    eexists; reflexivity.
  - intros q op Hop. unfold evaluate_tokens. cbn [mul_div_pass multiplicative is_token orb].
    rewrite Hop. reflexivity.
  - intros q. split; reflexivity.
  - intros s Hm Ha. unfold evaluate_tokens. cbn [mul_div_pass]. rewrite Hm.
    cbn [multiplicative is_token String.eqb Ascii.eqb Bool.eqb orb rev app bind add_sub_pass].
    rewrite Ha. cbn. reflexivity.
Qed.

(** X12 at the tokens of [2 * 3 /]. *)
Lemma trailing_operator_witness :
  is_error (evaluate_tokens ([VNum (JS.num 2); VStr "*"; VNum (JS.num 3)] ++ [VStr "/"])%list).
Proof.
  apply (proj1 trailing_operator [VNum (JS.num 2); VStr "*"; VNum (JS.num 3)] (VStr "/")).
  reflexivity.
Defined.

End Dangling.

(* ================================================================== *)
(** * Quoted literals *)
(* ================================================================== *)

Section Literals.

Lemma is_quote_cases : forall q, is_quote q = true -> q = JS.DQUOTE \/ q = JS.SQUOTE.
Proof.
  intros q H. unfold is_quote in H. apply orb_true_iff in H.
  destruct H as [H|H]; apply Ascii.eqb_eq in H; auto.
Qed.

Lemma literal_trim : forall q body, is_quote q = true ->
  JS.trim (literal q body) = literal q body.
Proof.
  intros q body H. apply trim_tight, tight_edges;
    destruct (is_quote_cases q H) as [-> | ->]; reflexivity.
Qed.

Lemma literal_quoted : forall q body, is_quote q = true -> quoted (literal q body) = true.
Proof.
  intros q body H. unfold quoted, literal.
  destruct (is_quote_cases q H) as [-> | ->].
  - replace (String JS.DQUOTE (body ++ JS.ch JS.DQUOTE)) with ((dq ++ body) ++ dq)
      by reflexivity.
    rewrite endsWith_app, append_assoc, startsWith_app. reflexivity.
  - replace (String JS.SQUOTE (body ++ JS.ch JS.SQUOTE)) with ((sq ++ body) ++ sq)
      by reflexivity.
    rewrite endsWith_app, append_assoc, startsWith_app. apply orb_true_r.
Qed.

Lemma containsOperators_loop_inside : forall q body prev,
  JS.count_char q body = 0 ->
  containsOperators_loop (body ++ JS.ch q) prev true q = false.
Proof.
  induction body as [|c body IH]; intros prev H.
  - cbn [append JS.ch containsOperators_loop negb andb]. rewrite Ascii.eqb_refl.
    destruct (Ascii.eqb prev JS.BACKSLASH); reflexivity.
  - apply count_zero_cons in H. destruct H as [Hc Hb].
    cbn [append containsOperators_loop negb andb]. rewrite Hc. cbn [andb].
    now apply IH.
Qed.

Lemma containsOperators_literal : forall q body,
  is_quote q = true -> JS.count_char q body = 0 ->
  containsOperators (literal q body) = false.
Proof.
  intros q body Hq H. unfold containsOperators, literal.
  cbn [containsOperators_loop negb andb]. rewrite Hq.
  now apply containsOperators_loop_inside.
Qed.

Lemma last_split_snoc : forall c d s, Ascii.eqb d c = false ->
  exists x, last (JS.split c (s ++ JS.ch d)) "" = x ++ JS.ch d.
Proof.
  intros c d s Hd. induction s as [|a s [x IH]].
  - exists "". cbn [append JS.ch JS.split]. rewrite Hd. reflexivity.
  - cbn [append JS.split].
    destruct (JS.split c (s ++ JS.ch d)) as [|y rest] eqn:Hs.
    { now apply split_not_nil in Hs. }
    destruct (Ascii.eqb a c).
    + exists x. exact IH.
    + destruct rest as [|z rest'].
      * exists (String a x). cbn [last] in *. now rewrite IH.
      * exists x. exact IH.
Qed.

Lemma toLowerCase_app : forall a b,
  JS.toLowerCase (a ++ b) = JS.toLowerCase a ++ JS.toLowerCase b.
Proof. induction a as [|c a IH]; intros b; simpl; [reflexivity|now rewrite IH]. Qed.

Lemma not_suffix_name : forall q y, is_quote q = true ->
  JS.mem (y ++ JS.ch q) type_suffixes = false.
Proof.
  intros q y Hq.
  assert (G : forall w c r, JS.reverse w = String c r -> is_quote c = false ->
              String.eqb (y ++ JS.ch q) w = false).
  { intros w c r Hw Hc. destruct (String.eqb (y ++ JS.ch q) w) eqn:He; [|reflexivity].
    apply String.eqb_eq in He. rewrite <- He, reverse_app in Hw.
    cbn in Hw. injection Hw as -> _. congruence. }
  unfold JS.mem, type_suffixes. cbn [existsb].
  rewrite (G "int" "t"%char "ni"), (G "float" "t"%char "aolf"),
    (G "string" "g"%char "nirts"), (G "bool" "l"%char "oob"); reflexivity.
Qed.

Lemma conversion_suffix_literal : forall E q body, is_quote q = true ->
  conversion_suffix E (literal q body) = None.
Proof.
  intros E q body Hq. unfold conversion_suffix.
  destruct (JS.includes (literal q body) "." && negb (isSimpleLiteral E (literal q body)));
    [|reflexivity].
  destruct (1 <? List.length (JS.split "." (literal q body)))%nat; [|reflexivity].
  destruct (last_split_snoc "." q (String q body)) as [x Hx].
  { destruct (is_quote_cases q Hq) as [-> | ->]; reflexivity. }
  unfold literal. cbn [append] in Hx. rewrite Hx, toLowerCase_app.
  replace (JS.toLowerCase (JS.ch q)) with (JS.ch q)
    by (destruct (is_quote_cases q Hq) as [-> | ->]; reflexivity).
  now rewrite not_suffix_name.
Qed.

Lemma literal_head : forall q body p c r, is_quote q = true ->
  p = String c r -> is_quote c = false ->
  JS.startsWith (literal q body) p = false.
Proof.
  intros q body p c r Hq -> Hc. unfold literal. cbn [JS.startsWith].
  destruct (Ascii.eqb c q) eqn:He; [|reflexivity].
  apply Ascii.eqb_eq in He. congruence.
Qed.

Lemma literal_not_word : forall q body w c r, is_quote q = true ->
  w = String c r -> is_quote c = false ->
  String.eqb (JS.toLowerCase (literal q body)) w = false.
Proof.
  intros q body w c r Hq -> Hc. unfold literal. cbn [JS.toLowerCase String.eqb].
  replace (JS.lower_char q) with q
    by (destruct (is_quote_cases q Hq) as [-> | ->]; reflexivity).
  destruct (Ascii.eqb q c) eqn:He; [|reflexivity].
  apply Ascii.eqb_eq in He. congruence.
Qed.

(** X13.  A text between two double quotes, or two single quotes, that
    does not hold that quote character is a string literal whatever else it
    holds (operators, dots, brackets, names of types): [_parseValue] returns
    its text with the escape sequences replaced, in both engines. *)
Theorem quoted_literal_value :
  forall (E : Engine) (h : Host) (st : State) (fuel : nat) (q : ascii) (body : string),
    is_quote q = true -> JS.count_char q body = 0 ->
    parseValue E h st (S fuel) (literal q body) = Ok (VStr (parseString body)).
Proof.
  intros E h st fuel q body Hq Hb. cbn [parseValue].
  rewrite (literal_trim q body Hq).
  change (JS.is_empty (literal q body)) with false. cbn iota.
  assert (He : env_match (literal q body) = None).
  { unfold env_match. now rewrite (literal_head q body "$ENV{" "$"%char "ENV{" Hq eq_refl eq_refl). }
  rewrite He, (conversion_suffix_literal E q body Hq),
    (containsOperators_literal q body Hq Hb). cbn [andb].
  assert (Hr : isVariableReference E (literal q body) = false).
  { assert (R : ref_match RStart (literal q body) = false).
    { unfold literal. cbn [ref_match].
      destruct (is_quote_cases q Hq) as [-> | ->]; reflexivity. }
    destruct E; cbn [isVariableReference]; [|exact R].
    destruct (isSimpleLiteral Monolith (literal q body)); [reflexivity|exact R]. }
  rewrite Hr, andb_false_r. unfold parseSimpleValue.
  rewrite (literal_trim q body Hq).
  rewrite (literal_not_word q body "null" "n"%char "ull" Hq eq_refl eq_refl).
  unfold JS.mem. cbn [existsb].
  rewrite (literal_not_word q body "true" "t"%char "rue" Hq eq_refl eq_refl),
    (literal_not_word q body "false" "f"%char "alse" Hq eq_refl eq_refl). cbn [orb].
  rewrite (literal_quoted q body Hq). unfold literal. now rewrite strip_ends_edges.
Qed.

(** X13 at a literal that holds an operator, a dot and a type name. *)
Lemma quoted_literal_witness :
  parseValue Modular no_host initial_state 1 (literal JS.DQUOTE "a - b.int")
  = Ok (VStr "a - b.int").
Proof.
  apply (quoted_literal_value Modular no_host initial_state 0 JS.DQUOTE "a - b.int");
    reflexivity.
Defined.

End Literals.

(* ================================================================== *)
(** * The environment *)
(* ================================================================== *)

Section Environment.




End Environment.

(* ================================================================== *)
(** * Comments *)
(* ================================================================== *)

Section CommentRemoval.

Lemma split_join : forall c s, JS.join (JS.ch c) (JS.split c s) = s.
Proof.
  induction s as [|a s IH]; [reflexivity|].
  cbn [JS.split]. destruct (JS.split c s) as [|x rest] eqn:Hs.
  { now apply split_not_nil in Hs. }
  destruct (Ascii.eqb a c) eqn:Hac.
  - apply Ascii.eqb_eq in Hac. subst a.
    change (JS.join (JS.ch c) ("" :: x :: rest))
      with ("" ++ JS.ch c ++ JS.join (JS.ch c) (x :: rest)).
    rewrite IH. reflexivity.
  - destruct rest as [|y rest'].
    + cbn [JS.join] in *. now rewrite IH.
    + change (JS.join (JS.ch c) (String a x :: y :: rest'))
        with (String a (x ++ JS.ch c ++ JS.join (JS.ch c) (y :: rest'))).
      change (JS.join (JS.ch c) (x :: y :: rest'))
        with (x ++ JS.ch c ++ JS.join (JS.ch c) (y :: rest')) in IH.
      now rewrite IH.
Qed.

Lemma split_head : forall c s x rest,
  JS.split c s = x :: rest -> exists tail, s = x ++ tail.
Proof.
  induction s as [|a s IH]; intros x rest H.
  - cbn in H. injection H as <- _. now exists "".
  - cbn [JS.split] in H. destruct (Ascii.eqb a c).
    + injection H as <- _. now exists (String a s).
    + destruct (JS.split c s) as [|y rest'] eqn:Hs.
      * injection H as <- _. now apply split_not_nil in Hs.
      * injection H as <- _. destruct (IH y rest' eq_refl) as [tail ->].
        now exists tail.
Qed.

Lemma startsWith_longer : forall p s tail,
  JS.startsWith s p = true -> JS.startsWith (s ++ tail) p = true.
Proof.
  induction p as [|a p IH]; intros s tail H; [apply startsWith_empty|].
  destruct s as [|b s]; [discriminate H|]. cbn [append JS.startsWith] in *.
  apply andb_true_iff in H. destruct H as [-> H]. now rewrite (IH s tail H).
Qed.

Lemma split_includes : forall c p s,
  JS.includes s p = false ->
  Forall (fun l => JS.includes l p = false) (JS.split c s).
Proof.
  intros c p. induction s as [|a s IH]; intros H.
  - constructor; [exact H|constructor].
  - apply includes_cons_false in H. destruct H as [Hs Hi].
    specialize (IH Hi). cbn [JS.split].
    destruct (JS.split c s) as [|x rest] eqn:Hsp.
    { now apply split_not_nil in Hsp. }
    destruct (Ascii.eqb a c).
    + constructor; [|exact IH].
      destruct p as [|b p]; [now rewrite startsWith_empty in Hs|reflexivity].
    + inversion IH as [|? ? Hx Hrest]; subst. constructor; [|exact Hrest].
      destruct (split_head c s x rest Hsp) as [tail ->].
      unfold JS.includes, JS.indexOf in *. cbn [JS.indexOf_from].
      destruct (JS.startsWith (String a x) p) eqn:Hax.
      * apply (startsWith_longer p (String a x) tail) in Hax.
        cbn [append] in Hax. congruence.
      * destruct (JS.indexOf_from 0 x p) eqn:H0; [discriminate Hx|].
        now rewrite (indexOf_from_none p x 0 1 H0).
Qed.

Lemma strip_line_plain : forall line inString q prev,
  JS.includes line "//" = false -> strip_line inString q prev line = line.
Proof.
  induction line as [|c line IH]; intros inString q prev H; [reflexivity|].
  apply includes_cons_false in H. destruct H as [Hs Hi].
  cbn [strip_line]. rewrite !(IH _ _ _ Hi).
  destruct (negb inString && is_quote c); [reflexivity|].
  destruct (inString && Ascii.eqb c q && negb (Ascii.eqb prev JS.BACKSLASH)); [reflexivity|].
  cbn [JS.startsWith] in Hs. rewrite (Ascii.eqb_sym "/" c) in Hs.
  destruct (negb inString); [|reflexivity]. cbn [andb]. now rewrite Hs.
Qed.

Lemma map_id_on : forall (f : string -> string) ls,
  Forall (fun l => f l = l) ls -> map f ls = ls.
Proof.
  induction ls as [|l ls IH]; intros H; [reflexivity|].
  inversion H; subst. cbn [map]. now rewrite IH; [f_equal|].
Qed.

Lemma length_join_le : forall (f : string -> string) sep ls,
  (forall l, String.length (f l) <= String.length l) ->
  String.length (JS.join sep (map f ls)) <= String.length (JS.join sep ls).
Proof.
  intros f sep ls Hf. induction ls as [|l ls IH]; [simpl; lia|].
  destruct ls as [|l' ls'].
  - cbn. apply Hf.
  - change (JS.join sep (map f (l :: l' :: ls')))
      with (f l ++ sep ++ JS.join sep (map f (l' :: ls'))).
    change (JS.join sep (l :: l' :: ls')) with (l ++ sep ++ JS.join sep (l' :: ls')).
    rewrite !length_append. specialize (Hf l). lia.
Qed.

Lemma strip_line_length : forall line inString q prev,
  String.length (strip_line inString q prev line) <= String.length line.
Proof.
  induction line as [|c line IH]; intros; cbn [strip_line String.length]; [lia|].
  destruct (negb inString && is_quote c); [cbn [String.length]; specialize (IH true c c); lia|].
  destruct (inString && Ascii.eqb c q && negb (Ascii.eqb prev JS.BACKSLASH));
    [cbn [String.length]; specialize (IH false q c); lia|].
  destruct (negb inString && Ascii.eqb c "/" && JS.startsWith line "/");
    [cbn [String.length]; lia|].
  cbn [String.length]. specialize (IH inString q c). lia.
Qed.

Lemma strip_block_length : forall s,
  (forall inside, String.length (strip_block inside s) <= String.length s) /\
  (forall inside a, String.length (strip_block inside (String a s))
                    <= String.length (String a s)).
Proof.
  induction s as [|d s [IH1 IH2]].
  - split; intros; [simpl; lia|]. destruct inside; simpl; lia.
  - split; [intros; apply IH2|].
    intros inside a. cbn [strip_block].
    destruct inside.
    + destruct (Ascii.eqb a "*" && Ascii.eqb d "/").
      * specialize (IH1 false). simpl. lia.
      * specialize (IH2 true d). simpl in *. lia.
    + destruct (Ascii.eqb a "/" && Ascii.eqb d "*" && JS.includes s "*/").
      * specialize (IH1 true). simpl. lia.
      * specialize (IH2 false d). simpl in *. lia.
Qed.

Lemma strip_line_code : forall code rest prev q,
  JS.count_char JS.DQUOTE code = 0 -> JS.count_char JS.SQUOTE code = 0 ->
  JS.count_char "/" code = 0 ->
  strip_line false q prev (code ++ rest)
  = code ++ strip_line false q (match JS.reverse code with
                                | String c _ => c
                                | EmptyString => prev
                                end) rest.
Proof.
  induction code as [|c code IH]; intros rest prev q Hd Hs Hc; [reflexivity|].
  apply count_zero_cons in Hd. apply count_zero_cons in Hs. apply count_zero_cons in Hc.
  destruct Hd as [Hd Hd']. destruct Hs as [Hs Hs']. destruct Hc as [Hc Hc'].
  cbn [append strip_line negb andb]. unfold is_quote. rewrite Hd, Hs, Hc. cbn [orb andb].
  rewrite (IH rest c q Hd' Hs' Hc'). rewrite reverse_cons.
  destruct (JS.reverse code); reflexivity.
Qed.

Lemma strip_line_inside : forall q body rest prev,
  JS.count_char q body = 0 -> JS.count_char JS.BACKSLASH body = 0 ->
  prev <> JS.BACKSLASH ->
  strip_line true q prev (body ++ String q rest)
  = body ++ String q (strip_line false q q rest).
Proof.
  induction body as [|c body IH]; intros rest prev Hq Hb Hp.
  - cbn [append strip_line negb andb]. rewrite Ascii.eqb_refl.
    apply Ascii.eqb_neq in Hp. rewrite Hp. reflexivity.
  - apply count_zero_cons in Hq. apply count_zero_cons in Hb.
    destruct Hq as [Hq Hq']. destruct Hb as [Hb Hb'].
    cbn [append strip_line negb andb]. rewrite Hq. cbn [andb].
    rewrite (IH rest c Hq' Hb'); [reflexivity|].
    intros ->. now rewrite Ascii.eqb_refl in Hb.
Qed.

Lemma removeComments_plain : forall content,
  JS.includes content "/*" = false -> JS.includes content "//" = false ->
  removeComments content = content.
Proof.
  intros content Hb Hl. unfold removeComments.
  rewrite (proj1 (strip_block_no_comment content) Hb).
  rewrite map_id_on; [apply split_join|].
  pose proof (split_includes JS.LF "//" content Hl) as H.
  rewrite Forall_forall in H |- *. intros l Hin. apply strip_line_plain. now apply H.
Qed.

(** X15.  [removeComments] returns a text as it is when the text holds
    neither [/*] nor [//], and never returns a longer text.  On one line
    with no block comment opener, two slashes outside quotes cut the line
    there, and two slashes between quotes are kept. *)
Theorem removeComments_cuts :
  (forall content,
     JS.includes content "/*" = false -> JS.includes content "//" = false ->
     removeComments content = content) /\
  (forall content, String.length (removeComments content) <= String.length content) /\
  (forall code q body post comment,
     JS.count_char JS.DQUOTE code = 0 -> JS.count_char JS.SQUOTE code = 0 ->
     JS.count_char "/" code = 0 ->
     is_quote q = true -> JS.count_char q body = 0 ->
     JS.count_char JS.BACKSLASH body = 0 ->
     JS.count_char JS.DQUOTE post = 0 -> JS.count_char JS.SQUOTE post = 0 ->
     JS.count_char "/" post = 0 ->
     let line := code ++ literal q body ++ post ++ "//" ++ comment in
     JS.includes line "/*" = false -> JS.count_char JS.LF line = 0 ->
     removeComments line = code ++ literal q body ++ post).
Proof.
  split; [|split].
  - exact removeComments_plain.
  - intros content. unfold removeComments.
    pose proof (length_join_le (strip_line false "000" "000") (JS.ch JS.LF)
                  (JS.split JS.LF (strip_block false content))
                  (fun l => strip_line_length l false "000"%char "000"%char)) as H.
    rewrite split_join in H.
    pose proof (proj1 (strip_block_length content) false). lia.
  - intros code q body post comment Hd Hs Hc Hq Hqb Hbb Hpd Hps Hpc line Hblock Hlf.
    unfold removeComments. rewrite (proj1 (strip_block_no_comment line) Hblock).
    assert (Hsp : JS.split JS.LF line = [line]).
    { pose proof (split_length JS.LF line) as Hlen. rewrite Hlf in Hlen.
      pose proof (split_join JS.LF line) as Hj.
      destruct (JS.split JS.LF line) as [|x [|y r]]; try discriminate Hlen.
      cbn in Hj. now rewrite Hj. }
    rewrite Hsp. cbn [map JS.join]. unfold line, literal.
    rewrite (strip_line_code code _ _ _ Hd Hs Hc).
    cbn [append strip_line negb andb]. rewrite Hq.
    rewrite append_assoc. cbn [JS.ch append].
    rewrite (strip_line_inside q body _ q Hqb Hbb).
    + rewrite (strip_line_code post _ _ _ Hpd Hps Hpc).
      cbn [append strip_line negb andb JS.startsWith Ascii.eqb Bool.eqb].
      change (is_quote "/") with false. rewrite startsWith_empty. cbn [andb].
      now rewrite append_empty_r, append_assoc.
    + destruct (is_quote_cases q Hq) as [-> | ->]; discriminate.
Qed.

(** X15 at a line with an address in quotes and a comment after it. *)
Lemma removeComments_witness :
  removeComments ("url = " ++ literal JS.DQUOTE "http://host" ++ " " ++ "//" ++ " the address")
  = "url = " ++ literal JS.DQUOTE "http://host" ++ " ".
Proof.
  apply (proj2 (proj2 removeComments_cuts) "url = " JS.DQUOTE "http://host" " "
           " the address"); reflexivity.
Defined.

End CommentRemoval.

(* ================================================================== *)
(** * Decimal integers *)
(* ================================================================== *)

Lemma digit_cases : forall c, JS.is_digit c = true ->
  In c ["0"; "1"; "2"; "3"; "4"; "5"; "6"; "7"; "8"; "9"]%char.
Proof.
  intros c H. destruct c as [[] [] [] [] [] [] [] []]; try discriminate H;
    cbn; tauto.
Qed.

Ltac digit c H :=
  let D := fresh "D" in
  pose proof (digit_cases c H) as D; cbn [In] in D;
  repeat (destruct D as [D|D]; [subst c|]); [..|contradiction].

Section Doubles.

Lemma round_half_even_whole : forall n : Z, JS.round_half_even n 1 = n.
Proof.
  intros n. unfold JS.round_half_even. rewrite Z.mod_1_r, Z.div_1_r. reflexivity.
Qed.

Lemma scaled_back : forall (z : Z) (k : Z), (0 < k)%Z ->
  (inject_Z (z * 2 ^ k) * JS.pow2 (- k) == inject_Z z)%Q.
Proof.
  intros z k Hk. unfold JS.pow2.
  destruct (Z.leb_spec 0 (- k)) as [H|H]; [lia|].
  rewrite Z.opp_involutive.
  assert (Hp : (0 < 2 ^ k)%Z) by (apply Z.pow_pos_nonneg; lia).
  rewrite inject_Z_mult.
  assert (Hne : ~ (inject_Z (2 ^ k) == 0)%Q).
  { unfold Qeq, inject_Z. cbn [Qnum Qden]. lia. }
  field. exact Hne.
Qed.

(** An integer below [2^53] is a double: rounding returns it. *)
Lemma to_double_integer : forall (neg : bool) (z : Z),
  (0 <= z < 2 ^ 53)%Z ->
  JS.to_double neg (inject_Z z) = JS.Finite (JS.apply_sign neg (inject_Z z)).
Proof.
  intros neg z [H0 H53]. unfold JS.to_double. cbn [inject_Z Qnum Qden].
  destruct (Z.leb_spec z 0) as [Hz|Hz].
  - assert (z = 0%Z) by lia. subst z. reflexivity.
  - change (Z.log2 1) with 0%Z. rewrite Z.sub_0_r.
    pose proof (Z.log2_nonneg z) as Hl0.
    pose proof (Z.log2_spec z Hz) as [Hlo Hhi].
    assert (Hl52 : (Z.log2 z <= 52)%Z).
    { apply Z.lt_succ_r. apply Z.log2_lt_pow2; [exact Hz|exact H53]. }
    destruct (Z.leb_spec 0 (Z.log2 z)) as [_|?]; [|lia].
    rewrite Z.mul_1_l.
    destruct (Z.leb_spec (2 ^ Z.log2 z) z) as [_|?]; [|lia].
    rewrite Z.max_l by lia.
    destruct (Z.leb_spec 0 (Z.log2 z - 52)) as [Hp|Hp].
    + assert (Hp0 : (Z.log2 z - 52 = 0)%Z) by lia. rewrite Hp0.
      change (2 ^ 0)%Z with 1%Z. rewrite round_half_even_whole, Z.mul_1_r.
      destruct (Z.leb_spec (2 ^ 1024) z) as [Hbig|_].
      { exfalso. assert ((2 ^ 53 < 2 ^ 1024)%Z) by (apply Z.pow_lt_mono_r; lia). lia. }
      cbn [andb]. do 2 f_equal.
      rewrite (Qred_complete _ (inject_Z z)); [apply Qred_inject_Z|].
      unfold JS.pow2. change (0 <=? 0)%Z with true. cbn iota.
      change (2 ^ 0)%Z with 1%Z. ring.
    + cbn [andb]. rewrite round_half_even_whole. do 2 f_equal.
      rewrite (Qred_complete _ (inject_Z z)); [apply Qred_inject_Z|].
      replace (Z.log2 z - 52)%Z with (- (52 - Z.log2 z))%Z by lia.
      rewrite Z.opp_involutive. apply scaled_back. lia.
Qed.

Lemma safe_below : forall z : Z, safe_integer z -> (Z.abs z < 2 ^ 53)%Z.
Proof.
  intros z H. unfold safe_integer in H.
  change (2 ^ 53)%Z with 9007199254740992%Z. lia.
Qed.

End Doubles.

Section Integers.


Lemma uint_digits : forall d, all_digits (NilEmpty.string_of_uint d) = true.
Proof. induction d; cbn; auto. Qed.

Lemma digits_val_acc : forall d acc,
  JS.digits_val (Zpos acc) (NilEmpty.string_of_uint d) = Zpos (Pos.of_uint_acc d acc).
Proof.
  induction d; intros acc; cbn [NilEmpty.string_of_uint JS.digits_val Pos.of_uint_acc];
    [reflexivity|..];
    match goal with
    | |- JS.digits_val ?a _ = Zpos (Pos.of_uint_acc _ ?b) =>
        replace a with (Zpos b)
          by (match goal with
              | |- context [JS.digit_val ?c] =>
                  let v := eval vm_compute in (JS.digit_val c) in
                  change (JS.digit_val c) with v
              end; lia)
    end; apply IHd.
Qed.

Lemma digits_val_uint : forall d,
  JS.digits_val 0 (NilEmpty.string_of_uint d) = Z.of_N (Pos.of_uint d).
Proof.
  induction d; cbn [NilEmpty.string_of_uint JS.digits_val Pos.of_uint];
    [reflexivity|exact IHd|..];
    match goal with
    | |- JS.digits_val ?a _ = Z.of_N (N.pos (Pos.of_uint_acc _ ?b)) =>
        change a with (Zpos b)
    end; apply digits_val_acc.
Qed.

Lemma span_digits_all : forall s, all_digits s = true -> JS.span_digits s = (s, "").
Proof.
  induction s as [|c s IH]; intros H; [reflexivity|].
  unfold all_digits in H. cbn [list_ascii_of_string forallb] in H.
  apply andb_true_iff in H. destruct H as [Hc Hs].
  cbn [JS.span_digits]. now rewrite Hc, (IH Hs).
Qed.

Lemma all_digits_no_space : forall s, all_digits s = true -> no_space s = true.
Proof.
  induction s as [|c s IH]; intros H; [reflexivity|].
  unfold all_digits in H. cbn [list_ascii_of_string forallb] in H.
  apply andb_true_iff in H. destruct H as [Hc Hs].
  unfold no_space. cbn [list_ascii_of_string forallb].
  fold (no_space s). rewrite (IH Hs), andb_true_r.
  digit c Hc; reflexivity.
Qed.

Lemma Qred_over_one : forall v : Z,
  Qred (Qdiv (inject_Z v) (inject_Z 1)) = inject_Z v.
Proof.
  intros v. unfold Qdiv, Qmult, Qinv, inject_Z. cbn [Qnum Qden].
  rewrite Z.mul_1_r. cbn [Pos.mul]. apply (Qred_inject_Z v).
Qed.

Lemma parse_unsigned_digits : forall s,
  all_digits s = true -> JS.is_empty s = false ->
  JS.parse_unsigned_decimal s = Some (inject_Z (JS.digits_val 0 s)).
Proof.
  intros s H Hne. unfold JS.parse_unsigned_decimal.
  rewrite (span_digits_all s H), Hne. cbn [andb JS.is_empty String.length Z.of_nat].
  rewrite append_empty_r. change (10 ^ 0)%Z with 1%Z. now rewrite Qred_over_one.
Qed.

Lemma digits_not_prefixed : forall s x,
  all_digits s = true -> JS.is_digit x = false ->
  JS.startsWith (JS.toLowerCase (JS.take 2 s)) (String "0" (JS.ch x)) = false.
Proof.
  intros s x H Hx. destruct s as [|a [|b r]]; [reflexivity| |].
  - cbn. now rewrite andb_false_r.
  - unfold all_digits in H. cbn [list_ascii_of_string forallb] in H.
    apply andb_true_iff in H. destruct H as [_ H].
    apply andb_true_iff in H. destruct H as [Hb _].
    cbn [JS.take JS.toLowerCase JS.startsWith JS.ch].
    assert (E : Ascii.eqb x (JS.lower_char b) = false).
    { destruct (Ascii.eqb x (JS.lower_char b)) eqn:He; [|reflexivity].
      apply Ascii.eqb_eq in He. subst x. digit b Hb; discriminate Hx. }
    rewrite E. cbn [andb]. now rewrite andb_false_r.
Qed.

Lemma digits_val_nonneg : forall s acc,
  all_digits s = true -> (0 <= acc)%Z -> (0 <= JS.digits_val acc s)%Z.
Proof.
  induction s as [|c s IH]; intros acc H Ha; [exact Ha|].
  unfold all_digits in H. cbn [list_ascii_of_string forallb] in H.
  apply andb_true_iff in H. destruct H as [Hc Hs].
  cbn [JS.digits_val]. apply IH; [exact Hs|].
  unfold JS.digit_val. lia.
Qed.

Lemma Number_digits : forall s,
  all_digits s = true -> JS.is_empty s = false ->
  safe_integer (JS.digits_val 0 s) ->
  JS.Number s = JS.Finite (inject_Z (JS.digits_val 0 s)).
Proof.
  intros s H Hne Hsafe. unfold JS.Number.
  rewrite (trim_no_space s (all_digits_no_space s H)), Hne.
  change "0x" with (String "0" (JS.ch "x")). change "0o" with (String "0" (JS.ch "o")).
  change "0b" with (String "0" (JS.ch "b")).
  rewrite !(digits_not_prefixed s _ H) by reflexivity.
  assert (Hsign : JS.split_sign s = (false, s)).
  { destruct s as [|c r]; [discriminate Hne|].
    unfold all_digits in H. cbn [list_ascii_of_string forallb] in H.
    apply andb_true_iff in H. destruct H as [Hc _]. digit c Hc; reflexivity. }
  rewrite Hsign.
  assert (Hinf : String.eqb s "Infinity" = false).
  { destruct s as [|c r]; [reflexivity|].
    unfold all_digits in H. cbn [list_ascii_of_string forallb] in H.
    apply andb_true_iff in H. destruct H as [Hc _]. digit c Hc; reflexivity. }
  rewrite Hinf, (parse_unsigned_digits s H Hne).
  apply (to_double_integer false). split.
  - apply digits_val_nonneg; [exact H|lia].
  - pose proof (safe_below _ Hsafe). lia.
Qed.

Lemma nat_text : forall n : nat,
  all_digits (JS.Z_to_string (Z.of_nat n)) = true /\
  JS.is_empty (JS.Z_to_string (Z.of_nat n)) = false /\
  JS.digits_val 0 (JS.Z_to_string (Z.of_nat n)) = Z.of_nat n.
Proof.
  intros n. unfold JS.Z_to_string. destruct (Z.of_nat n) as [|p|p] eqn:Hn; [..|lia].
  - repeat split.
  - cbn [Z.to_int NilEmpty.string_of_int].
    split; [apply uint_digits|split].
    + pose proof (DecimalPos.Unsigned.of_to p) as Hp.
      destruct (Pos.to_uint p); [discriminate Hp|..]; reflexivity.
    + now rewrite digits_val_uint, DecimalPos.Unsigned.of_to.
Qed.

Lemma Number_nat : forall n : nat,
  safe_integer (Z.of_nat n) ->
  JS.Number (JS.Z_to_string (Z.of_nat n)) = JS.Finite (inject_Z (Z.of_nat n)).
Proof.
  intros n Hs. destruct (nat_text n) as (Hd & Hne & Hv).
  rewrite (Number_digits _ Hd Hne); rewrite Hv; [reflexivity|exact Hs].
Qed.

End Integers.

(* ================================================================== *)
(** * Bracketed references *)
(* ================================================================== *)

Section Brackets.

Lemma absent_run : forall c s, JS.count_char c s = 0 ->
  forallb (fun x => negb (Ascii.eqb x c)) (list_ascii_of_string s) = true.
Proof.
  induction s as [|a s IH]; intros H; [reflexivity|].
  apply count_zero_cons in H. destruct H as [Ha Hs].
  cbn [list_ascii_of_string forallb]. now rewrite Ha, (IH Hs).
Qed.

Lemma name_run : forall s, JS.count_char "[" s = 0 -> JS.count_char "." s = 0 ->
  forallb name_char (list_ascii_of_string s) = true.
Proof.
  induction s as [|a s IH]; intros H1 H2; [reflexivity|].
  apply count_zero_cons in H1. apply count_zero_cons in H2.
  destruct H1 as [Ha1 H1]. destruct H2 as [Ha2 H2].
  cbn [list_ascii_of_string forallb]. unfold name_char at 1.
  now rewrite Ha1, Ha2, (IH H1 H2).
Qed.

Lemma ref_parts_bracket : forall fuel base inner,
  plain_name base -> JS.is_empty inner = false -> JS.count_char "]" inner = 0 ->
  ref_parts (S (S fuel)) (bracket_ref base inner) = [base; "[" ++ inner ++ "]"].
Proof.
  intros fuel base inner (Hne & Ho & Hc & Hd) Hi Hic. unfold bracket_ref.
  destruct base as [|c r] eqn:Hb; [discriminate Hne|]. rewrite <- Hb.
  assert (Hs : span name_char (base ++ "[" ++ inner ++ "]")
               = (base, "[" ++ inner ++ "]")).
  { subst base. apply span_run; [now apply name_run|reflexivity]. }
  pose proof Ho as Ho'. pose proof Hd as Hd'.
  apply count_zero_cons in Ho'. apply count_zero_cons in Hd'.
  destruct Ho' as [Hco _]. destruct Hd' as [Hcd _].
  rewrite Hb at 1. cbn [append ref_parts]. rewrite Hco, Hcd.
  change (String c (r ++ String "[" (inner ++ "]"))) with ((String c r) ++ "[" ++ inner ++ "]").
  rewrite <- Hb, Hs. f_equal.
  cbn [append ref_parts Ascii.eqb Bool.eqb].
  rewrite (span_run (fun x => negb (Ascii.eqb x "]")) inner "]" "");
    [|now apply absent_run|reflexivity].
  rewrite Hi. f_equal. destruct fuel; reflexivity.
Qed.

Lemma resolveReference_bracket : forall fuel st base inner,
  plain_name base -> JS.is_empty inner = false -> JS.count_char "]" inner = 0 ->
  resolveReference (S (S fuel)) st (bracket_ref base inner)
  = bind (resolveSimpleReference base (config st) (currentSection st))
         (accessor_step (bracket_ref base inner) ("[" ++ inner ++ "]")).
Proof.
  intros fuel st base inner Hbase Hi Hic.
  pose proof Hbase as (Hne & Ho & Hc & Hd).
  cbn [resolveReference].
  assert (Hinc : JS.includes (bracket_ref base inner) "[" = true).
  { unfold bracket_ref. apply (includes_char_present "[" base). }
  rewrite Hinc. cbn [orb]. unfold resolveComplexReference.
  assert (Hfuel : exists f, String.length (bracket_ref base inner) = S f).
  { unfold bracket_ref. rewrite length_append. cbn [append String.length].
    exists (String.length base + String.length (inner ++ "]")). lia. }
  destruct Hfuel as [f ->]. rewrite (ref_parts_bracket f base inner Hbase Hi Hic).
  cbn [resolveComplex_loop].
  assert (Hsw : JS.startsWith base "[" = false).
  { destruct base as [|c r]; [reflexivity|]. apply count_zero_cons in Ho.
    destruct Ho as [Hco _]. cbn [JS.startsWith]. rewrite Ascii.eqb_sym, Hco. reflexivity. }
  rewrite Hsw. cbn [negb]. cbn [JS.startsWith Ascii.eqb Bool.eqb append andb negb].
  assert (Hdd : drop_dot base = base).
  { destruct base as [|c r]; [reflexivity|]. apply count_zero_cons in Hd.
    destruct Hd as [Hcd _]. unfold drop_dot.
    destruct c as [[] [] [] [] [] [] [] []]; try reflexivity. discriminate Hcd. }
  rewrite Hdd.
  pose proof (includes_char_absent "[" base Ho) as G1.
  pose proof (includes_char_absent "]" base Hc) as G2. unfold JS.ch in G1, G2.
  rewrite G1, G2. cbn [orb].
  destruct (resolveSimpleReference base (config st) (currentSection st)) as [v| |];
    [|reflexivity|reflexivity].
  cbn [bind]. rewrite startsWith_empty.
  destruct (accessor_step (bracket_ref base inner) (String "[" (inner ++ "]")) v);
    reflexivity.
Qed.

Lemma index_in_bounds : forall (i n : nat),
  (0 <=? Qnum (inject_Z (Z.of_nat i)))%Z
  && Qle_bool (inject_Z (Z.of_nat i)) (JS.num (Z.of_nat n))
  && negb (JS.num_eqb (inject_Z (Z.of_nat i)) (JS.num (Z.of_nat n)))
  = (i <? n)%nat.
Proof.
  intros i n. unfold JS.num_eqb, JS.num, Qle_bool, Qeq_bool, inject_Z. cbn [Qnum Qden].
  rewrite !Z.mul_1_r.
  destruct (Nat.ltb_spec i n).
  - replace (0 <=? Z.of_nat i)%Z with true by (symmetry; apply Z.leb_le; lia).
    replace (Z.of_nat i <=? Z.of_nat n)%Z with true by (symmetry; apply Z.leb_le; lia).
    replace (Z.of_nat i =? Z.of_nat n)%Z with false by (symmetry; apply Z.eqb_neq; lia).
    reflexivity.
  - destruct (Z.eqb_spec (Z.of_nat i) (Z.of_nat n)).
    + now rewrite andb_false_r.
    + replace (Z.of_nat i <=? Z.of_nat n)%Z with false by (symmetry; apply Z.leb_gt; lia).
      now rewrite andb_false_r.
Qed.

Lemma accessor_step_index : forall ref (l : list UCLValue) (i : nat),
  safe_integer (Z.of_nat i) ->
  accessor_step ref ("[" ++ JS.Z_to_string (Z.of_nat i) ++ "]") (VArr l)
  = match nth_error l i with
    | Some v => Ok v
    | None => Throw (UCLReferenceError
                ("Array index out of bounds: " ++ JS.Z_to_string (Z.of_nat i)
                   ++ " in '" ++ ref ++ "'"))
    end.
Proof.
  intros ref l i Hsafe. unfold accessor_step.
  destruct (nat_text i) as (Hd & Hne & Hv).
  change ("[" ++ JS.Z_to_string (Z.of_nat i) ++ "]")
    with (String "[" (JS.Z_to_string (Z.of_nat i) ++ JS.ch "]")).
  rewrite strip_ends_edges, (trim_no_space _ (all_digits_no_space _ Hd)),
    (Number_nat i Hsafe).
  cbn [JSNumber_toString]. rewrite integral_text, String.eqb_refl, index_in_bounds.
  rewrite Qred_inject_Z. cbn [inject_Z Qnum Qden Z.eqb Pos.eqb]. rewrite Nat2Z.id.
  destruct (Nat.ltb_spec i (List.length l)) as [Hlt|Hge].
  - destruct (nth_error l i) as [v|] eqn:Hn; [reflexivity|].
    apply nth_error_None in Hn. lia.
  - apply nth_error_None in Hge. now rewrite Hge.
Qed.




(** X16.  An element of an array by its index: when the base of the
    reference resolves to an array, [base[i]] resolves to the element [i],
    counted from zero, and to the Reference error of the index out of bounds
    when the array has no such element.  The index is one that a double
    holds exactly. *)
Theorem element_by_index :
  forall (fuel : nat) (st : State) (base : string) (l : list UCLValue) (i : nat),
    plain_name base -> safe_integer (Z.of_nat i) ->
    resolveSimpleReference base (config st) (currentSection st) = Ok (VArr l) ->
    let ref := bracket_ref base (JS.Z_to_string (Z.of_nat i)) in
    resolveReference (S (S fuel)) st ref
    = match nth_error l i with
      | Some v => Ok v
      | None => Throw (UCLReferenceError
                  ("Array index out of bounds: " ++ JS.Z_to_string (Z.of_nat i)
                     ++ " in '" ++ ref ++ "'"))
      end.
Proof.
  intros fuel st base l i Hbase Hsafe Hres ref. unfold ref.
  destruct (nat_text i) as (Hd & Hne & _).
  rewrite resolveReference_bracket; [|exact Hbase|exact Hne|].
  - rewrite Hres. cbn [bind]. now apply accessor_step_index.
  - clear -Hd. induction (JS.Z_to_string (Z.of_nat i)) as [|c s IH]; [reflexivity|].
    unfold all_digits in Hd. cbn [list_ascii_of_string forallb] in Hd.
    apply andb_true_iff in Hd. destruct Hd as [Hc Hs].
    cbn [JS.count_char]. rewrite (IH Hs).
    digit c Hc; reflexivity.
Qed.

(** X16 at the second element of an array of two, and past its end. *)
Lemma element_by_index_witness :
  resolveReference 2 items_state (bracket_ref "items" (JS.Z_to_string (Z.of_nat 1)))
  = Ok (VStr "b") /\
  resolveReference 2 items_state (bracket_ref "items" (JS.Z_to_string (Z.of_nat 2)))
  = Throw (UCLReferenceError "Array index out of bounds: 2 in 'items[2]'").
Proof.
  split.
  - apply (element_by_index 0 items_state "items" [VStr "a"; VStr "b"] 1);
      [repeat split|unfold safe_integer; simpl; lia|reflexivity].
  - apply (element_by_index 0 items_state "items" [VStr "a"; VStr "b"] 2);
      [repeat split|unfold safe_integer; simpl; lia|reflexivity].
Defined.



End Brackets.

Section IntegerLiterals.

(** The text of an integer: digits, after a minus sign when it is negative. *)
Lemma integer_text : forall z : Z, exists d,
  all_digits d = true /\ JS.is_empty d = false /\
  JS.digits_val 0 d = Z.abs z /\
  JS.Z_to_string z = (if (z <? 0)%Z then "-" else "") ++ d.
Proof.
  intros z. destruct z as [|p|p].
  - exists "0". repeat split.
  - destruct (nat_text (Pos.to_nat p)) as (Hd & Hne & Hv).
    rewrite positive_nat_Z in *. exists (JS.Z_to_string (Zpos p)). repeat split; auto.
  - destruct (nat_text (Pos.to_nat p)) as (Hd & Hne & Hv).
    rewrite positive_nat_Z in *. exists (JS.Z_to_string (Zpos p)). repeat split; auto.
Qed.

Lemma Qred_opp_inject : forall v : Z, Qred (Qopp (inject_Z v)) = inject_Z (- v).
Proof. intros v. unfold Qopp, inject_Z. cbn [Qnum Qden]. apply (Qred_inject_Z (- v)). Qed.

Lemma head_digit : forall d, all_digits d = true -> JS.is_empty d = false ->
  exists c r, d = String c r /\ JS.is_digit c = true /\ all_digits r = true.
Proof.
  intros [|c r] H Hne; [discriminate Hne|]. exists c, r.
  unfold all_digits in H. cbn [list_ascii_of_string forallb] in H.
  apply andb_true_iff in H. destruct H as [Hc Hr]. auto.
Qed.

Lemma Number_negative : forall d,
  all_digits d = true -> JS.is_empty d = false ->
  safe_integer (JS.digits_val 0 d) ->
  JS.Number (String "-" d) = JS.Finite (inject_Z (- JS.digits_val 0 d)).
Proof.
  intros d H Hne Hsafe. unfold JS.Number.
  assert (Ht : JS.trim (String "-" d) = String "-" d).
  { apply trim_no_space. unfold no_space. cbn [list_ascii_of_string forallb].
    fold (no_space d). now rewrite (all_digits_no_space d H). }
  rewrite Ht. cbn [JS.is_empty].
  destruct (head_digit d H Hne) as (c & r & -> & Hc & Hr).
  cbn [JS.take JS.toLowerCase JS.startsWith JS.drop Ascii.eqb Bool.eqb andb JS.lower_char].
  change (JS.lower_char "-") with "-"%char. cbn [JS.startsWith Ascii.eqb Bool.eqb andb].
  cbn [JS.split_sign].
  assert (Hinf : String.eqb (String c r) "Infinity" = false).
  { digit c Hc; reflexivity. }
  rewrite Hinf, (parse_unsigned_digits (String c r) H Hne).
  rewrite (to_double_integer true).
  - cbn [JS.apply_sign]. now rewrite Qred_opp_inject.
  - split; [apply digits_val_nonneg; [exact H|lia]|].
    pose proof (safe_below _ Hsafe). lia.
Qed.

Lemma safe_abs : forall z : Z, safe_integer z -> safe_integer (Z.abs z).
Proof. intros z H. unfold safe_integer in *. lia. Qed.

Lemma Number_integer : forall z : Z,
  safe_integer z ->
  JS.Number (JS.Z_to_string z) = JS.Finite (inject_Z z).
Proof.
  intros z Hsafe. destruct (integer_text z) as (d & Hd & Hne & Hv & ->).
  assert (Hs : safe_integer (JS.digits_val 0 d)) by (rewrite Hv; now apply safe_abs).
  destruct (Z.ltb_spec z 0).
  - cbn [append]. rewrite (Number_negative d Hd Hne Hs), Hv. f_equal. f_equal. lia.
  - cbn [append]. rewrite (Number_digits d Hd Hne Hs), Hv. f_equal. f_equal. lia.
Qed.

Lemma decimal_prefix_digits : forall d,
  all_digits d = true -> JS.is_empty d = false ->
  JS.decimal_prefix d = Some (inject_Z (JS.digits_val 0 d)).
Proof.
  intros d H Hne. unfold JS.decimal_prefix.
  rewrite (span_digits_all d H), Hne. cbn [andb JS.is_empty String.length Z.of_nat].
  rewrite append_empty_r. change (10 ^ 0)%Z with 1%Z. now rewrite Qred_over_one.
Qed.

Lemma parseFloat_integer : forall (neg : bool) d,
  all_digits d = true -> JS.is_empty d = false ->
  safe_integer (JS.digits_val 0 d) ->
  exists q, JS.parseFloat ((if neg then "-" else "") ++ d) = JS.Finite q.
Proof.
  intros neg d H Hne Hsafe. pose proof (decimal_prefix_digits d H Hne) as Hq.
  assert (Hr : forall b, JS.to_double b (inject_Z (JS.digits_val 0 d))
                         = JS.Finite (JS.apply_sign b (inject_Z (JS.digits_val 0 d)))).
  { intros b. apply to_double_integer. split; [apply digits_val_nonneg; [exact H|lia]|].
    pose proof (safe_below _ Hsafe). lia. }
  destruct (head_digit d H Hne) as (c & r & -> & Hc & Hr').
  assert (Hinf : JS.startsWith (String c r) "Infinity" = false).
  { digit c Hc; reflexivity. }
  unfold JS.parseFloat. destruct neg; cbn [append].
  - change (JS.trimStart (String "-" (String c r))) with (String "-" (String c r)).
    cbn [JS.split_sign]. rewrite Hinf, Hq, Hr. eauto.
  - assert (Ht : JS.trimStart (String c r) = String c r).
    { apply trimStart_tight. digit c Hc; reflexivity. }
    rewrite Ht.
    assert (Hs : JS.split_sign (String c r) = (false, String c r)).
    { digit c Hc; reflexivity. }
    rewrite Hs, Hinf, Hq, Hr. eauto.
Qed.

Lemma numeric_literal_integer : forall (neg : bool) d,
  all_digits d = true -> JS.is_empty d = false ->
  numeric_literal ((if neg then "-" else "") ++ d) = true.
Proof.
  intros neg d H Hne. unfold numeric_literal.
  assert (E : match (if neg then "-" else "") ++ d with
              | String "-" r => r
              | _ => (if neg then "-" else "") ++ d
              end = d).
  { destruct neg; [reflexivity|]. cbn [append].
    destruct (head_digit d H Hne) as (c & r & -> & Hc & Hr). digit c Hc; reflexivity. }
  rewrite E, (span_digits_all d H), Hne. reflexivity.
Qed.

(** The tests that an integer text passes by its first character. *)
Lemma integer_shape : forall (neg : bool) d,
  all_digits d = true -> JS.is_empty d = false ->
  let s := (if neg then "-" else "") ++ d in
  JS.trim s = s /\ JS.is_empty s = false /\ env_match s = None /\
  quoted s = false /\ bracketed s = false /\ braced s = false /\
  String.eqb (JS.toLowerCase s) "null" = false /\
  JS.mem (JS.toLowerCase s) ["true"; "false"] = false /\
  JS.mem (JS.toLowerCase s) ["true"; "false"; "null"] = false.
Proof.
  intros neg d H Hne s.
  assert (Ht : JS.trim s = s).
  { apply trim_no_space. unfold s. rewrite no_space_app, (all_digits_no_space d H).
    destruct neg; reflexivity. }
  destruct (head_digit d H Hne) as (c & r & Hd & Hc & Hr).
  split; [exact Ht|]. unfold s. rewrite Hd.
  unfold env_match, quoted, bracketed, braced, JS.mem.
  destruct neg; cbn [append].
  - repeat split; reflexivity.
  - digit c Hc; repeat split; reflexivity.
Qed.

Lemma isSimpleLiteral_integer : forall E (neg : bool) d,
  all_digits d = true -> JS.is_empty d = false ->
  safe_integer (JS.digits_val 0 d) ->
  isSimpleLiteral E ((if neg then "-" else "") ++ d) = true.
Proof.
  intros E neg d H Hne Hsafe.
  destruct (integer_shape neg d H Hne) as (Ht & _ & _ & Hq & Hb & Hc & _ & _ & Hm).
  unfold isSimpleLiteral. rewrite Ht, Hq, Hb, Hc, Hm. cbn [orb].
  rewrite (numeric_literal_integer neg d H Hne).
  destruct (parseFloat_integer neg d H Hne Hsafe) as [q ->].
  destruct neg; cbn [append].
  - now rewrite (Number_negative d H Hne Hsafe).
  - now rewrite (Number_digits d H Hne Hsafe).
Qed.

(** X18.  The decimal text of an integer, negative or not, is a number
    literal: [_parseValue] returns that integer, and the minus sign of a
    negative one is not taken for an operator.  The integer is one that a
    double holds exactly. *)
Theorem integer_literal_value :
  forall (E : Engine) (h : Host) (st : State) (fuel : nat) (z : Z),
    safe_integer z ->
    parseValue E h st (S fuel) (JS.Z_to_string z) = Ok (VNum (inject_Z z)).
Proof.
  intros E h st fuel z Hsafe.
  pose proof (Number_integer z Hsafe) as Hnum.
  destruct (integer_text z) as (d & Hd & Hne & Hv & Hs). rewrite Hs in *.
  set (neg := (z <? 0)%Z) in *.
  destruct (integer_shape neg d Hd Hne) as (Ht & He & Hm & Hq & Hb & Hc & Hn & Htf & _).
  assert (Hsd : safe_integer (JS.digits_val 0 d)) by (rewrite Hv; now apply safe_abs).
  pose proof (isSimpleLiteral_integer E neg d Hd Hne Hsd) as Hlit.
  cbn [parseValue]. rewrite Ht, He, Hm.
  unfold conversion_suffix. rewrite Hlit. cbn [negb]. rewrite !andb_false_r.
  cbn [andb]. unfold parseSimpleValue. rewrite Ht, Hn, Htf, Hq, Hb, Hc, Hnum.
  reflexivity.
Qed.

(** X18 at a negative integer. *)
Lemma integer_literal_witness :
  parseValue Modular no_host initial_state 1 (JS.Z_to_string (-42))
  = Ok (VNum (inject_Z (-42))).
Proof.
  apply (integer_literal_value Modular no_host initial_state 0 (-42)).
  unfold safe_integer. simpl. lia.
Defined.

End IntegerLiterals.

(* ================================================================== *)
(** * Arrays *)
(* ================================================================== *)

Section Arrays.

Variable pv : string -> Result UCLValue.

Lemma split_absent : forall c s, JS.count_char c s = 0 -> JS.split c s = [s].
Proof.
  induction s as [|a s IH]; intros H; [reflexivity|].
  apply count_zero_cons in H. destruct H as [Ha Hs].
  cbn [JS.split]. now rewrite Ha, (IH Hs).
Qed.

Lemma split_at_first : forall c a r, JS.count_char c a = 0 ->
  JS.split c (a ++ String c r) = a :: JS.split c r.
Proof.
  induction a as [|x a IH]; intros r H.
  - cbn [append JS.split]. now rewrite Ascii.eqb_refl.
  - apply count_zero_cons in H. destruct H as [Hx Ha].
    cbn [append JS.split]. now rewrite Hx, (IH r Ha).
Qed.

Lemma join_lines_flat : forall s pending, flat s = true ->
  join_lines s pending false = pending ++ s.
Proof.
  induction s as [|c s IH]; intros pending H.
  - cbn. now rewrite append_empty_r.
  - unfold flat in H. cbn [list_ascii_of_string forallb] in H.
    apply andb_true_iff in H. destruct H as [Hc Hs].
    apply andb_true_iff in Hc. destruct Hc as [_ Hlf]. apply negb_true_iff in Hlf.
    cbn [join_lines]. rewrite Hlf. cbn [orb].
    destruct (JS.is_space c).
    + rewrite (IH _ Hs), append_assoc. reflexivity.
    + now rewrite (IH "" Hs).
Qed.

Lemma parseArray_loop_flat : forall s prev cur q elements,
  flat s = true -> JS.count_char "," cur = 0 ->
  parseArray_loop pv s prev cur 0 0 false q elements
  = bind (parse_each pv (JS.split "," (cur ++ s)))
         (fun vs => Ok (elements ++ vs)%list).
Proof.
  induction s as [|c s IH]; intros prev cur q elements H Hcur.
  - rewrite append_empty_r, (split_absent "," cur Hcur).
    cbn [parseArray_loop parse_each]. unfold push_element.
    destruct (JS.is_empty (JS.trim cur)); [cbn; now rewrite app_nil_r|].
    destruct (pv (JS.trim cur)); reflexivity.
  - unfold flat in H. cbn [list_ascii_of_string forallb] in H.
    apply andb_true_iff in H. destruct H as [Hc Hs].
    apply andb_true_iff in Hc. destruct Hc as [Hn _]. apply negb_true_iff in Hn.
    unfold nesting_char in Hn. rewrite !orb_false_iff in Hn.
    destruct Hn as ((((Hq & H1) & H2) & H3) & H4).
    cbn [parseArray_loop negb andb]. rewrite Hq, H1, H2, H3, H4.
    destruct (Ascii.eqb c ",") eqn:Hcomma.
    + apply Ascii.eqb_eq in Hcomma. subst c. cbn [Z.eqb andb].
      rewrite (split_at_first "," cur s Hcur). cbn [parse_each]. unfold push_element.
      destruct (JS.is_empty (JS.trim cur)).
      * cbn [bind]. rewrite (IH _ "" _ _ Hs eq_refl). reflexivity.
      * destruct (pv (JS.trim cur)) as [v| |]; [|reflexivity|reflexivity].
        cbn [bind]. rewrite (IH _ "" _ _ Hs eq_refl). cbn [append].
        destruct (parse_each pv (JS.split "," s)); [|reflexivity|reflexivity].
        cbn [bind]. now rewrite <- app_assoc.
    + cbn [andb]. rewrite (IH _ (cur ++ JS.ch c) _ _ Hs).
      * now rewrite append_assoc.
      * rewrite count_char_app, Hcur. cbn. now rewrite Hcomma.
Qed.

Lemma parseArray_loop_inside : forall q body rest prev cur elements,
  JS.count_char q body = 0 -> JS.count_char JS.BACKSLASH body = 0 ->
  prev <> JS.BACKSLASH ->
  parseArray_loop pv (body ++ String q rest) prev cur 0 0 true q elements
  = parseArray_loop pv rest q (cur ++ body ++ JS.ch q) 0 0 false q elements.
Proof.
  induction body as [|c body IH]; intros rest prev cur elements Hq Hb Hp.
  - cbn [append parseArray_loop negb andb]. rewrite Ascii.eqb_refl.
    apply Ascii.eqb_neq in Hp. now rewrite Hp.
  - apply count_zero_cons in Hq. apply count_zero_cons in Hb.
    destruct Hq as [Hq Hq']. destruct Hb as [Hb Hb'].
    cbn [append parseArray_loop negb andb]. rewrite Hq.
    rewrite (IH rest c _ elements Hq' Hb').
    + now rewrite append_assoc.
    + intros ->. now rewrite Ascii.eqb_refl in Hb.
Qed.

End Arrays.

(** X19.  [_parseArray] on a text whose content holds no quote, bracket,
    brace or line feed: the elements are the pieces between the commas, each
    trimmed and parsed in order, a blank piece giving no element, and the
    first error is the error of the array.  A quoted text with neither its
    quote nor a backslash inside is one element, whatever else it holds. *)
Theorem parseArray_elements :
  (forall (pv : string -> Result UCLValue) (arrayStr : string),
     flat (JS.trim (JS.strip_ends arrayStr)) = true ->
     parseArray pv arrayStr
     = bind (parse_each pv (JS.split "," (JS.trim (JS.strip_ends arrayStr))))
            (fun vs => Ok (VArr vs))) /\
  (forall (pv : string -> Result UCLValue) (q : ascii) (body : string),
     is_quote q = true -> JS.count_char q body = 0 ->
     JS.count_char JS.BACKSLASH body = 0 -> JS.count_char JS.LF body = 0 ->
     parseArray pv ("[" ++ literal q body ++ "]")
     = bind (pv (literal q body)) (fun v => Ok (VArr [v]))).
Proof.
  split.
  - intros pv arrayStr H. unfold parseArray.
    destruct (JS.trim (JS.strip_ends arrayStr)) as [|c r] eqn:Hc; [reflexivity|].
    cbn [JS.is_empty]. rewrite (join_lines_flat _ "" H). cbn [append].
    rewrite (parseArray_loop_flat pv _ _ "" _ [] H eq_refl). cbn [append app].
    destruct (parse_each pv (JS.split "," (String c r))); reflexivity.
  - intros pv q body Hq Hqb Hb Hlf. unfold parseArray.
    change ("[" ++ literal q body ++ "]") with (String "[" (literal q body ++ JS.ch "]")).
    rewrite strip_ends_edges, (literal_trim q body Hq).
    change (JS.is_empty (literal q body)) with false. cbn iota.
    assert (Hj : join_lines (literal q body) "" false = literal q body).
    { assert (G : forall s pending, JS.count_char JS.LF s = 0 ->
                  join_lines s pending false = pending ++ s).
      { induction s as [|c s IH]; intros pending H; [cbn; now rewrite append_empty_r|].
        apply count_zero_cons in H. destruct H as [Hc Hs].
        cbn [join_lines]. rewrite Hc. cbn [orb].
        destruct (JS.is_space c); [rewrite (IH _ Hs), append_assoc|rewrite (IH "" Hs)];
          reflexivity. }
      apply (G (literal q body) ""). unfold literal. cbn [JS.count_char].
      rewrite count_char_app, Hlf. destruct (is_quote_cases q Hq) as [-> | ->]; reflexivity. }
    rewrite Hj. unfold literal. cbn [parseArray_loop negb andb]. rewrite Hq.
    change (body ++ JS.ch q) with (body ++ String q "").
    rewrite (parseArray_loop_inside pv q body "" q _ [] Hqb Hb).
    + cbn [parseArray_loop]. unfold push_element.
      change ("" ++ JS.ch q) with (JS.ch q).
      change (JS.ch q ++ body ++ JS.ch q) with (literal q body).
      rewrite (literal_trim q body Hq).
      change (JS.is_empty (literal q body)) with false. cbn iota.
      unfold literal, JS.ch.
      destruct (pv (String q (body ++ String q ""))); reflexivity.
    + destruct (is_quote_cases q Hq) as [-> | ->]; discriminate.
Qed.

(** X19 at an array with a doubled comma and a comma at its end. *)
Lemma parseArray_witness :
  parseArray (parseValue Monolith no_host initial_state 2) "[1,, 2 ,]"
  = Ok (VArr [VNum (JS.num 1); VNum (JS.num 2)]).
Proof.
  rewrite (proj1 parseArray_elements (parseValue Monolith no_host initial_state 2)
             "[1,, 2 ,]" eq_refl).
  reflexivity.
Defined.

(* ================================================================== *)
(** * The line loop *)
(* ================================================================== *)

Section LineLoop.

Lemma tight_parts : forall s, tight s = true ->
  JS.trimStart s = s /\ JS.trimEnd s = s.
Proof.
  intros s H. unfold tight in H. apply andb_true_iff in H. destruct H as [H1 H2].
  split.
  - destruct s as [|c s]; [reflexivity|]. apply trimStart_tight.
    now apply negb_true_iff in H1.
  - unfold JS.trimEnd. destruct (JS.reverse s) as [|c r] eqn:Hr.
    + simpl. rewrite <- (reverse_involutive s), Hr. reflexivity.
    + rewrite trimStart_tight by (now apply negb_true_iff in H2).
      rewrite <- Hr. apply reverse_involutive.
Qed.

Lemma tight_around : forall a m b,
  JS.is_empty a = false -> JS.is_empty b = false ->
  tight a = true -> tight b = true -> tight (a ++ m ++ b) = true.
Proof.
  intros a m b Ha Hb Ta Tb. unfold tight in *.
  apply andb_true_iff in Ta. apply andb_true_iff in Tb.
  destruct Ta as [Ta _]. destruct Tb as [_ Tb].
  destruct a as [|c a]; [discriminate Ha|]. cbn [append]. rewrite Ta. cbn [andb].
  change (String c (a ++ m ++ b)) with ((String c a) ++ m ++ b).
  rewrite !reverse_app.
  destruct (JS.reverse b) as [|d r] eqn:Hr.
  - rewrite <- (reverse_involutive b), Hr in Hb. discriminate Hb.
  - cbn [append]. exact Tb.
Qed.

Lemma trim_space_after : forall k, tight k = true -> JS.trim (k ++ " ") = k.
Proof.
  intros k H. destruct (tight_parts k H) as [Hs He].
  destruct k as [|c k]; [reflexivity|].
  unfold JS.trim.
  assert (E : JS.trimStart (String c k ++ " ") = String c k ++ " ").
  { unfold tight in H. apply andb_true_iff in H. destruct H as [H _].
    apply negb_true_iff in H. cbn [append]. now apply trimStart_tight. }
  rewrite E. unfold JS.trimEnd in *. rewrite reverse_app.
  change (JS.reverse " " ++ JS.reverse (String c k))
    with (String " " (JS.reverse (String c k))).
  cbn [JS.trimStart]. change (JS.is_space " ") with true. cbn iota. exact He.
Qed.

Lemma trim_space_before : forall v, tight v = true -> JS.trim (" " ++ v) = v.
Proof.
  intros v H. destruct (tight_parts v H) as [Hs He].
  unfold JS.trim. cbn [append JS.trimStart]. change (JS.is_space " ") with true.
  cbn iota. now rewrite Hs.
Qed.

Lemma render_assign : forall E h fuel st key value following,
  plain_key key -> one_line_value value ->
  JS.trim (render (Assign key value)) = render (Assign key value) /\
  JS.is_empty (render (Assign key value)) = false /\
  bracketed (render (Assign key value)) = false /\
  parseKeyValue E h fuel st (render (Assign key value)) following
  = bind (parseValue E h st fuel value)
         (fun v => Ok (setNestedValue st key v, 0)).
Proof.
  intros E h fuel st key value following (Hk & Tk & Hke & Hkd & Hks & Hkb)
    (Hv & Tv & Hvo & Hvb).
  cbn [render].
  split; [apply trim_tight; now apply tight_around|].
  split; [destruct key; [discriminate Hk|reflexivity]|].
  split.
  { unfold bracketed. destruct key as [|c key]; [discriminate Hk|].
    cbn [JS.startsWith] in Hkb. rewrite startsWith_empty, andb_true_r in Hkb.
    cbn [append JS.startsWith]. now rewrite Hkb. }
  unfold parseKeyValue.
  assert (Hinc : JS.includes (key ++ " = " ++ value) "=" = true).
  { replace (key ++ " = " ++ value) with ((key ++ " ") ++ String "=" (" " ++ value))
      by (now rewrite append_assoc).
    apply (includes_char_present "=" (key ++ " ")). }
  rewrite Hinc. cbn [negb].
  assert (Hsplit : splitKeyValue (key ++ " = " ++ value) = Ok (key, value)).
  { replace (key ++ " = " ++ value) with ((key ++ " ") ++ "=" ++ (" " ++ value))
      by (now rewrite append_assoc).
    unfold splitKeyValue.
    rewrite (splitKeyValue_loop_first (key ++ " ") _ _ "" (" " ++ value)).
    - cbn [append]. rewrite (trim_space_after key Tk).
      change (String " " value) with (" " ++ value).
      now rewrite (trim_space_before value Tv).
    - rewrite count_char_app, Hke. reflexivity.
    - rewrite count_char_app, Hkd. reflexivity.
    - rewrite count_char_app, Hks. reflexivity. }
  rewrite Hsplit. cbn [bind]. rewrite (trim_tight value Tv), Hvo, Hvb. reflexivity.
Qed.

Lemma render_header : forall name, tight name = true ->
  JS.trim (render (Header name)) = render (Header name) /\
  JS.is_empty (render (Header name)) = false /\
  bracketed (render (Header name)) = true /\
  JS.trim (JS.strip_ends (render (Header name))) = name.
Proof.
  intros name H. cbn [render].
  change ("[" ++ name ++ "]") with (String "[" (name ++ JS.ch "]")).
  split; [apply trim_tight; now apply tight_edges|].
  split; [reflexivity|]. split.
  - unfold bracketed. cbn [JS.startsWith Ascii.eqb Bool.eqb andb].
    rewrite startsWith_empty. cbn [andb].
    replace (String "[" (name ++ JS.ch "]")) with (("[" ++ name) ++ "]") by reflexivity.
    apply endsWith_app.
  - rewrite strip_ends_edges. now apply trim_tight.
Qed.

Lemma parseLines_loop_run : forall E h fuel items st,
  Forall well_formed items ->
  parseLines_loop E h fuel st 0 (map render items) = run E h fuel st items.
Proof.
  intros E h fuel items.
  induction items as [|i items IH]; intros st H; [reflexivity|].
  inversion H as [|? ? Hi Hrest]; subst. cbn [map].
  destruct i as [name|key value]; cbn [well_formed] in Hi.
  - destruct Hi as [Ht Hd].
    destruct (render_header name Ht) as (E1 & E2 & E3 & E4).
    cbn [parseLines_loop run]. rewrite E1, E2, E3, E4, Hd. now apply IH.
  - destruct Hi as [Hk Hv].
    destruct (render_assign E h fuel st key value (map render items) Hk Hv)
      as (E1 & E2 & E3 & E4).
    cbn [parseLines_loop run]. rewrite E1, E2, E3, E4.
    destruct (parseValue E h st fuel value) as [v| |]; [|reflexivity|reflexivity].
    cbn [bind fst snd]. now apply IH.
Qed.

(** X20.  The line loop is a fold: from the state in which a parse starts,
    on the lines of section headers and one-line assignments, it does, in
    order, what each line says.  A header sets the section path to the parts
    of its name; an assignment evaluates its value in the state that the
    lines before it left and stores it under the section path and the key;
    the first error ends the parse.  This is stated for lines that store no
    object and write at no [__proto__], where the Document is the tree that
    the writes build. *)
Theorem parseLines_in_order :
  forall (E : Engine) (h : Host) (fuel : nat) (items : list Item),
    Forall well_formed items ->
    plain_writes E h fuel initial_state items ->
    parseLines E h fuel initial_state (map render items)
    = run E h fuel initial_state items.
Proof. intros E h fuel items H _. now apply parseLines_loop_run. Qed.

(** X20 at a section with a key and a second key that refers to the first. *)
Lemma parseLines_witness :
  parseLines Monolith no_host 4 initial_state
    (map render [Header "Server"; Assign "port" "8000"; Assign "next" "port + 1"])
  = Ok {| config := [("Server", VObj [("port", VNum (JS.num 8000));
                                      ("next", VNum (JS.num 8001))])];
          currentSection := ["Server"];
          defaults := [] |}.
Proof.
  rewrite (parseLines_in_order Monolith no_host 4
             [Header "Server"; Assign "port" "8000"; Assign "next" "port + 1"]).
  - vm_compute. reflexivity.
  - repeat constructor.
  - vm_compute. repeat split.
Defined.

End LineLoop.

(* ================================================================== *)
(** * Type suffixes and bare names *)
(* ================================================================== *)

Section Suffixes.

Lemma letter_class : forall c, JS.is_lower (JS.lower_char c) = true ->
  JS.is_space c = false /\ is_quote c = false /\ JS.is_digit c = false /\
  Ascii.eqb c "." = false /\ Ascii.eqb "]" c = false /\ Ascii.eqb "}" c = false.
Proof.
  intros c H. destruct c as [[] [] [] [] [] [] [] []];
    try discriminate H; repeat split; reflexivity.
Qed.

Lemma name_class : forall c, is_id_char c || Ascii.eqb c "." = true ->
  JS.is_space c = false /\ is_quote c = false /\ is_operator_char c = false /\
  Ascii.eqb "[" c = false /\ Ascii.eqb "]" c = false /\
  Ascii.eqb "{" c = false /\ Ascii.eqb "}" c = false.
Proof.
  intros c H. destruct c as [[] [] [] [] [] [] [] []];
    try discriminate H; repeat split; reflexivity.
Qed.

Lemma id_start_class : forall c, is_id_start c = true ->
  JS.is_digit c = false /\ Ascii.eqb c "-" = false /\ Ascii.eqb c "." = false /\
  is_id_char c || Ascii.eqb c "." = true.
Proof.
  intros c H. destruct c as [[] [] [] [] [] [] [] []];
    try discriminate H; repeat split; reflexivity.
Qed.

Lemma last_char_app : forall a b, JS.is_empty b = false ->
  last_char (a ++ b) = last_char b.
Proof.
  intros a b H. unfold last_char. rewrite reverse_app.
  destruct (JS.reverse b) as [|c r] eqn:Hr; [|reflexivity].
  rewrite <- (reverse_involutive b), Hr in H. discriminate H.
Qed.

Lemma last_char_forall : forall p s c,
  forallb p (list_ascii_of_string s) = true -> last_char s = Some c -> p c = true.
Proof.
  intros p. induction s as [|a s IH]; intros c H Hl; [discriminate Hl|].
  cbn [list_ascii_of_string forallb] in H. apply andb_true_iff in H.
  destruct H as [Ha Hs]. destruct s as [|b s'].
  - cbn in Hl. injection Hl as <-. exact Ha.
  - change (String a (String b s')) with (JS.ch a ++ String b s') in Hl.
    rewrite last_char_app in Hl by reflexivity. now apply IH.
Qed.

Lemma last_char_some : forall s, JS.is_empty s = false -> exists c, last_char s = Some c.
Proof.
  intros s H. unfold last_char. destruct (JS.reverse s) as [|c r] eqn:Hr; [|eauto].
  rewrite <- (reverse_involutive s), Hr in H. discriminate H.
Qed.

Lemma endsWith_char : forall s x c, last_char s = Some c ->
  JS.endsWith s (JS.ch x) = Ascii.eqb x c.
Proof.
  intros s x c H. unfold JS.endsWith, last_char in *.
  destruct (JS.reverse s) as [|d r]; [discriminate H|]. injection H as ->.
  cbn. rewrite startsWith_empty. apply andb_true_r.
Qed.

Lemma span_digits_parts : forall s d r, JS.span_digits s = (d, r) ->
  s = d ++ r /\ forallb JS.is_digit (list_ascii_of_string d) = true.
Proof.
  induction s as [|c s IH]; intros d r H.
  - cbn in H. injection H as <- <-. split; reflexivity.
  - cbn [JS.span_digits] in H. destruct (JS.is_digit c) eqn:Hc.
    + destruct (JS.span_digits s) as [d' r'] eqn:Hs. injection H as <- <-.
      destruct (IH d' r' eq_refl) as [-> Hd]. split; [reflexivity|].
      cbn [list_ascii_of_string forallb]. now rewrite Hc, Hd.
    + injection H as <- <-. split; reflexivity.
Qed.

Lemma minus_cases : forall s,
  (exists r, s = String "-" r /\ match s with String "-" r' => r' | _ => s end = r) \/
  match s with String "-" r' => r' | _ => s end = s.
Proof.
  intros [|c s]; [now right|].
  destruct c as [[] [] [] [] [] [] [] []]; try (now right).
  left. eexists. split; reflexivity.
Qed.

Lemma numeric_literal_last : forall s, numeric_literal s = true ->
  exists c, last_char s = Some c /\ JS.is_digit c = true.
Proof.
  intros s H. unfold numeric_literal in H.
  set (r0 := match s with String "-" r' => r' | _ => s end) in *.
  assert (G : forall c, JS.is_empty r0 = false -> last_char r0 = Some c ->
              last_char s = Some c).
  { intros c Hne Hc. destruct (minus_cases s) as [(r & -> & Hr)|Hr]; fold r0 in Hr.
    - subst r0. change (String "-" r) with ("-" ++ r). now rewrite last_char_app.
    - now rewrite <- Hr. }
  destruct (JS.span_digits r0) as [ip r1] eqn:Hsp.
  destruct (span_digits_parts r0 ip r1 Hsp) as [Hr0 Hip].
  apply andb_true_iff in H. destruct H as [Hne H]. apply negb_true_iff in Hne.
  destruct r1 as [|c r2].
  - rewrite append_empty_r in Hr0. subst ip.
    destruct (last_char_some r0 Hne) as [c Hc]. exists c. split; [now apply G|].
    exact (last_char_forall JS.is_digit r0 c Hip Hc).
  - destruct (Ascii.eqb c ".") eqn:Hdot.
    + apply Ascii.eqb_eq in Hdot. subst c.
      destruct (JS.span_digits r2) as [fp r3] eqn:Hsp2.
      destruct (span_digits_parts r2 fp r3 Hsp2) as [Hr2 Hfp].
      apply andb_true_iff in H. destruct H as [Hfne Hr3]. apply negb_true_iff in Hfne.
      destruct r3; [|discriminate Hr3]. rewrite append_empty_r in Hr2. subst r2.
      destruct (last_char_some fp Hfne) as [c Hc]. exists c. split.
      * apply G; [rewrite Hr0; destruct ip; [discriminate Hne|reflexivity]|].
        rewrite Hr0. change (String "." fp) with ("." ++ fp).
        now rewrite !last_char_app.
      * exact (last_char_forall JS.is_digit fp c Hfp Hc).
    + destruct c as [[] [] [] [] [] [] [] []]; try discriminate H; discriminate Hdot.
Qed.

Lemma toLowerCase_count : forall x s, JS.lower_char x = x -> JS.is_upper x = false ->
  JS.is_lower x = false ->
  JS.count_char x (JS.toLowerCase s) = JS.count_char x s.
Proof.
  intros x s Hx Hu Hl. induction s as [|c s IH]; [reflexivity|].
  cbn [JS.toLowerCase JS.count_char]. rewrite IH. f_equal.
  destruct (Ascii.eqb c x) eqn:Hc.
  - apply Ascii.eqb_eq in Hc. subst c. now rewrite Hx, Ascii.eqb_refl.
  - destruct (Ascii.eqb (JS.lower_char c) x) eqn:Hlc; [|reflexivity].
    apply Ascii.eqb_eq in Hlc. unfold JS.lower_char in Hlc.
    destruct (JS.is_upper c) eqn:Hcu.
    + subst x. exfalso. clear -Hcu Hl.
      destruct c as [[] [] [] [] [] [] [] []]; try discriminate Hcu; discriminate Hl.
    + subst x. now rewrite Ascii.eqb_refl in Hc.
Qed.

Lemma suffix_letters : forall t, JS.mem (JS.toLowerCase t) type_suffixes = true ->
  letters t = true /\ JS.is_empty t = false.
Proof.
  intros t H. apply mem_In in H. unfold letters.
  assert (G : forall w, JS.toLowerCase t = w ->
              forallb JS.is_lower (list_ascii_of_string w) = true ->
              JS.is_empty w = false ->
              forallb (fun c => JS.is_lower (JS.lower_char c)) (list_ascii_of_string t) = true
              /\ JS.is_empty t = false).
  { clear H. induction t as [|c t IH]; intros w Hw Hl Hne.
    - subst w. discriminate Hne.
    - split; [|reflexivity]. cbn [JS.toLowerCase] in Hw. subst w.
      cbn [list_ascii_of_string forallb] in Hl |- *.
      apply andb_true_iff in Hl. destruct Hl as [Hc Ht]. rewrite Hc. cbn [andb].
      destruct t as [|d t']; [reflexivity|].
      apply (IH (JS.toLowerCase (String d t')) eq_refl Ht eq_refl). }
  cbn [type_suffixes In] in H.
  destruct H as [H|[H|[H|[H|[]]]]]; apply (G _ (eq_sym H)); reflexivity.
Qed.

Lemma letters_no_dot : forall t, letters t = true -> JS.count_char "." t = 0.
Proof.
  induction t as [|c t IH]; intros H; [reflexivity|].
  unfold letters in H. cbn [list_ascii_of_string forallb] in H.
  apply andb_true_iff in H. destruct H as [Hc Ht].
  destruct (letter_class c Hc) as (_ & _ & _ & Hd & _).
  cbn [JS.count_char]. now rewrite Hd, (IH Ht).
Qed.

Lemma split_snoc : forall c b t, JS.count_char c t = 0 ->
  JS.split c (b ++ String c t) = (JS.split c b ++ [t])%list.
Proof.
  intros c b t Ht. induction b as [|a b IH].
  - cbn [append JS.split]. rewrite Ascii.eqb_refl. cbn [app].
    f_equal. clear -Ht. induction t as [|x t IH]; [reflexivity|].
    apply count_zero_cons in Ht. destruct Ht as [Hx Ht].
    cbn [JS.split]. now rewrite Hx, (IH Ht).
  - cbn [append JS.split]. rewrite IH.
    destruct (JS.split c b) as [|x rest] eqn:Hs; [now apply split_not_nil in Hs|].
    destruct (Ascii.eqb a c); reflexivity.
Qed.

Lemma letters_last : forall t, letters t = true -> JS.is_empty t = false ->
  exists c, last_char t = Some c /\ JS.is_lower (JS.lower_char c) = true.
Proof.
  intros t H Hne. destruct (last_char_some t Hne) as [c Hc]. exists c.
  split; [exact Hc|].
  exact (last_char_forall (fun c => JS.is_lower (JS.lower_char c)) t c H Hc).
Qed.

(** What every text that ends in a dot and a type name has in common. *)
Lemma suffixed_shape : forall E base t,
  tight base = true -> JS.mem (JS.toLowerCase t) type_suffixes = true ->
  let s := base ++ "." ++ t in
  JS.trim s = s /\ JS.is_empty s = false /\ env_match s = None /\
  isSimpleLiteral E s = false /\
  conversion_suffix E s = Some (base, JS.toLowerCase t).
Proof.
  intros E base t Hb Ht s.
  destruct (suffix_letters t Ht) as [Hl Hne].
  destruct (letters_last t Hl Hne) as (c & Hc & Hcl).
  destruct (letter_class c Hcl) as (Hsp & Hq & Hd & Hdot & Hbr & Hbc).
  assert (Hlast : last_char s = Some c).
  { unfold s. rewrite !last_char_app; [exact Hc|exact Hne|].
    destruct t; [discriminate Hne|reflexivity]. }
  assert (Htrim : JS.trim s = s).
  { apply trim_tight. unfold tight. apply andb_true_iff. split.
    - unfold s. destruct base as [|a base]; [reflexivity|].
      unfold tight in Hb. apply andb_true_iff in Hb. now destruct Hb.
    - unfold last_char in Hlast. destruct (JS.reverse s); [discriminate Hlast|].
      injection Hlast as ->. now rewrite Hsp. }
  assert (Hempty : JS.is_empty s = false).
  { unfold s. destruct base; reflexivity. }
  assert (Henv : env_match s = None).
  { unfold env_match. change "}" with (JS.ch "}").
    now rewrite (endsWith_char s "}" c Hlast), Hbc, andb_false_r. }
  assert (Hlit : isSimpleLiteral E s = false).
  { unfold isSimpleLiteral, quoted, bracketed, braced. rewrite Htrim.
    unfold dq, sq. change "]" with (JS.ch "]"). change "}" with (JS.ch "}").
    rewrite !(endsWith_char s _ c Hlast), Hbr, Hbc, !andb_false_r.
    unfold is_quote in Hq. apply orb_false_iff in Hq. destruct Hq as [Hq1 Hq2].
    rewrite (Ascii.eqb_sym JS.DQUOTE c), (Ascii.eqb_sym JS.SQUOTE c), Hq1, Hq2.
    rewrite !andb_false_r. cbn [orb].
    assert (Hkw : JS.mem (JS.toLowerCase s) ["true"; "false"; "null"] = false).
    { destruct (JS.mem (JS.toLowerCase s) ["true"; "false"; "null"]) eqn:Hm;
        [|reflexivity].
      apply mem_In in Hm.
      assert (Hcount : JS.count_char "." (JS.toLowerCase s) <> 0).
      { rewrite toLowerCase_count by reflexivity. unfold s.
        rewrite count_char_app. cbn [append JS.count_char Ascii.eqb Bool.eqb]. lia. }
      cbn [In] in Hm. destruct Hm as [Hm|[Hm|[Hm|[]]]]; rewrite <- Hm in Hcount;
        now contradiction Hcount. }
    rewrite Hkw.
    destruct (numeric_literal s) eqn:Hn; [|reflexivity].
    destruct (numeric_literal_last s Hn) as (c' & Hc' & Hd').
    rewrite Hlast in Hc'. injection Hc' as <-. congruence. }
  split; [exact Htrim|]. split; [exact Hempty|]. split; [exact Henv|].
  split; [exact Hlit|].
  unfold conversion_suffix. rewrite Hlit.
  assert (Hinc : JS.includes s "." = true) by apply (includes_char_present "." base).
  rewrite Hinc. cbn [negb andb].
  unfold s. change ("." ++ t) with (String "." t).
  rewrite (split_snoc "." base t (letters_no_dot t Hl)).
  rewrite length_app. cbn [List.length].
  pose proof (split_length "." base) as Hlen.
  destruct (Nat.ltb_spec 1 (List.length (JS.split "." base) + 1)); [|lia].
  rewrite last_last, removelast_last, Ht. change "." with (JS.ch ".").
  now rewrite split_join.
Qed.

(** X21.  A type name after the last dot of a value converts everything
    before that dot: the text before it is evaluated as a value of its own,
    expression or not, and the result is converted; the name is read in any
    case of letters. *)
Theorem type_suffix_applies :
  forall (E : Engine) (h : Host) (st : State) (fuel : nat) (base t : string),
    tight base = true -> JS.mem (JS.toLowerCase t) type_suffixes = true ->
    parseValue E h st (S fuel) (base ++ "." ++ t)
    = bind (parseValue E h st fuel base)
           (fun baseValue => convertType baseValue (JS.toLowerCase t)).
Proof.
  intros E h st fuel base t Hb Ht.
  destruct (suffixed_shape E base t Hb Ht) as (H1 & H2 & H3 & _ & H5).
  cbn [parseValue]. rewrite H1, H2, H3, H5. reflexivity.
Qed.

(** X21 at a sum: the suffix converts the sum, not its last operand. *)
Lemma type_suffix_witness :
  parseValue Monolith no_host initial_state 4 ("1.5 + 2.7" ++ "." ++ "INT")
  = Ok (VNum (JS.num 4)).
Proof.
  rewrite (type_suffix_applies Monolith no_host initial_state 3 "1.5 + 2.7" "INT");
    reflexivity.
Defined.

Lemma ref_match_chars : forall r q,
  (q = RStart \/ q = RIdent \/ q = RDot) ->
  ref_match q r = true -> JS.count_char "[" r = 0 -> name_chars r = true.
Proof.
  induction r as [|c r IH]; intros q Hq H Hc; [reflexivity|].
  apply count_zero_cons in Hc. destruct Hc as [Hc Hr].
  unfold name_chars. cbn [list_ascii_of_string forallb]. fold (name_chars r).
  destruct Hq as [-> | [-> | ->]]; cbn [ref_match] in H.
  - apply andb_true_iff in H. destruct H as [Hs H].
    destruct (id_start_class c Hs) as (_ & _ & _ & ->).
    apply (IH RIdent); auto.
  - destruct (is_id_char c) eqn:Hi.
    + cbn [orb andb]. apply (IH RIdent); auto.
    + destruct (Ascii.eqb c ".") eqn:Hd.
      * cbn [orb andb]. apply (IH RDot); auto.
      * rewrite Hc in H. discriminate H.
  - apply andb_true_iff in H. destruct H as [Hs H].
    destruct (id_start_class c Hs) as (_ & _ & _ & ->).
    apply (IH RIdent); auto.
Qed.

Lemma name_chars_facts : forall r, name_chars r = true ->
  no_space r = true /\
  JS.count_char "[" r = 0 /\ JS.count_char "]" r = 0 /\
  (forall prev q, containsOperators_loop r prev false q = false) /\
  (forall c, last_char r = Some c -> is_id_char c || Ascii.eqb c "." = true).
Proof.
  intros r H. split; [|split; [|split; [|split]]].
  - induction r as [|c r IH]; [reflexivity|].
    unfold name_chars in H. cbn [list_ascii_of_string forallb] in H.
    apply andb_true_iff in H. destruct H as [Hc Hr].
    destruct (name_class c Hc) as (Hs & _).
    unfold no_space. cbn [list_ascii_of_string forallb]. fold (no_space r).
    now rewrite Hs, (IH Hr).
  - induction r as [|c r IH]; [reflexivity|].
    unfold name_chars in H. cbn [list_ascii_of_string forallb] in H.
    apply andb_true_iff in H. destruct H as [Hc Hr].
    destruct (name_class c Hc) as (_ & _ & _ & Ho & _).
    cbn [JS.count_char]. now rewrite Ascii.eqb_sym, Ho, (IH Hr).
  - induction r as [|c r IH]; [reflexivity|].
    unfold name_chars in H. cbn [list_ascii_of_string forallb] in H.
    apply andb_true_iff in H. destruct H as [Hc Hr].
    destruct (name_class c Hc) as (_ & _ & _ & _ & Ho & _).
    cbn [JS.count_char]. now rewrite Ascii.eqb_sym, Ho, (IH Hr).
  - induction r as [|c r IH]; intros prev q; [reflexivity|].
    unfold name_chars in H. cbn [list_ascii_of_string forallb] in H.
    apply andb_true_iff in H. destruct H as [Hc Hr].
    destruct (name_class c Hc) as (_ & Hq & Hop & _).
    cbn [containsOperators_loop negb andb]. rewrite Hq, Hop. now apply IH.
  - intros c Hc.
    exact (last_char_forall (fun c => is_id_char c || Ascii.eqb c ".") r c H Hc).
Qed.

(** X22.  A bare name, dotted or not, is a reference and never a string:
    when it is not one of the words [true], [false], [null] and does not end
    in a type name, [_parseValue] returns what the reference resolves to, and
    so raises the Reference error when nothing is stored under the name. *)
Theorem bare_name_is_reference :
  forall (E : Engine) (h : Host) (st : State) (fuel : nat) (r : string),
    ref_match RStart r = true -> JS.count_char "[" r = 0 ->
    JS.mem (JS.toLowerCase r) ["true"; "false"; "null"] = false ->
    JS.mem (JS.toLowerCase (last (JS.split "." r) "")) type_suffixes = false ->
    parseValue E h st (S (S fuel)) r
    = resolveSimpleReference r (config st) (currentSection st).
Proof.
  intros E h st fuel r Hm Hb Hkw Hsuf.
  pose proof (ref_match_chars r RStart (or_introl eq_refl) Hm Hb) as Hn.
  destruct (name_chars_facts r Hn) as (Hsp & Ho & Hc & Hops & Hlast).
  destruct r as [|a r'] eqn:Hr; [discriminate Hm|]. rewrite <- Hr in *.
  assert (Ha : is_id_start a = true).
  { rewrite Hr in Hm. cbn [ref_match] in Hm. now apply andb_true_iff in Hm. }
  destruct (id_start_class a Ha) as (Had & Ham & Hadot & Haid).
  destruct (name_class a Haid) as (_ & Haq & _ & Hab & _ & Hac & _).
  destruct (last_char_some r) as [c Hcl]; [now rewrite Hr|].
  destruct (name_class c (Hlast c Hcl)) as (_ & _ & _ & _ & _ & _ & Hcb).
  assert (Henv : env_match r = None).
  { unfold env_match. change "}" with (JS.ch "}").
    now rewrite (endsWith_char r "}" c Hcl), Hcb, andb_false_r. }
  assert (Hlit : isSimpleLiteral E r = false).
  { unfold is_quote in Haq. apply orb_false_iff in Haq. destruct Haq as [Hq1 Hq2].
    assert (S1 : JS.startsWith r dq = false).
    { rewrite Hr. cbn [JS.startsWith dq JS.ch].
      now rewrite (Ascii.eqb_sym JS.DQUOTE a), Hq1. }
    assert (S2 : JS.startsWith r sq = false).
    { rewrite Hr. cbn [JS.startsWith sq JS.ch].
      now rewrite (Ascii.eqb_sym JS.SQUOTE a), Hq2. }
    assert (S3 : JS.startsWith r "[" = false).
    { rewrite Hr. cbn [JS.startsWith]. now rewrite Hab. }
    assert (S4 : JS.startsWith r "{" = false).
    { rewrite Hr. cbn [JS.startsWith]. now rewrite Hac. }
    assert (S5 : numeric_literal r = false).
    { unfold numeric_literal.
      assert (Hmin : match r with String "-" r'' => r'' | _ => r end = r).
      { destruct (minus_cases r) as [(x & Hx & _)|Hx]; [|exact Hx].
        rewrite Hr in Hx. injection Hx as -> _. discriminate Ham. }
      rewrite Hmin. rewrite Hr. cbn [JS.span_digits]. rewrite Had. reflexivity. }
    unfold isSimpleLiteral, quoted, bracketed, braced.
    rewrite (trim_no_space r Hsp), Hkw, S1, S2, S3, S4, S5. reflexivity. }
  assert (Hconv : conversion_suffix E r = None).
  { unfold conversion_suffix.
    destruct (JS.includes r "." && negb (isSimpleLiteral E r)); [|reflexivity].
    destruct (1 <? List.length (JS.split "." r))%nat; [|reflexivity].
    now rewrite Hsuf. }
  assert (Href : isVariableReference E r = true).
  { destruct E; cbn [isVariableReference]; [now rewrite Hlit|exact Hm]. }
  cbn [parseValue]. rewrite (trim_no_space r Hsp).
  replace (JS.is_empty r) with false by (now rewrite Hr).
  rewrite Henv, Hconv. unfold containsOperators. rewrite Hops, Hlit, Href.
  cbn [andb negb resolveReference].
  pose proof (includes_char_absent "[" r Ho) as G1.
  pose proof (includes_char_absent "]" r Hc) as G2. unfold JS.ch in G1, G2.
  now rewrite G1, G2.
Qed.

(** X22 at a word that nothing is stored under. *)
Lemma bare_name_witness :
  parseValue Modular no_host initial_state 2 "localhost"
  = Throw (UCLReferenceError "Cannot resolve reference: localhost").
Proof.
  rewrite (bare_name_is_reference Modular no_host initial_state 0 "localhost");
    reflexivity.
Defined.

End Suffixes.

(* ================================================================== *)
(** * A whole document *)
(* ================================================================== *)

Section Documents.

Lemma join_split : forall c lines,
  lines <> [] -> Forall (fun l => JS.count_char c l = 0) lines ->
  JS.split c (JS.join (JS.ch c) lines) = lines.
Proof.
  intros c. induction lines as [|l lines IH]; intros Hne H; [congruence|].
  inversion H as [|? ? Hl Hrest]; subst. destruct lines as [|l' lines'].
  - cbn [JS.join]. clear -Hl. induction l as [|a l IH]; [reflexivity|].
    apply count_zero_cons in Hl. destruct Hl as [Ha Hl].
    cbn [JS.split]. now rewrite Ha, (IH Hl).
  - change (JS.join (JS.ch c) (l :: l' :: lines'))
      with (l ++ String c (JS.join (JS.ch c) (l' :: lines'))).
    assert (G : forall a r, JS.count_char c a = 0 ->
                JS.split c (a ++ String c r) = a :: JS.split c r).
    { induction a as [|x a IHa]; intros r Ha.
      - cbn [append JS.split]. now rewrite Ascii.eqb_refl.
      - apply count_zero_cons in Ha. destruct Ha as [Hx Ha].
        cbn [append JS.split]. now rewrite Hx, (IHa r Ha). }
    rewrite (G l _ Hl), IH; [reflexivity|discriminate|exact Hrest].
Qed.

Lemma run_defaults : forall E h fuel items st st',
  run E h fuel st items = Ok st' -> defaults st' = defaults st.
Proof.
  induction items as [|i items IH]; intros st st' H.
  - cbn in H. now injection H as <-.
  - destruct i as [name|key value]; cbn [run] in H.
    + now rewrite (IH _ _ H).
    + destruct (parseValue E h st fuel value) as [v| |]; try discriminate H.
      cbn [bind] in H. now rewrite (IH _ _ H).
Qed.

Lemma processIncludes_none : forall h d lines,
  Forall document_line lines -> processIncludes h (S d) lines = Ok lines.
Proof.
  intros h d lines H. rewrite <- (app_nil_r lines) at 1.
  rewrite processIncludes_plain.
  - rewrite processIncludes_nil. cbn [bind]. now rewrite app_nil_r.
  - apply forallb_forall. intros l Hin. rewrite Forall_forall in H.
    destruct (H l Hin) as [_ Hl]. now rewrite Hl.
Qed.

(** X23.  [parseString] on a document of section headers and one-line
    assignments, with no comment and no include: the Document returned is
    the one that the lines build in order, and nothing else is added.  This
    is stated for lines that store no object and write at no [__proto__],
    where the Document is the tree that the writes build. *)
Theorem parseString_document :
  forall (E : Engine) (h : Host) (fuel : nat) (items : list Item),
    items <> [] ->
    Forall well_formed items ->
    Forall document_line (map render items) ->
    JS.includes (text (map render items)) "/*" = false ->
    JS.includes (text (map render items)) "//" = false ->
    plain_writes E h (S fuel) initial_state items ->
    parseUclString E h (S fuel) (text (map render items))
    = bind (run E h (S fuel) initial_state items) (fun st => Ok (config st)).
Proof.
  intros E h fuel items Hne Hwf Hlines Hb Hl _. unfold parseUclString.
  rewrite (removeComments_plain _ Hb Hl). unfold text.
  rewrite join_split.
  - rewrite (processIncludes_none h fuel _ Hlines). cbn [bind]. unfold parseLines.
    rewrite (parseLines_loop_run E h (S fuel) items initial_state Hwf).
    destruct (run E h (S fuel) initial_state items) as [st| |] eqn:Hrun;
      [|reflexivity|reflexivity].
    cbn [bind]. unfold applyDefaults.
    rewrite (run_defaults E h (S fuel) items initial_state st Hrun). reflexivity.
  - destruct items; [congruence|discriminate].
  - rewrite Forall_forall in Hlines |- *. intros l Hin. now destruct (Hlines l Hin).
Qed.

(** X23 at a document of two sections. *)
Lemma parseString_document_witness :
  parseUclString Modular no_host 4
    (text (map render [Header "A"; Assign "x" "1"; Header "B.C"; Assign "y" "A.x + 1"]))
  = Ok [("A", VObj [("x", VNum (JS.num 1))]);
        ("B", VObj [("C", VObj [("y", VNum (JS.num 2))])])].
Proof.
  rewrite (parseString_document Modular no_host 3
             [Header "A"; Assign "x" "1"; Header "B.C"; Assign "y" "A.x + 1"]).
  - vm_compute. reflexivity.
  - discriminate.
  - repeat constructor.
  - repeat constructor.
  - reflexivity.
  - reflexivity.
  - vm_compute. repeat split.
Defined.

End Documents.

(* ================================================================== *)
(** * Numbers written as strings *)
(* ================================================================== *)

Section NumericStrings.

Lemma integer_text_operand : forall z : Z,
  safe_integer z ->
  multiplicative (VStr (JS.Z_to_string z)) = false /\
  additive (VStr (JS.Z_to_string z)) = false /\
  toNumber (VStr (JS.Z_to_string z)) = Ok (inject_Z z).
Proof.
  intros z Hsafe. pose proof (Number_integer z Hsafe) as Hn.
  destruct (integer_text z) as (d & Hd & Hne & _ & Hs).
  destruct (head_digit d Hd Hne) as (c & r & -> & Hc & _).
  split; [|split].
  - rewrite Hs. unfold multiplicative. cbn [is_token].
    destruct (z <? 0)%Z; cbn [append]; [reflexivity|]. digit c Hc; reflexivity.
  - rewrite Hs. unfold additive. cbn [is_token].
    destruct (z <? 0)%Z; cbn [append]; [reflexivity|]. digit c Hc; reflexivity.
  - cbn [toNumber]. now rewrite Hn.
Qed.

(** X24.  A string that holds the decimal text of an integer counts as that
    integer under [*] and [-], and as text under [+]: the first two multiply
    and subtract numbers, the last joins the two texts.  The integer is one
    that a double holds exactly, and so are the other operand and the
    product and difference; the number joined as text is such an integer as
    well. *)
Theorem numeric_string_operand :
  forall (z : Z) (q : Q),
    safe_integer z -> double q ->
    (double (JS.num_mul (inject_Z z) q) ->
     evaluate_tokens [VStr (JS.Z_to_string z); VStr "*"; VNum q]
     = Ok (VNum (JS.num_mul (inject_Z z) q))) /\
    (double (JS.num_sub (inject_Z z) q) ->
     evaluate_tokens [VStr (JS.Z_to_string z); VStr "-"; VNum q]
     = Ok (VNum (JS.num_sub (inject_Z z) q))) /\
    (forall w : Z, safe_integer w ->
     evaluate_tokens [VStr (JS.Z_to_string z); VStr "+"; VNum (inject_Z w)]
     = Ok (VStr (JS.Z_to_string z ++ JS.Z_to_string w))).
Proof.
  intros z q Hsafe _. destruct (integer_text_operand z Hsafe) as (Hm & Ha & Hn).
  unfold evaluate_tokens. split; [|split].
  - intros _. cbn [mul_div_pass]. rewrite Hm.
    cbn [multiplicative is_token String.eqb Ascii.eqb Bool.eqb orb]. rewrite Hn.
    cbn [bind toNumber is_token String.eqb Ascii.eqb Bool.eqb mul_div_pass rev app
         add_sub_pass additive orb multiplicative].
    reflexivity.
  - intros _. cbn [mul_div_pass]. rewrite Hm.
    cbn [multiplicative is_token String.eqb Ascii.eqb Bool.eqb orb mul_div_pass rev app bind].
    cbn [add_sub_pass]. rewrite Ha.
    cbn [additive is_token String.eqb Ascii.eqb Bool.eqb orb hd_error tl add_sub bind].
    rewrite Hn. reflexivity.
  - intros w _. cbn [mul_div_pass]. rewrite Hm.
    cbn [multiplicative is_token String.eqb Ascii.eqb Bool.eqb orb mul_div_pass rev app bind].
    cbn [add_sub_pass]. rewrite Ha.
    cbn [additive is_token String.eqb Ascii.eqb Bool.eqb orb hd_error tl add_sub bind
         is_string toString_opt toString].
    now rewrite integral_text.
Qed.

(** X24 at the string of five and the number two. *)
Lemma numeric_string_witness :
  evaluate_tokens [VStr (JS.Z_to_string 5); VStr "*"; VNum (JS.num 2)]
  = Ok (VNum (JS.num 10)) /\
  evaluate_tokens [VStr (JS.Z_to_string 5); VStr "+"; VNum (inject_Z 2)]
  = Ok (VStr "52").
Proof.
  assert (S : forall z : Z, (Z.abs z <= 100)%Z -> safe_integer z)
    by (intros z H; unfold safe_integer; lia).
  assert (D : forall z : Z, (Z.abs z <= 100)%Z -> double (JS.num z))
    by (intros z H; apply double_integer, S, H).
  split.
  - apply (proj1 (numeric_string_operand 5 (JS.num 2) (S 5%Z ltac:(cbn; lia))
                    (D 2%Z ltac:(cbn; lia)))).
    apply (D 10%Z). cbn. lia.
  - apply (proj2 (proj2 (numeric_string_operand 5 (JS.num 2) (S 5%Z ltac:(cbn; lia))
                           (D 2%Z ltac:(cbn; lia)))) 2%Z).
    apply S. cbn. lia.
Defined.

End NumericStrings.

(* ================================================================== *)
(** * Arithmetic on integer literals *)
(* ================================================================== *)

Section Arithmetic.

Lemma operator_class : forall c, is_operator_char c = true ->
  is_quote c = false /\ JS.is_space c = false /\ JS.is_digit c = false /\
  Ascii.eqb c "." = false /\ Ascii.eqb c "(" = false /\
  Ascii.eqb "[" c = false /\ Ascii.eqb "{" c = false /\ Ascii.eqb "$" c = false /\
  isOperator (JS.ch c) = true.
Proof.
  intros c H. destruct c as [[] [] [] [] [] [] [] []];
    try discriminate H; repeat split; reflexivity.
Qed.

Lemma digit_class : forall c, JS.is_digit c = true ->
  is_quote c = false /\ JS.is_space c = false /\ is_operator_char c = false /\
  Ascii.eqb c "(" = false /\ Ascii.eqb c ")" = false /\ Ascii.eqb c "." = false /\
  is_id_start c = false.
Proof. intros c H. digit c H; repeat split; reflexivity. Qed.

Lemma tokenize_prev : forall s p1 p2 cur q tokens,
  tokenize_loop s p1 cur false q tokens = tokenize_loop s p2 cur false q tokens.
Proof. intros [|c s] p1 p2 cur q tokens; reflexivity. Qed.

Lemma tokenize_digits : forall d rest prev cur q tokens,
  all_digits d = true ->
  tokenize_loop (d ++ rest) prev cur false q tokens
  = tokenize_loop rest prev (cur ++ d) false q tokens.
Proof.
  induction d as [|c d IH]; intros rest prev cur q tokens H.
  - cbn [append]. now rewrite append_empty_r.
  - unfold all_digits in H. cbn [list_ascii_of_string forallb] in H.
    apply andb_true_iff in H. destruct H as [Hc Hd].
    destruct (digit_class c Hc) as (Hq & Hs & Ho & Hp1 & Hp2 & _).
    cbn [append tokenize_loop negb andb]. rewrite Hq, Ho, Hp1, Hp2, Hs. cbn [orb].
    rewrite (tokenize_prev _ c prev), (IH rest prev _ q tokens Hd), append_assoc.
    reflexivity.
Qed.

Lemma flush_word : forall d tokens,
  all_digits d = true -> JS.is_empty d = false ->
  flush d tokens = ("", (tokens ++ [d])%list).
Proof.
  intros d tokens H Hne. unfold flush.
  now rewrite (trim_no_space d (all_digits_no_space d H)), Hne.
Qed.

Lemma tokenize_operand : forall (neg : bool) d rest prev q tokens,
  all_digits d = true -> JS.is_empty d = false ->
  tokenize_loop (signed neg d ++ rest) prev "" false q tokens
  = tokenize_loop rest prev d false q
      (tokens ++ (if neg then ["-"] else []))%list.
Proof.
  intros neg d rest prev q tokens H Hne. unfold signed. destruct neg.
  - cbn [append tokenize_loop negb andb]. change (is_quote "-") with false.
    change (is_operator_char "-") with true. cbn [orb andb].
    change (flush "" tokens) with ("", tokens). cbn [fst snd].
    rewrite (tokenize_prev _ "-" prev). now rewrite (tokenize_digits d rest prev "" q _ H).
  - cbn [append]. rewrite (tokenize_digits d rest prev "" q _ H). now rewrite app_nil_r.
Qed.

Lemma flush_nothing : forall tokens, flush "" tokens = ("", tokens).
Proof. reflexivity. Qed.

Lemma tokenize_space : forall rest prev cur q tokens,
  tokenize_loop (String " " rest) prev cur false q tokens
  = tokenize_loop rest prev (fst (flush cur tokens)) false q (snd (flush cur tokens)).
Proof. intros. cbn [tokenize_loop negb andb]. apply tokenize_prev. Qed.

Lemma tokenize_operator : forall op rest prev cur q tokens,
  is_operator_char op = true ->
  tokenize_loop (String op rest) prev cur false q tokens
  = tokenize_loop rest prev (fst (flush cur tokens)) false q
      (snd (flush cur tokens) ++ [JS.ch op])%list.
Proof.
  intros op rest prev cur q tokens Hop.
  destruct (operator_class op Hop) as (Hq & _).
  cbn [tokenize_loop negb andb]. rewrite Hq, Hop. cbn [orb]. apply tokenize_prev.
Qed.

Lemma tokenize_binary : forall (n1 n2 : bool) da db op,
  all_digits da = true -> JS.is_empty da = false ->
  all_digits db = true -> JS.is_empty db = false ->
  is_operator_char op = true ->
  tokenizeExpression (binary (signed n1 da) op (signed n2 db))
  = ((if n1 then ["-"] else []) ++ [da; JS.ch op]
       ++ (if n2 then ["-"] else []) ++ [db])%list.
Proof.
  intros n1 n2 da db op Ha Hane Hb Hbne Hop.
  unfold tokenizeExpression, binary.
  rewrite (tokenize_operand n1 da _ _ _ [] Ha Hane). cbn [app append].
  rewrite tokenize_space, (flush_word da _ Ha Hane). cbn [fst snd].
  rewrite (tokenize_operator op _ _ _ _ _ Hop), flush_nothing. cbn [fst snd].
  rewrite tokenize_space, flush_nothing. cbn [fst snd].
  rewrite <- (append_empty_r (signed n2 db)).
  rewrite (tokenize_operand n2 db "" _ _ _ Hb Hbne).
  cbn [tokenize_loop]. rewrite (flush_word db _ Hb Hbne). cbn [snd].
  destruct n1; destruct n2; reflexivity.
Qed.

Lemma count_digits : forall x d, all_digits d = true -> JS.is_digit x = false ->
  JS.count_char x d = 0.
Proof.
  intros x. induction d as [|c d IH]; intros H Hx; [reflexivity|].
  unfold all_digits in H. cbn [list_ascii_of_string forallb] in H.
  apply andb_true_iff in H. destruct H as [Hc Hd].
  cbn [JS.count_char]. rewrite (IH Hd Hx).
  destruct (Ascii.eqb c x) eqn:He; [|reflexivity].
  apply Ascii.eqb_eq in He. congruence.
Qed.

Lemma span_digits_app : forall d c rest,
  all_digits d = true -> JS.is_digit c = false ->
  JS.span_digits (d ++ String c rest) = (d, String c rest).
Proof.
  induction d as [|x d IH]; intros c rest H Hc.
  - cbn [append JS.span_digits]. now rewrite Hc.
  - unfold all_digits in H. cbn [list_ascii_of_string forallb] in H.
    apply andb_true_iff in H. destruct H as [Hx Hd].
    cbn [append JS.span_digits]. now rewrite Hx, (IH c rest Hd Hc).
Qed.

Lemma containsOperators_found : forall p c rest prev q,
  JS.count_char JS.DQUOTE p = 0 -> JS.count_char JS.SQUOTE p = 0 ->
  is_operator_char c = true ->
  containsOperators_loop (p ++ String c rest) prev false q = true.
Proof.
  induction p as [|x p IH]; intros c rest prev q Hd Hs Hc.
  - destruct (operator_class c Hc) as (Hq & _).
    cbn [append containsOperators_loop negb andb]. now rewrite Hq, Hc.
  - apply count_zero_cons in Hd. apply count_zero_cons in Hs.
    destruct Hd as [Hd Hd']. destruct Hs as [Hs Hs'].
    cbn [append containsOperators_loop negb andb]. unfold is_quote. rewrite Hd, Hs.
    cbn [orb]. destruct (is_operator_char x); [reflexivity|]. now apply IH.
Qed.

Lemma resolveOperand_digits : forall E h st pv f d,
  all_digits d = true -> JS.is_empty d = false ->
  safe_integer (JS.digits_val 0 d) ->
  isOperator d = false /\
  resolveOperand E h st pv f d = Ok (VNum (inject_Z (JS.digits_val 0 d))).
Proof.
  intros E h st pv f d H Hne Hsafe.
  destruct (integer_shape false d H Hne) as (Ht & He & Hm & Hq & Hb & Hc & Hn & Htf & _).
  cbn [append] in *.
  destruct (head_digit d H Hne) as (c & r & Hd & Hc1 & _).
  destruct (digit_class c Hc1) as (_ & _ & _ & _ & _ & _ & Hid).
  split.
  - rewrite Hd. unfold isOperator, JS.mem, operators. cbn [existsb String.eqb].
    digit c Hc1; reflexivity.
  - unfold resolveOperand. rewrite Ht, He, Hq, Hm.
    assert (Hr : isVariableReference E d = false).
    { assert (R : ref_match RStart d = false).
      { rewrite Hd. cbn [ref_match]. now rewrite Hid. }
      destruct E; cbn [isVariableReference]; [|exact R].
      pose proof (isSimpleLiteral_integer Monolith false d H Hne Hsafe) as L.
      cbn [append] in L. now rewrite L. }
    rewrite Hr. unfold parseSimpleValue.
    rewrite Ht, Hn, Htf, Hq, Hb, Hc, (Number_digits d H Hne Hsafe). reflexivity.
Qed.

(** What [_parseValue] sees in the text of two integer operands around an
    operator: an expression without parentheses. *)
Lemma binary_is_expression : forall E h st fuel (n1 n2 : bool) da db op,
  all_digits da = true -> JS.is_empty da = false ->
  all_digits db = true -> JS.is_empty db = false ->
  is_operator_char op = true ->
  parseValue E h st (S (S fuel)) (binary (signed n1 da) op (signed n2 db))
  = evaluateSimpleExpression
      (resolveOperand E h st (parseValue E h st (S fuel)) (S fuel))
      (binary (signed n1 da) op (signed n2 db)).
Proof.
  intros E h st fuel n1 n2 da db op Ha Hane Hb Hbne Hop.
  set (s := binary (signed n1 da) op (signed n2 db)).
  destruct (operator_class op Hop) as (Hoq & Hos & Hod & Hodot & Hopar & _).
  destruct (head_digit da Ha Hane) as (a0 & ra & Hda & Ha0 & _).
  destruct (last_char_some db Hbne) as [z Hz].
  pose proof (last_char_forall JS.is_digit db z Hb Hz) as Hzd.
  destruct (digit_class z Hzd) as (_ & Hzs & _).
  destruct (digit_class a0 Ha0) as (Haq & Has & _).
  assert (Hlast : last_char s = Some z).
  { unfold s, binary, signed.
    change (String op (" " ++ (if n2 then "-" else "") ++ db))
      with ((JS.ch op ++ " " ++ (if n2 then "-" else "")) ++ db).
    rewrite !last_char_app; [exact Hz|exact Hbne|..].
    - destruct n2; reflexivity.
    - reflexivity. }
  assert (Hhead : exists c r, s = String c r /\ (c = "-"%char \/ JS.is_digit c = true)).
  { unfold s, binary, signed. rewrite Hda. destruct n1; cbn [append]; eauto. }
  destruct Hhead as (c & r & Hs & Hc).
  assert (Hcs : JS.is_space c = false /\ is_quote c = false /\
                Ascii.eqb "$" c = false /\ Ascii.eqb "[" c = false /\
                Ascii.eqb "{" c = false /\
                JS.mem (JS.toLowerCase (String c r)) ["true"; "false"; "null"] = false).
  { destruct Hc as [-> | Hc]; [repeat split|digit c Hc; repeat split]. }
  destruct Hcs as (Hc1 & Hc2 & Hc3 & Hc4 & Hc5 & Hc6).
  assert (Htrim : JS.trim s = s).
  { apply trim_tight. unfold tight. apply andb_true_iff. split.
    - rewrite Hs. now rewrite Hc1.
    - unfold last_char in Hlast. destruct (JS.reverse s); [discriminate Hlast|].
      injection Hlast as ->. now rewrite Hzs. }
  assert (Hne : JS.is_empty s = false) by (now rewrite Hs).
  assert (Henv : env_match s = None).
  { unfold env_match. rewrite Hs. cbn [JS.startsWith]. now rewrite Hc3. }
  assert (Hcount : forall x, JS.is_digit x = false -> Ascii.eqb op x = false ->
                   Ascii.eqb " " x = false -> Ascii.eqb "-" x = false ->
                   JS.count_char x s = 0).
  { intros x Hx1 Hx2 Hx3 Hx4. unfold s, binary, signed.
    rewrite !count_char_app. cbn [JS.count_char]. rewrite !count_char_app.
    rewrite (count_digits x da Ha Hx1), (count_digits x db Hb Hx1), Hx2.
    destruct n1; destruct n2; cbn [JS.count_char append]; rewrite ?Hx3, ?Hx4; reflexivity. }
  assert (Hconv : conversion_suffix E s = None).
  { unfold conversion_suffix.
    pose proof (includes_char_absent "." s) as G. unfold JS.ch in G.
    rewrite G; [reflexivity|]. apply Hcount; try reflexivity.
    now rewrite Ascii.eqb_sym. }
  assert (Hops : containsOperators s = true).
  { unfold containsOperators, s, binary.
    rewrite <- append_assoc. apply containsOperators_found; [..|exact Hop].
    - rewrite count_char_app. unfold signed. rewrite count_char_app.
      rewrite (count_digits JS.DQUOTE da Ha eq_refl). destruct n1; reflexivity.
    - rewrite count_char_app. unfold signed. rewrite count_char_app.
      rewrite (count_digits JS.SQUOTE da Ha eq_refl). destruct n1; reflexivity. }
  assert (Hlit : isSimpleLiteral E s = false).
  { unfold isSimpleLiteral, quoted, bracketed, braced. rewrite Htrim.
    unfold is_quote in Hc2. apply orb_false_iff in Hc2. destruct Hc2 as [Hq1 Hq2].
    assert (S1 : JS.startsWith s dq = false).
    { rewrite Hs. cbn [JS.startsWith dq JS.ch]. now rewrite (Ascii.eqb_sym JS.DQUOTE c), Hq1. }
    assert (S2 : JS.startsWith s sq = false).
    { rewrite Hs. cbn [JS.startsWith sq JS.ch]. now rewrite (Ascii.eqb_sym JS.SQUOTE c), Hq2. }
    assert (S3 : JS.startsWith s "[" = false).
    { rewrite Hs. cbn [JS.startsWith]. now rewrite Hc4. }
    assert (S4 : JS.startsWith s "{" = false).
    { rewrite Hs. cbn [JS.startsWith]. now rewrite Hc5. }
    assert (S5 : numeric_literal s = false).
    { unfold numeric_literal.
      assert (Hr0 : match s with String "-" r' => r' | _ => s end
                    = da ++ String " " (String op (" " ++ signed n2 db))).
      { unfold s, binary, signed. destruct n1; cbn [append]; [reflexivity|].
        rewrite Hda. cbn [append]. digit a0 Ha0; reflexivity. }
      rewrite Hr0, (span_digits_app da " " _ Ha eq_refl), Hane. reflexivity. }
    assert (S6 : JS.mem (JS.toLowerCase s) ["true"; "false"; "null"] = false).
    { rewrite Hs. exact Hc6. }
    rewrite S1, S2, S3, S4, S5, S6. reflexivity. }
  assert (Hpar : JS.includes s "(" = false).
  { pose proof (includes_char_absent "(" s) as G. unfold JS.ch in G.
    apply G. apply Hcount; try reflexivity. now rewrite Ascii.eqb_sym. }
  cbn [parseValue]. fold s. rewrite Htrim, Hne, Henv, Hconv, Hops, Hlit.
  cbn [negb andb evaluateExpression]. now rewrite Hpar.
Qed.

Lemma binary_tokens : forall E h st fuel (n1 n2 : bool) (a b : nat) op,
  safe_integer (Z.of_nat a) -> safe_integer (Z.of_nat b) ->
  is_operator_char op = true ->
  parseValue E h st (S (S fuel)) (binary (signed n1 (natural a)) op (signed n2 (natural b)))
  = evaluate_tokens
      (minus_token n1 ++ [VNum (inject_Z (Z.of_nat a)); VStr (JS.ch op)]
         ++ minus_token n2 ++ [VNum (inject_Z (Z.of_nat b))])%list.
Proof.
  intros E h st fuel n1 n2 a b op Hsa Hsb Hop. unfold natural.
  destruct (nat_text a) as (Ha & Hane & Hva). destruct (nat_text b) as (Hb & Hbne & Hvb).
  rewrite <- Hva in Hsa. rewrite <- Hvb in Hsb.
  rewrite (binary_is_expression E h st fuel n1 n2 _ _ op Ha Hane Hb Hbne Hop).
  unfold evaluateSimpleExpression.
  rewrite (tokenize_binary n1 n2 _ _ op Ha Hane Hb Hbne Hop).
  set (ro := resolveOperand E h st (parseValue E h st (S fuel)) (S fuel)).
  destruct (resolveOperand_digits E h st (parseValue E h st (S fuel)) (S fuel) _ Ha Hane Hsa)
    as [Hoa Hra].
  destruct (resolveOperand_digits E h st (parseValue E h st (S fuel)) (S fuel) _ Hb Hbne Hsb)
    as [Hob Hrb].
  fold ro in Hra, Hrb. rewrite Hva in Hra. rewrite Hvb in Hrb.
  destruct (operator_class op Hop) as (_ & _ & _ & _ & _ & _ & _ & _ & Hio).
  assert (Hminus : isOperator "-" = true) by reflexivity.
  destruct n1; destruct n2; cbn [app resolve_tokens minus_token];
    rewrite ?Hminus, ?Hoa, ?Hob, ?Hio, ?Hra, ?Hrb; reflexivity.
Qed.

(** X25.  Arithmetic on two natural numbers written in decimal, a space on
    each side of the operator, where the operands and the result are numbers
    that a double holds exactly: [_parseValue] returns their sum, difference
    and product as numbers and, when the second is not zero, the remainder
    of the division and their quotient, which is not rounded to an integer. *)
Theorem natural_arithmetic :
  forall (E : Engine) (h : Host) (st : State) (fuel : nat) (a b : nat),
    safe_integer (Z.of_nat a) -> safe_integer (Z.of_nat b) ->
    let va := inject_Z (Z.of_nat a) in
    let vb := inject_Z (Z.of_nat b) in
    let value op := parseValue E h st (S (S fuel)) (binary (natural a) op (natural b)) in
    (safe_integer (Z.of_nat (a + b)) -> value "+"%char = Ok (VNum (JS.num_add va vb))) /\
    value "-"%char = Ok (VNum (JS.num_sub va vb)) /\
    (safe_integer (Z.of_nat (a * b)) -> value "*"%char = Ok (VNum (JS.num_mul va vb))) /\
    (b <> 0 -> value "%"%char = Ok (VNum (JS.num_rem va vb))) /\
    (b <> 0 -> binary_fraction a b -> value "/"%char = Ok (VNum (JS.num_div va vb))).
Proof.
  intros E h st fuel a b Hsa Hsb va vb value.
  assert (G : forall op, is_operator_char op = true ->
              value op = evaluate_tokens [VNum va; VStr (JS.ch op); VNum vb]).
  { intros op Hop. exact (binary_tokens E h st fuel false false a b op Hsa Hsb Hop). }
  assert (Hz : b <> 0 -> JS.num_is_zero vb = false).
  { intros Hb. unfold JS.num_is_zero, vb. cbn [inject_Z Qnum]. apply Z.eqb_neq. lia. }
  split; [|split; [|split; [|split]]].
  - intros _. rewrite G by reflexivity. reflexivity.
  - rewrite G by reflexivity. reflexivity.
  - intros _. rewrite G by reflexivity. reflexivity.
  - intros Hb. rewrite G by reflexivity. unfold evaluate_tokens.
    cbn [mul_div_pass multiplicative is_token JS.ch String.eqb Ascii.eqb Bool.eqb orb
         toNumber bind].
    rewrite (Hz Hb). reflexivity.
  - intros Hb _. rewrite G by reflexivity. unfold evaluate_tokens.
    cbn [mul_div_pass multiplicative is_token JS.ch String.eqb Ascii.eqb Bool.eqb orb
         toNumber bind].
    rewrite (Hz Hb). reflexivity.
Qed.

(** X25 at seven and two: the quotient is seven halves. *)
Lemma natural_arithmetic_witness :
  parseValue Monolith no_host initial_state 2 (binary (natural 7) "/" (natural 2))
  = Ok (VNum (JS.num_div (inject_Z 7) (inject_Z 2))).
Proof.
  assert (S7 : safe_integer (Z.of_nat 7)) by (unfold safe_integer; simpl; lia).
  assert (S2 : safe_integer (Z.of_nat 2)) by (unfold safe_integer; simpl; lia).
  assert (B : binary_fraction 7 2) by (exists 1; exists 7%Z; reflexivity).
  assert (N : 2 <> 0) by discriminate.
  exact (proj2 (proj2 (proj2 (proj2
           (natural_arithmetic Monolith no_host initial_state 0 7 2 S7 S2)))) N B).
Defined.

(** X26.  A minus sign before an operand of an expression is a token of
    its own, not the sign of a number.  Before the first operand it is a
    subtraction with no left operand, a Type error.  Before the second
    operand it is taken for the right operand: after [+] the result is the
    text of the first operand followed by the sign; after [-] or [*] it is
    the Type error of a text that is not a number. *)
Theorem minus_sign_in_expression :
  forall (E : Engine) (h : Host) (st : State) (fuel : nat) (a b : nat),
    safe_integer (Z.of_nat a) -> safe_integer (Z.of_nat b) ->
    let value l op r := parseValue E h st (S (S fuel)) (binary l op r) in
    value (signed true (natural a)) "+"%char (natural b)
    = Throw (UCLTypeError "Operand is undefined in subtraction") /\
    value (signed true (natural a)) "*"%char (natural b)
    = Throw (UCLTypeError "Operand is undefined in subtraction") /\
    value (natural a) "+"%char (signed true (natural b))
    = Ok (VStr (natural a ++ "-")) /\
    value (natural a) "-"%char (signed true (natural b))
    = Throw (UCLTypeError "Cannot convert '-' to number") /\
    value (natural a) "*"%char (signed true (natural b))
    = Throw (UCLTypeError "Cannot convert '-' to number").
Proof.
  intros E h st fuel a b Hsa Hsb value.
  assert (G : forall n1 n2 op, is_operator_char op = true ->
              value (signed n1 (natural a)) op (signed n2 (natural b))
              = evaluate_tokens
                  (minus_token n1 ++ [VNum (inject_Z (Z.of_nat a)); VStr (JS.ch op)]
                     ++ minus_token n2 ++ [VNum (inject_Z (Z.of_nat b))])%list).
  { intros n1 n2 op Hop. exact (binary_tokens E h st fuel n1 n2 a b op Hsa Hsb Hop). }
  assert (Ht : JS.number_toString (inject_Z (Z.of_nat a)) = natural a)
    by apply integral_text.
  split; [|split; [|split; [|split]]].
  - refine (eq_trans (G true false "+"%char eq_refl) _). reflexivity.
  - refine (eq_trans (G true false "*"%char eq_refl) _). reflexivity.
  - refine (eq_trans (G false true "+"%char eq_refl) _). unfold evaluate_tokens.
    cbn [minus_token app mul_div_pass multiplicative is_token JS.ch String.eqb Ascii.eqb
         Bool.eqb orb rev bind add_sub_pass additive hd_error tl add_sub is_string
         toString_opt toString].
    now rewrite Ht.
  - refine (eq_trans (G false true "-"%char eq_refl) _). reflexivity.
  - refine (eq_trans (G false true "*"%char eq_refl) _). reflexivity.
Qed.

(** X26 at two and five. *)
Lemma minus_sign_witness :
  parseValue Monolith no_host initial_state 2 (binary (natural 2) "+" (signed true (natural 5)))
  = Ok (VStr "2-").
Proof.
  assert (S2 : safe_integer (Z.of_nat 2)) by (unfold safe_integer; simpl; lia).
  assert (S5 : safe_integer (Z.of_nat 5)) by (unfold safe_integer; simpl; lia).
  exact (proj1 (proj2 (proj2
           (minus_sign_in_expression Monolith no_host initial_state 0 2 5 S2 S5)))).
Defined.

End Arithmetic.
